(** * notional.parser: the HTML document parser, embedded and verified

    A shallow embedding of [src/notional/parser.py] (class [HtmlParser] and
    the module-level text helpers) together with the properties of the
    specification that concern it.

    Conventions of the embedding.
    - A Python [str] is a [string]; each character stands for a code point
      below 256.  [None] is [None] of an [option].
    - The element tree is the ElementTree produced by html5lib: tag,
      attribute dict, [text], [tail] and the ordered children.
    - The parser object is a record that is threaded through every method
      (explicit state passing).  A Python exception is the [Raise] result; it
      carries the parent object and the parser as they are when the exception
      leaves the method, because every mutation made before the [raise]
      persists.
    - [parent] is either the list [self.content] itself ([PContent], an
      alias: appending to it changes the parser) or a block ([PBlock]).
      Every block has one owner, so a block that is filled after it was
      appended to its owner is written back to the owner when the method
      that fills it returns or raises.
    - Calls to [log.debug] have no effect on the parser and are left out. *)

From stdpp Require Import base option list strings gmap.
From Stdlib Require Import Ascii String.

Local Open Scope string_scope.
Local Open Scope list_scope.

(** ** Python string primitives *)

Module Py.

(** [Py_UNICODE_ISSPACE] on the code points below 256: the test behind
    [str.isspace], [str.strip] and the class [\s] of [re] on [str]. *)
Definition Py_UNICODE_ISSPACE (c : ascii) : bool :=
  let n := nat_of_ascii c in
  (((9 <=? n) && (n <=? 13)) || ((28 <=? n) && (n <=? 32))
   || (n =? 133) || (n =? 160))%nat.

Fixpoint all_space (s : string) : bool :=
  match s with
  | EmptyString => true
  | String c s' => Py_UNICODE_ISSPACE c && all_space s'
  end.

(** [s.isspace()]: every character is whitespace and there is at least
    one character. *)
Definition isspace (s : string) : bool :=
  match s with
  | EmptyString => false
  | String _ _ => all_space s
  end.

(** [s.lstrip()] *)
Fixpoint lstrip (s : string) : string :=
  match s with
  | EmptyString => EmptyString
  | String c s' => if Py_UNICODE_ISSPACE c then lstrip s' else s
  end.

(** [s.rstrip()] *)
Fixpoint rstrip (s : string) : string :=
  match s with
  | EmptyString => EmptyString
  | String c s' =>
      match rstrip s' with
      | EmptyString => if Py_UNICODE_ISSPACE c then EmptyString else String c EmptyString
      | r => String c r
      end
  end.

(** [s.strip()] *)
Definition strip (s : string) : string := rstrip (lstrip s).

(** [re.sub(r"\s+", " ", s)]: every maximal run of whitespace becomes one
    space.  [in_run] tells that the previous character was whitespace. *)
Fixpoint sub_spaces (in_run : bool) (s : string) : string :=
  match s with
  | EmptyString => EmptyString
  | String c s' =>
      if Py_UNICODE_ISSPACE c
      then if in_run then sub_spaces true s' else String " " (sub_spaces true s')
      else String c (sub_spaces false s')
  end.

(** [os.path.basename]: what follows the last slash. *)
Fixpoint basename_from (acc : string) (s : string) : string :=
  match s with
  | EmptyString => acc
  | String c s' =>
      if Ascii.eqb c "/" then basename_from s' s' else basename_from acc s'
  end.

Definition basename (s : string) : string := basename_from s s.

(** Truth value of an optional string: [None] and the empty string are false. *)
Definition truthy (o : option string) : bool :=
  match o with
  | Some (String _ _) => true
  | _ => false
  end.

End Py.

(** ** Module-level helpers of parser.py *)

Definition condense_text (text : option string) : option string :=
  match text with
  | None => None
  | Some t => Some (Py.sub_spaces false t)
  end.

Definition normalize_text (text : option string) : option string :=
  match text with
  | None => None
  | Some t => condense_text (Some (Py.strip t))
  end.

(** ** The element tree *)

Local Unset Elimination Schemes.

Inductive Element : Type :=
  Elem (tag : string) (attrib : gmap string string)
       (text tail : option string) (children : list Element).

Set Elimination Schemes.

Definition tag (e : Element) : string := let 'Elem t _ _ _ _ := e in t.
Definition attrib (e : Element) : gmap string string := let 'Elem _ a _ _ _ := e in a.
Definition text (e : Element) : option string := let 'Elem _ _ t _ _ := e in t.
Definition tail (e : Element) : option string := let 'Elem _ _ _ t _ := e in t.
Definition children (e : Element) : list Element := let 'Elem _ _ _ _ c := e in c.

(** [elem.get(key)] *)
Definition get (e : Element) (key : string) : option string := attrib e !! key.

(** Induction over the tree with the children as a [Forall]. *)
Section Element_ind'.
Variable P : Element -> Prop.
Hypothesis P_elem : forall t a tx tl cs, Forall P cs -> P (Elem t a tx tl cs).

Fixpoint Element_ind' (e : Element) : P e :=
  match e with
  | Elem t a tx tl cs =>
      P_elem t a tx tl cs
        ((fix go (l : list Element) : Forall P l :=
            match l with
            | [] => @List.Forall_nil _ P
            | c :: l' => @List.Forall_cons _ P c l' (Element_ind' c) (go l')
            end) cs)
  end.
End Element_ind'.

(** [t is not None and not t.isspace()].  The empty string counts as
    visible, since [str.isspace] is false on it. *)
Definition visible (t : option string) : bool :=
  match t with
  | None => false
  | Some s => negb (Py.isspace s)
  end.

(** [elem_has_text(elem, with_children)].  The recursive call on a child
    uses the default [with_children=True]. *)
Fixpoint elem_has_text (with_children : bool) (elem : Element) : bool :=
  match elem with
  | Elem _ _ tx _ cs =>
      visible tx
      || (fix each (l : list Element) : bool :=
            match l with
            | [] => false
            | child :: l' =>
                (with_children && elem_has_text true child)
                || visible (tail child)
                || each l'
            end) cs
  end.

(** ["".join(elem.itertext())]: the text of the element, then for each
    child its own itertext followed by its tail. *)
Fixpoint itertext (elem : Element) : string :=
  match elem with
  | Elem _ _ tx _ cs =>
      default "" tx
      +:+ (fix each (l : list Element) : string :=
             match l with
             | [] => ""
             | child :: l' => itertext child +:+ default "" (tail child) +:+ each l'
             end) cs
  end.

Definition gather_text (elem : Element) : option string :=
  normalize_text (Some (itertext elem)).

(** ** Blocks and rich text

    The classes of [notional.blocks] and [notional.text] are used by the
    parser but are not part of the sources at hand. *)

(** Modelled from the spec: the style part of [notional.text.Annotations]
    (the StyleState flags bold, italic, strikethrough, underline and code;
    the link target is the parser's own field).  A new [Annotations()] has
    every flag off. *)
Record Annotations : Type := mkAnnotations {
  bold : bool;
  italic : bool;
  strikethrough : bool;
  underline : bool;
  code : bool
}.

Definition Annotations_new : Annotations := mkAnnotations false false false false false.

Inductive Flag : Type := Bold | Italic | Strikethrough | Underline | CodeStyle.

#[global] Instance Flag_eq_dec : EqDecision Flag.
Proof. solve_decision. Defined.

Definition flag (f : Flag) (a : Annotations) : bool :=
  match f with
  | Bold => bold a
  | Italic => italic a
  | Strikethrough => strikethrough a
  | Underline => underline a
  | CodeStyle => code a
  end.

Definition set_flag (f : Flag) (v : bool) (a : Annotations) : Annotations :=
  match f with
  | Bold => mkAnnotations v (italic a) (strikethrough a) (underline a) (code a)
  | Italic => mkAnnotations (bold a) v (strikethrough a) (underline a) (code a)
  | Strikethrough => mkAnnotations (bold a) (italic a) v (underline a) (code a)
  | Underline => mkAnnotations (bold a) (italic a) (strikethrough a) v (code a)
  | CodeStyle => mkAnnotations (bold a) (italic a) (strikethrough a) (underline a) v
  end.

(** Modelled from the spec: [notional.text.TextObject], the RichTextRun
    (display text, style snapshot, optional link URL). *)
Record TextObject : Type := mkTextObject {
  plain_text : string;
  href : option string;
  annotations : Annotations
}.

(** Modelled from the spec: [TextObject.from_value(text, href=..., **style)].
    A run is materialised only for a non-null text; the style is a snapshot
    of the flags at the call. *)
Definition TextObject_from_value (text : option string) (href : option string)
    (style : Annotations) : option TextObject :=
  match text with
  | None => None
  | Some t => Some (mkTextObject t href style)
  end.

(** Modelled from the spec: [notional.text.lstrip] and [notional.text.rstrip]
    remove the leading, respectively trailing, whitespace of one run. *)
Definition lstrip (obj : TextObject) : TextObject :=
  mkTextObject (Py.lstrip (plain_text obj)) (href obj) (annotations obj).

Definition rstrip (obj : TextObject) : TextObject :=
  mkTextObject (Py.rstrip (plain_text obj)) (href obj) (annotations obj).

(** The subclasses of [blocks.TextBlock] that the parser creates. *)
Inductive TextKind : Type :=
  | Paragraph | Heading1 | Heading2 | Heading3 | Quote | Code
  | BulletedListItem | NumberedListItem.

(** What one [append] to a [TableRow] adds: a cell bearing the value that was
    handed over, a run (or [None]) from [_append_text], a block from a
    handler that appends its block to the row. *)
Inductive Cell (B : Type) : Type :=
  | CellText (obj : option TextObject)
  | CellBlock (block : B).

Arguments CellText {B} obj.
Arguments CellBlock {B} block.

Local Unset Elimination Schemes.

(** Modelled from the spec: the Block variants of [notional.blocks].  A text
    block owns its runs and its child blocks, a table owns what was appended
    to it and the header flag, a row owns its cells; divider, image and embed
    are leaves. *)
Inductive Block : Type :=
  | TextBlock (kind : TextKind) (rich_text : list TextObject) (nested : list Block)
  | Table (has_column_header : bool) (rows : list Block)
  | TableRow (cells : list (Cell Block))
  | Divider
  | Image (url : string)
  | Embed (url : string).

Set Elimination Schemes.

(** [kind()] for a text block class: no text, no children. *)
Definition new (kind : TextKind) : Block := TextBlock kind [] [].

(** Modelled from the spec: [TableRow.Width], the number of cells. *)
Definition row_width (b : Block) : nat :=
  match b with
  | TableRow cells => List.length cells
  | _ => 0
  end.

(** Modelled from the spec: [Table.Width], the column count, derived as the
    maximum cell count across all rows. *)
Definition Width (b : Block) : nat :=
  match b with
  | Table _ rows => max_list (row_width <$> rows)
  | _ => 0
  end.

(** ** The parser object *)

Record HtmlParser : Type := mkHtmlParser {
  title : option string;
  content : list Block;
  meta : gmap string string;
  _base_url : option string;
  _current_href : option string;
  _current_text_style : Annotations
}.

(** [HtmlParser.__init__(self, base=None)] after [DocumentParser.__init__]. *)
Definition HtmlParser_init (base : option string) : HtmlParser :=
  mkHtmlParser None [] ∅ base None Annotations_new.

Definition set_title (v : option string) (self : HtmlParser) : HtmlParser :=
  mkHtmlParser v (content self) (meta self) (_base_url self)
    (_current_href self) (_current_text_style self).

Definition set_content (v : list Block) (self : HtmlParser) : HtmlParser :=
  mkHtmlParser (title self) v (meta self) (_base_url self)
    (_current_href self) (_current_text_style self).

Definition set_meta (v : gmap string string) (self : HtmlParser) : HtmlParser :=
  mkHtmlParser (title self) (content self) v (_base_url self)
    (_current_href self) (_current_text_style self).

Definition set_base_url (v : option string) (self : HtmlParser) : HtmlParser :=
  mkHtmlParser (title self) (content self) (meta self) v
    (_current_href self) (_current_text_style self).

Definition set_current_href (v : option string) (self : HtmlParser) : HtmlParser :=
  mkHtmlParser (title self) (content self) (meta self) (_base_url self)
    v (_current_text_style self).

(** [self._current_text_style.<f> = v] *)
Definition set_style (f : Flag) (v : bool) (self : HtmlParser) : HtmlParser :=
  mkHtmlParser (title self) (content self) (meta self) (_base_url self)
    (_current_href self) (set_flag f v (_current_text_style self)).

Arguments set_title v self /.
Arguments set_content v self /.
Arguments set_meta v self /.
Arguments set_base_url v self /.
Arguments set_current_href v self /.
Arguments set_style f v self /.

(** ** Parents, results and the operations on a parent *)

Inductive Parent : Type :=
  | PContent            (* the list [self.content] *)
  | PBlock (b : Block).

(** The two ways a [TypeError] arises in the parser: the explicit
    [raise TypeError("Invalid parent for <tag>")], and the call of a bound
    method with one positional argument too many.  An exception remembers
    the frame that raised it (its traceback); for the explicit [raise] that
    is the handler call, with its [elem] and its [parent]. *)
Inductive Exn : Type :=
  | InvalidParent (tag : string) (elem : Element) (parent : Parent)
  | TooManyArguments (method : string).

Inductive Result : Type :=
  | Ok (parent : Parent) (self : HtmlParser)
  | Raise (exn : Exn) (parent : Parent) (self : HtmlParser).

(** Modelled from the spec: the class tests [isinstance(parent, blocks.X)].
    [Code] is one of the [TextBlock] classes; [Table] and [TableRow] are
    not; the content list is no block at all. *)
Definition isinstance_TextBlock (parent : Parent) : bool :=
  match parent with PBlock (TextBlock _ _ _) => true | _ => false end.

Definition isinstance_Code (parent : Parent) : bool :=
  match parent with PBlock (TextBlock Code _ _) => true | _ => false end.

Definition isinstance_Table (parent : Parent) : bool :=
  match parent with PBlock (Table _ _) => true | _ => false end.

Definition isinstance_TableRow (parent : Parent) : bool :=
  match parent with PBlock (TableRow _) => true | _ => false end.

(** A method that is called with a block hands the same object back; [orig]
    is that object as it was at the call. *)
Definition as_block (orig : Block) (p : Parent) : Block :=
  match p with
  | PBlock b => b
  | PContent => orig
  end.

(** Modelled from the spec: [parent.append(block)] of the block classes.
    The block joins the end of what the parent holds (child blocks, rows,
    cells) and no [append] fails; on the content list it is [list.append].
    The leaves are never a parent. *)
Definition append (parent : Parent) (block : Block) (self : HtmlParser)
    : Parent * HtmlParser :=
  match parent with
  | PContent => (PContent, set_content (content self ++ [block]) self)
  | PBlock (TextBlock k rt ch) => (PBlock (TextBlock k rt (ch ++ [block])), self)
  | PBlock (Table h rows) => (PBlock (Table h (rows ++ [block])), self)
  | PBlock (TableRow cells) => (PBlock (TableRow (cells ++ [CellBlock block])), self)
  | PBlock b => (PBlock b, self)
  end.

(** Modelled from the spec: [TableRow.append(obj)] for a run (or [None]):
    one more cell. *)
Definition append_cell (parent : Parent) (obj : option TextObject) : Parent :=
  match parent with
  | PBlock (TableRow cells) => PBlock (TableRow (cells ++ [CellText obj]))
  | _ => parent
  end.

(** Modelled from the spec: [TextBlock.concat(obj)] for a run: the run joins
    the end of the text of the block. *)
Definition concat (parent : Parent) (obj : TextObject) : Parent :=
  match parent with
  | PBlock (TextBlock k rt ch) => PBlock (TextBlock k (rt ++ [obj]) ch)
  | _ => parent
  end.

(** Modelled from the spec: [parent.concat("\n")] of the [br] handler
    appends a newline character into the current text content and does not
    create a new run; a block without any run gets the newline as its text. *)
Definition concat_newline (parent : Parent) : Parent :=
  match parent with
  | PBlock (TextBlock k rt ch) =>
      let nl := String (ascii_of_nat 10) EmptyString in
      match reverse rt with
      | [] => PBlock (TextBlock k [mkTextObject nl None Annotations_new] ch)
      | o :: before =>
          PBlock (TextBlock k
            (reverse before ++ [mkTextObject (plain_text o +:+ nl) (href o) (annotations o)])
            ch)
      end
  | _ => parent
  end.

(** [parent.table.has_column_header = True] *)
Definition set_has_column_header (parent : Parent) : Parent :=
  match parent with
  | PBlock (Table _ rows) => PBlock (Table true rows)
  | _ => parent
  end.

Definition lstrip_first (l : list TextObject) : list TextObject :=
  match l with
  | [] => []
  | o :: l' => lstrip o :: l'
  end.

Definition rstrip_last (l : list TextObject) : list TextObject :=
  reverse (match reverse l with
           | [] => []
           | o :: l' => rstrip o :: l'
           end).

(** [strip_text_block(block)] *)
Definition strip_text_block (block : Parent) : Parent :=
  if negb (isinstance_TextBlock block) then block
  else if isinstance_Code block then block
  else
    match block with
    | PBlock (TextBlock k block_text ch) =>
        (* lstrip(block_text[0]); rstrip(block_text[-1]) *)
        PBlock (TextBlock k (rstrip_last (lstrip_first block_text)) ch)
    | _ => block
    end.

(** [HtmlParser._append_text(self, text, parent)].  It is only ever called
    with a text block or a row. *)
Definition _append_text (text : option string) (parent : Parent) (self : HtmlParser)
    : Parent :=
  let text := if negb (isinstance_Code parent) then condense_text text else text in
  let style := _current_text_style self in
  let href := _current_href self in
  let obj := TextObject_from_value text href style in
  if isinstance_TextBlock parent then
    match obj with
    | Some o => concat parent o
    | None => parent
    end
  else if isinstance_TableRow parent then append_cell parent obj
  else parent.

(** The handler methods [_render_<tag>] of the class, by name. *)
Inductive Handler : Type :=
  | h_a | h_b | h_base | h_blockquote | h_body | h_br | h_code | h_dd | h_del
  | h_div | h_dl | h_dt | h_em | h_h1 | h_h2 | h_h3 | h_h4 | h_h5 | h_h6
  | h_head | h_hgroup | h_hr | h_html | h_i | h_iframe | h_img | h_ins | h_kbd
  | h_li | h_menu | h_meta | h_object | h_ol | h_p | h_pre | h_s | h_samp
  | h_span | h_strike | h_strong | h_table | h_tbody | h_td | h_tfoot | h_th
  | h_thead | h_title | h_tr | h_tt | h_u | h_ul | h_var.

#[global] Instance Handler_eq_dec : EqDecision Handler.
Proof. solve_decision. Defined.

Definition handlers : list (string * Handler) :=
  [ ("a", h_a); ("b", h_b); ("base", h_base); ("blockquote", h_blockquote);
    ("body", h_body); ("br", h_br); ("code", h_code); ("dd", h_dd);
    ("del", h_del); ("div", h_div); ("dl", h_dl); ("dt", h_dt); ("em", h_em);
    ("h1", h_h1); ("h2", h_h2); ("h3", h_h3); ("h4", h_h4); ("h5", h_h5);
    ("h6", h_h6); ("head", h_head); ("hgroup", h_hgroup); ("hr", h_hr);
    ("html", h_html); ("i", h_i); ("iframe", h_iframe); ("img", h_img);
    ("ins", h_ins); ("kbd", h_kbd); ("li", h_li); ("menu", h_menu);
    ("meta", h_meta); ("object", h_object); ("ol", h_ol); ("p", h_p);
    ("pre", h_pre); ("s", h_s); ("samp", h_samp); ("span", h_span);
    ("strike", h_strike); ("strong", h_strong); ("table", h_table);
    ("tbody", h_tbody); ("td", h_td); ("tfoot", h_tfoot); ("th", h_th);
    ("thead", h_thead); ("title", h_title); ("tr", h_tr); ("tt", h_tt);
    ("u", h_u); ("ul", h_ul); ("var", h_var) ].

Fixpoint assoc (name : string) (l : list (string * Handler)) : option Handler :=
  match l with
  | [] => None
  | (n, h) :: l' => if String.eqb name n then Some h else assoc name l'
  end.

(** [getattr(self, f"_render_{tag}")] when [hasattr] holds, [None] otherwise. *)
Definition getattr_render (tag : string) : option Handler := assoc tag handlers.

(** A block that the method created is appended to [parent] once [r], the
    call that fills it, has returned; an exception in that call unwinds past
    the method before the append, so the block is lost and [parent] is as it
    was. *)
Definition then_append (parent : Parent) (block : Block) (r : Result) : Result :=
  match r with
  | Ok b self => let '(p, s) := append parent (as_block block b) self in Ok p s
  | Raise e _ self => Raise e parent self
  end.

(** A block that was appended to [parent] before the call [r] that fills it:
    [parent] holds the block as [r] left it, on return and on an exception
    alike. *)
Definition appended_to (parent : Parent) (block : Block) (r : Result) : Result :=
  match r with
  | Ok b self => let '(p, s) := append parent (as_block block b) self in Ok p s
  | Raise e b self => let '(p, s) := append parent (as_block block b) self in Raise e p s
  end.

(** [if isinstance(parent, blocks.TextBlock): strip_text_block(parent)] at the
    end of [_process_contents]. *)
Definition strip_at_end (r : Result) : Result :=
  match r with
  | Ok parent self =>
      Ok (if isinstance_TextBlock parent then strip_text_block parent else parent) self
  | Raise e parent self => Raise e parent self
  end.

Section Methods.

(** [self._render], as the methods call it on the children. *)
Variable render : Element -> Parent -> HtmlParser -> Result.

(** The loop [for child in elem] of [_process_contents]. *)
Fixpoint contents_loop (has_text : bool) (cs : list Element)
    (parent : Parent) (self : HtmlParser) : Result :=
  match cs with
  | [] => Ok parent self
  | child :: rest =>
      match render child parent self with
      | Ok parent self =>
          let parent :=
            if has_text then _append_text (tail child) parent self else parent in
          contents_loop has_text rest parent self
      | Raise e parent self => Raise e parent self
      end
  end.

Definition _process_contents (elem : Element) (parent : Parent) (self : HtmlParser)
    : Result :=
  if negb (elem_has_text false elem) then
    (* has_text = False *)
    strip_at_end (contents_loop false (children elem) parent self)
  else if isinstance_TextBlock parent || isinstance_TableRow parent then
    (* has_text = True *)
    strip_at_end
      (contents_loop true (children elem) (_append_text (text elem) parent self) self)
  else
    (* new_parent = Paragraph(); parent.append(new_parent); parent = new_parent *)
    let new_parent := new Paragraph in
    appended_to parent new_parent
      (strip_at_end
         (contents_loop true (children elem)
            (_append_text (text elem) (PBlock new_parent) self) self)).

(** The loop of [_process_list].  [item] is [None] while [list_parent] is
    [parent] itself, and the most recent list item afterwards: that block
    has been appended to [parent] already and is still being filled, so it
    is kept apart and put at its place in [parent] when the next item is
    appended or the loop ends. *)
Fixpoint list_loop (kind : TextKind) (cs : list Element) (parent : Parent)
    (item : option Block) (self : HtmlParser) : Result :=
  match cs with
  | [] =>
      match item with
      | None => Ok parent self
      | Some it => let '(p, s) := append parent it self in Ok p s
      end
  | child :: rest =>
      if String.eqb (tag child) "li" then
        let '(parent, self) :=
          match item with
          | None => (parent, self)
          | Some it => append parent it self
          end in
        (* list_parent = kind(); self._render(child, parent=list_parent);
           parent.append(list_parent) *)
        let list_parent := new kind in
        match render child (PBlock list_parent) self with
        | Ok it self => list_loop kind rest parent (Some (as_block list_parent it)) self
        | Raise e _ self => Raise e parent self
        end
      else
        (* self._render(child, list_parent) *)
        match item with
        | None =>
            match render child parent self with
            | Ok parent self => list_loop kind rest parent None self
            | Raise e parent self => Raise e parent self
            end
        | Some it =>
            match render child (PBlock it) self with
            | Ok it' self => list_loop kind rest parent (Some (as_block it it')) self
            | Raise e it' self =>
                let '(p, s) := append parent (as_block it it') self in Raise e p s
            end
        end
  end.

Definition _process_list (elem : Element) (parent : Parent) (kind : TextKind)
    (self : HtmlParser) : Result :=
  list_loop kind (children elem) parent None self.

(** The loop [for td in elem.findall("td")] of [_render_tr]: the direct
    children whose tag is [td], in document order. *)
Fixpoint findall_td_loop (cs : list Element) (row : Parent) (self : HtmlParser)
    : Result :=
  match cs with
  | [] => Ok row self
  | c :: rest =>
      if String.eqb (tag c) "td" then
        match render c row self with
        | Ok row self => findall_td_loop rest row self
        | Raise e row self => Raise e row self
        end
      else findall_td_loop rest row self
  end.

Definition _render_a (elem : Element) (parent : Parent) (self : HtmlParser) : Result :=
  let self := set_current_href (get elem "href") self in
  match _process_contents elem parent self with
  | Ok parent self => Ok parent (set_current_href None self)
  | Raise e parent self => Raise e parent self
  end.

Definition _render_b (elem : Element) (parent : Parent) (self : HtmlParser) : Result :=
  let self := set_style Bold true self in
  match _process_contents elem parent self with
  | Ok parent self => Ok parent (set_style Bold false self)
  | Raise e parent self => Raise e parent self
  end.

Definition _render_base (elem : Element) (parent : Parent) (self : HtmlParser) : Result :=
  match get elem "href" with
  | Some base => Ok parent (set_base_url (Some base) self)
  | None => Ok parent self
  end.

Definition _render_blockquote (elem : Element) (parent : Parent) (self : HtmlParser)
    : Result :=
  let block := new Quote in
  then_append parent block (_process_contents elem (PBlock block) self).

Definition _render_body (elem : Element) (parent : Parent) (self : HtmlParser) : Result :=
  _process_contents elem parent self.

Definition _render_br (elem : Element) (parent : Parent) (self : HtmlParser) : Result :=
  if isinstance_TextBlock parent then Ok (concat_newline parent) self
  else Ok parent self.

Definition _render_code (elem : Element) (parent : Parent) (self : HtmlParser) : Result :=
  let self := set_style CodeStyle true self in
  match _process_contents elem parent self with
  | Ok parent self => Ok parent (set_style CodeStyle false self)
  | Raise e parent self => Raise e parent self
  end.

Definition _render_dd (elem : Element) (parent : Parent) (self : HtmlParser) : Result :=
  _process_contents elem parent self.

Definition _render_del (elem : Element) (parent : Parent) (self : HtmlParser) : Result :=
  let self := set_style Strikethrough true self in
  match _process_contents elem parent self with
  | Ok parent self => Ok parent (set_style Strikethrough false self)
  | Raise e parent self => Raise e parent self
  end.

Definition _render_div (elem : Element) (parent : Parent) (self : HtmlParser) : Result :=
  _process_contents elem parent self.

Definition _render_dl (elem : Element) (parent : Parent) (self : HtmlParser) : Result :=
  let dl := new Paragraph in
  then_append parent dl (_process_contents elem (PBlock dl) self).

Definition _render_dt (elem : Element) (parent : Parent) (self : HtmlParser) : Result :=
  _process_contents elem parent self.

Definition _render_i (elem : Element) (parent : Parent) (self : HtmlParser) : Result :=
  let self := set_style Italic true self in
  match _process_contents elem parent self with
  | Ok parent self => Ok parent (set_style Italic false self)
  | Raise e parent self => Raise e parent self
  end.

Definition _render_em (elem : Element) (parent : Parent) (self : HtmlParser) : Result :=
  _render_i elem parent self.

Definition _render_h1 (elem : Element) (parent : Parent) (self : HtmlParser) : Result :=
  let h1 := new Heading1 in
  then_append parent h1 (_process_contents elem (PBlock h1) self).

Definition _render_h2 (elem : Element) (parent : Parent) (self : HtmlParser) : Result :=
  let h2 := new Heading2 in
  then_append parent h2 (_process_contents elem (PBlock h2) self).

Definition _render_h3 (elem : Element) (parent : Parent) (self : HtmlParser) : Result :=
  let h3 := new Heading3 in
  then_append parent h3 (_process_contents elem (PBlock h3) self).

Definition _render_h4 (elem : Element) (parent : Parent) (self : HtmlParser) : Result :=
  _render_h3 elem parent self.

Definition _render_h5 (elem : Element) (parent : Parent) (self : HtmlParser) : Result :=
  _render_h3 elem parent self.

Definition _render_h6 (elem : Element) (parent : Parent) (self : HtmlParser) : Result :=
  _render_h3 elem parent self.

Definition _render_head (elem : Element) (parent : Parent) (self : HtmlParser) : Result :=
  _process_contents elem parent self.

Definition _render_hgroup (elem : Element) (parent : Parent) (self : HtmlParser)
    : Result :=
  _process_contents elem parent self.

Definition _render_hr (elem : Element) (parent : Parent) (self : HtmlParser) : Result :=
  let '(p, s) := append parent Divider self in Ok p s.

Definition _render_html (elem : Element) (parent : Parent) (self : HtmlParser) : Result :=
  _process_contents elem parent self.

Definition _render_iframe (elem : Element) (parent : Parent) (self : HtmlParser)
    : Result :=
  match get elem "src" with
  | Some src => let '(p, s) := append parent (Embed src) self in Ok p s
  | None => Ok parent self
  end.

Definition _render_img (elem : Element) (parent : Parent) (self : HtmlParser) : Result :=
  match get elem "src" with
  | Some src => let '(p, s) := append parent (Image src) self in Ok p s
  | None => Ok parent self
  end.

Definition _render_u (elem : Element) (parent : Parent) (self : HtmlParser) : Result :=
  let self := set_style Underline true self in
  match _process_contents elem parent self with
  | Ok parent self => Ok parent (set_style Underline false self)
  | Raise e parent self => Raise e parent self
  end.

Definition _render_ins (elem : Element) (parent : Parent) (self : HtmlParser) : Result :=
  _render_u elem parent self.

Definition _render_kbd (elem : Element) (parent : Parent) (self : HtmlParser) : Result :=
  _render_code elem parent self.

Definition _render_li (elem : Element) (parent : Parent) (self : HtmlParser) : Result :=
  _process_contents elem parent self.

Definition _render_ul (elem : Element) (parent : Parent) (self : HtmlParser) : Result :=
  _process_list elem parent BulletedListItem self.

Definition _render_menu (elem : Element) (parent : Parent) (self : HtmlParser) : Result :=
  _render_ul elem parent self.

Definition _render_meta (elem : Element) (parent : Parent) (self : HtmlParser) : Result :=
  let name := get elem "name" in
  let value := get elem "content" in
  match name, value with
  | Some n, Some v =>
      if Py.truthy name && Py.truthy value
      then Ok parent (set_meta (<[n := v]> (meta self)) self)
      else Ok parent self
  | _, _ => Ok parent self
  end.

Definition _render_object (elem : Element) (parent : Parent) (self : HtmlParser)
    : Result :=
  _process_contents elem parent self.

Definition _render_ol (elem : Element) (parent : Parent) (self : HtmlParser) : Result :=
  _process_list elem parent NumberedListItem self.

Definition _render_p (elem : Element) (parent : Parent) (self : HtmlParser) : Result :=
  let para := new Paragraph in
  then_append parent para (_process_contents elem (PBlock para) self).

Definition _render_pre (elem : Element) (parent : Parent) (self : HtmlParser) : Result :=
  let block := new Code in
  then_append parent block (_process_contents elem (PBlock block) self).

(** [self._render_del(self, elem, parent)]: the bound method receives four
    positional arguments and takes three, so the call itself raises. *)
Definition _render_s (elem : Element) (parent : Parent) (self : HtmlParser) : Result :=
  Raise (TooManyArguments "_render_del") parent self.

Definition _render_samp (elem : Element) (parent : Parent) (self : HtmlParser) : Result :=
  _render_code elem parent self.

Definition _render_span (elem : Element) (parent : Parent) (self : HtmlParser) : Result :=
  _process_contents elem parent self.

Definition _render_strike (elem : Element) (parent : Parent) (self : HtmlParser)
    : Result :=
  _render_del elem parent self.

Definition _render_strong (elem : Element) (parent : Parent) (self : HtmlParser)
    : Result :=
  _render_b elem parent self.

Definition _render_table (elem : Element) (parent : Parent) (self : HtmlParser)
    : Result :=
  let table := Table false [] in
  match _process_contents elem (PBlock table) self with
  | Ok t self =>
      let table := as_block table t in
      if (0 <? Width table)%nat
      then let '(p, s) := append parent table self in Ok p s
      else Ok parent self
  | Raise e _ self => Raise e parent self
  end.

Definition _render_tbody (elem : Element) (parent : Parent) (self : HtmlParser) : Result :=
  _process_contents elem parent self.

Definition _render_td (elem : Element) (parent : Parent) (self : HtmlParser) : Result :=
  if negb (isinstance_TableRow parent) then Raise (InvalidParent "td" elem parent) parent self
  else if elem_has_text true elem then _process_contents elem parent self
  else Ok (_append_text (Some "") parent self) self.

Definition _render_tfoot (elem : Element) (parent : Parent) (self : HtmlParser) : Result :=
  _process_contents elem parent self.

Definition _render_th (elem : Element) (parent : Parent) (self : HtmlParser) : Result :=
  _render_td elem parent self.

Definition _render_thead (elem : Element) (parent : Parent) (self : HtmlParser) : Result :=
  if negb (isinstance_Table parent) then Raise (InvalidParent "thead" elem parent) parent self
  else _process_contents elem (set_has_column_header parent) self.

Definition _render_title (elem : Element) (parent : Parent) (self : HtmlParser) : Result :=
  Ok parent (set_title (gather_text elem) self).

Definition _render_tr (elem : Element) (parent : Parent) (self : HtmlParser) : Result :=
  if negb (isinstance_Table parent) then Raise (InvalidParent "tr" elem parent) parent self
  else
    let row := TableRow [] in
    then_append parent row (findall_td_loop (children elem) (PBlock row) self).

Definition _render_tt (elem : Element) (parent : Parent) (self : HtmlParser) : Result :=
  _render_pre elem parent self.

Definition _render_var (elem : Element) (parent : Parent) (self : HtmlParser) : Result :=
  _render_code elem parent self.

(** [pfunc(elem, parent)] for the handler found by [getattr]. *)
Definition call (pfunc : Handler) : Element -> Parent -> HtmlParser -> Result :=
  match pfunc with
  | h_a => _render_a | h_b => _render_b | h_base => _render_base
  | h_blockquote => _render_blockquote | h_body => _render_body
  | h_br => _render_br | h_code => _render_code | h_dd => _render_dd
  | h_del => _render_del | h_div => _render_div | h_dl => _render_dl
  | h_dt => _render_dt | h_em => _render_em | h_h1 => _render_h1
  | h_h2 => _render_h2 | h_h3 => _render_h3 | h_h4 => _render_h4
  | h_h5 => _render_h5 | h_h6 => _render_h6 | h_head => _render_head
  | h_hgroup => _render_hgroup | h_hr => _render_hr | h_html => _render_html
  | h_i => _render_i | h_iframe => _render_iframe | h_img => _render_img
  | h_ins => _render_ins | h_kbd => _render_kbd | h_li => _render_li
  | h_menu => _render_menu | h_meta => _render_meta | h_object => _render_object
  | h_ol => _render_ol | h_p => _render_p | h_pre => _render_pre
  | h_s => _render_s | h_samp => _render_samp | h_span => _render_span
  | h_strike => _render_strike | h_strong => _render_strong
  | h_table => _render_table | h_tbody => _render_tbody | h_td => _render_td
  | h_tfoot => _render_tfoot | h_th => _render_th | h_thead => _render_thead
  | h_title => _render_title | h_tr => _render_tr | h_tt => _render_tt
  | h_u => _render_u | h_ul => _render_ul | h_var => _render_var
  end.

(** The body of [HtmlParser._render(self, elem, parent)]. *)
Definition render_body (elem : Element) (parent : Parent) (self : HtmlParser) : Result :=
  match getattr_render (tag elem) with
  | Some pfunc => call pfunc elem parent self
  | None => Ok parent self
  end.

End Methods.

(** [HtmlParser._render]: the methods above, called on themselves. *)
Fixpoint _render (elem : Element) : Parent -> HtmlParser -> Result :=
  render_body _render elem.

(** The outcome of a call of [parse]: the parser after a normal return, or
    the exception with the parser as the exception left it. *)
Inductive Outcome : Type :=
  | Returned (self : HtmlParser)
  | Raised (exn : Exn) (self : HtmlParser).

(** [DocumentParser.parse(self, data)]: [name] is [data.name] when [data]
    has that attribute. *)
Definition DocumentParser_parse (name : option string) (self : HtmlParser) : HtmlParser :=
  match name with
  | Some n => set_title (Some (Py.basename n)) self
  | None => self
  end.

(** [HtmlParser.parse(self, data)].  [doc] is the tree [html5lib.parse]
    builds from [data] (the tree builder is an external collaborator). *)
Definition parse (name : option string) (doc : Element) (self : HtmlParser) : Outcome :=
  (* super().parse(data) *)
  let self := DocumentParser_parse name self in
  (* self._render(doc): parent is None, so parent = self.content *)
  match _render doc PContent self with
  | Ok _ self => Returned self
  | Raise e _ self => Raised e self
  end.

(** ** Sample documents *)

Module Sample.

(** An element without attributes. *)
Definition el (tag : string) (text tail : option string) (children : list Element)
    : Element :=
  Elem tag ∅ text tail children.

(** The tree html5lib builds around the given body. *)
Definition html (body : list Element) : Element :=
  el "html" None None [el "head" None None []; el "body" None None body].

Definition plain : Annotations := Annotations_new.

Definition run (s : string) (style : Annotations) : TextObject :=
  mkTextObject s None style.

(** <p><b>X<b>Y</b>Z</b></p> *)
Definition nested_bold : Element :=
  html [el "p" None None
          [el "b" (Some "X") None [el "b" (Some "Y") (Some "Z") []]]].

(** <p>A</p> *)
Definition one_paragraph : Element := html [el "p" (Some "A") None []].

(** <foo>hello</foo> *)
Definition unknown_tag : Element := el "foo" (Some "hello") None [].

(** <p>a<s>x</s></p> *)
Definition struck : Element :=
  html [el "p" (Some "a") None [el "s" (Some "x") None []]].

(** <table><tr><td>A</td><td></td></tr></table> *)
Definition table_with_empty_cell : Element :=
  html [el "table" None None
          [el "tr" None None [el "td" (Some "A") None []; el "td" None None []]]].

(** <table><tr><th>A</th><th>B</th></tr></table> *)
Definition header_row : Element :=
  el "tr" None None [el "th" (Some "A") None []; el "th" (Some "B") None []].

(** <ul><li>A</li><li>B<ul><li>C</li></ul></li></ul> *)
Definition nested_list : Element :=
  html [el "ul" None None
          [el "li" (Some "A") None [];
           el "li" (Some "B") None
             [el "ul" None None [el "li" (Some "C") None []]]]].

(** <ul><hr/><li>A</li><hr/><li>B</li></ul> *)
Definition loose_list : list Element :=
  [el "hr" None None []; el "li" (Some "A") None [];
   el "hr" None None []; el "li" (Some "B") None []].


(** <div>text<tr></tr></div> *)
Definition stray_row : Element :=
  html [el "div" (Some "text") None [el "tr" None None []]].

End Sample.

(** ** Vocabulary of the statements *)

(** The style handlers of the class that return, with the flag each of them
    sets: [_render_b], [_render_i], [_render_u], [_render_del],
    [_render_code] and the handlers that delegate to them. *)
Definition style_tags : list (string * Flag) :=
  [ ("b", Bold); ("strong", Bold); ("i", Italic); ("em", Italic);
    ("u", Underline); ("ins", Underline);
    ("del", Strikethrough); ("strike", Strikethrough);
    ("code", CodeStyle); ("kbd", CodeStyle); ("samp", CodeStyle); ("var", CodeStyle) ].

(** The run [_append_text] makes of [t] under the current style and link. *)
Definition run_of (t : string) (self : HtmlParser) : TextObject :=
  mkTextObject t (_current_href self) (_current_text_style self).

(** What kind of object a parent is. *)
Inductive PKind : Type :=
  | KContent | KText (k : TextKind) | KTable | KRow | KLeaf.

Definition kind_of (p : Parent) : PKind :=
  match p with
  | PContent => KContent
  | PBlock (TextBlock k _ _) => KText k
  | PBlock (Table _ _) => KTable
  | PBlock (TableRow _) => KRow
  | PBlock _ => KLeaf
  end.

(** A property of the parent and the parser a call ends with, on return and
    on an exception alike. *)
Definition ends_with (Q : Parent -> HtmlParser -> Prop) (r : Result) : Prop :=
  match r with
  | Ok p s => Q p s
  | Raise _ p s => Q p s
  end.

(** The parent is still the object it was, and a call that was handed a
    block has not touched [self.content]. *)
Definition same_object (parent : Parent) (self : HtmlParser)
    (p' : Parent) (self' : HtmlParser) : Prop :=
  kind_of p' = kind_of parent
  /\ (kind_of parent <> KContent -> content self' = content self).

Definition cell_ok (ok : Block -> bool) (c : Cell Block) : bool :=
  match c with
  | CellText _ => true
  | CellBlock b => ok b
  end.

(** No table of width 0 in the block, at any depth. *)
Fixpoint no_empty_table (b : Block) : bool :=
  match b with
  | TextBlock _ _ ch => forallb no_empty_table ch
  | Table h rows => (0 <? Width (Table h rows))%nat && forallb no_empty_table rows
  | TableRow cells => forallb (cell_ok no_empty_table) cells
  | _ => true
  end.

(** The same for what the block holds, the block itself left aside: a table
    that is being built has width 0 until its first cell arrives. *)
Definition inside_ok (b : Block) : bool :=
  match b with
  | TextBlock _ _ ch => forallb no_empty_table ch
  | Table _ rows => forallb no_empty_table rows
  | TableRow cells => forallb (cell_ok no_empty_table) cells
  | _ => true
  end.

Definition tables_ok (p : Parent) (self : HtmlParser) : Prop :=
  forallb no_empty_table (content self) = true
  /\ match p with
     | PContent => True
     | PBlock b => inside_ok b = true
     end.

(** The exception a call ends with, if any. *)
Definition exn_of (r : Result) : option Exn :=
  match r with
  | Ok _ _ => None
  | Raise e _ _ => Some e
  end.

(** [e0] is [e] or an element below it. *)
Inductive subelement : Element -> Element -> Prop :=
  | subelement_refl e : subelement e e
  | subelement_child e c e0 :
      In c (children e) -> subelement e0 c -> subelement e0 e.

(** The three guards: [_render_thead] and [_render_tr] want a [Table],
    [_render_td] (which [_render_th] calls) wants a [TableRow]. *)
Definition misplaced (e : Element) (p : Parent) : Prop :=
  ((tag e = "thead" \/ tag e = "tr") /\ isinstance_Table p = false)
  \/ ((tag e = "td" \/ tag e = "th") /\ isinstance_TableRow p = false).

(** The exception of the guard of [e], raised in the call with parent [p];
    the one for <th> names <td>. *)
Definition structure_error (e : Element) (p : Parent) : Exn :=
  InvalidParent (if String.eqb (tag e) "th" then "td" else tag e) e p.

(** The tag whose handler [h] is: [h] is the method [_render_<handler_tag h>]. *)
Definition handler_tag (h : Handler) : string :=
  match h with
  | h_a => "a" | h_b => "b" | h_base => "base" | h_blockquote => "blockquote"
  | h_body => "body" | h_br => "br" | h_code => "code" | h_dd => "dd"
  | h_del => "del" | h_div => "div" | h_dl => "dl" | h_dt => "dt" | h_em => "em"
  | h_h1 => "h1" | h_h2 => "h2" | h_h3 => "h3" | h_h4 => "h4" | h_h5 => "h5"
  | h_h6 => "h6" | h_head => "head" | h_hgroup => "hgroup" | h_hr => "hr"
  | h_html => "html" | h_i => "i" | h_iframe => "iframe" | h_img => "img"
  | h_ins => "ins" | h_kbd => "kbd" | h_li => "li" | h_menu => "menu"
  | h_meta => "meta" | h_object => "object" | h_ol => "ol" | h_p => "p"
  | h_pre => "pre" | h_s => "s" | h_samp => "samp" | h_span => "span"
  | h_strike => "strike" | h_strong => "strong" | h_table => "table"
  | h_tbody => "tbody" | h_td => "td" | h_tfoot => "tfoot" | h_th => "th"
  | h_thead => "thead" | h_title => "title" | h_tr => "tr" | h_tt => "tt"
  | h_u => "u" | h_ul => "ul" | h_var => "var"
  end.

(** [a] if it is set, [b] otherwise. *)
Definition or_else (a b : option string) : option string :=
  match a with
  | Some _ => a
  | None => b
  end.

(** The parser [self] on top of what an earlier state [D] holds: the blocks
    of [D] come first in the content, and the title, the metadata and the
    base URL of [D] show where [self] has none of its own. *)
Definition carry (D self : HtmlParser) : HtmlParser :=
  mkHtmlParser (or_else (title self) (title D)) (content D ++ content self)
    (meta self ∪ meta D) (or_else (_base_url self) (_base_url D))
    (_current_href self) (_current_text_style self).

Definition on_self (f : HtmlParser -> HtmlParser) (r : Result) : Result :=
  match r with
  | Ok p s => Ok p (f s)
  | Raise e p s => Raise e p (f s)
  end.

(** The style and the link target after a call, against those before it: no
    flag has come on, and the link target is unset or what it was. *)
Definition settled (self self' : HtmlParser) : Prop :=
  (forall f, flag f (_current_text_style self') = true ->
             flag f (_current_text_style self) = true)
  /\ (_current_href self' = None \/ _current_href self' = _current_href self).

Definition returns_settled (self : HtmlParser) (r : Result) : Prop :=
  match r with
  | Ok _ self' => settled self self'
  | Raise _ _ _ => True
  end.

(** Every whitespace character of [s] is a space that follows no other
    whitespace; [after_space] tells that the character before [s] was
    whitespace. *)
Fixpoint single_spaced (after_space : bool) (s : string) : bool :=
  match s with
  | EmptyString => true
  | String c s' =>
      if Py.Py_UNICODE_ISSPACE c
      then Ascii.eqb c " " && negb after_space && single_spaced true s'
      else single_spaced false s'
  end.

(** [s] is empty or begins with a character that is not whitespace. *)
Definition starts_clean (s : string) : bool :=
  match s with
  | EmptyString => true
  | String c _ => negb (Py.Py_UNICODE_ISSPACE c)
  end.

(** ** What the lemmas on the loops assume of [self._render] on a child *)

(** The call hands back the parent it was given. *)
Definition keeps_object (render : Element -> Parent -> HtmlParser -> Result)
    (c : Element) : Prop :=
  forall p s, ends_with (same_object p s) (render c p s).

(** The call appends no table of width 0. *)
Definition keeps_tables (render : Element -> Parent -> HtmlParser -> Result)
    (c : Element) : Prop :=
  forall p s, tables_ok p s -> ends_with tables_ok (render c p s).

(** The call does on top of [D] what it does from scratch. *)
Definition carries (render : Element -> Parent -> HtmlParser -> Result)
    (D : HtmlParser) (c : Element) : Prop :=
  forall p s, render c p (carry D s) = on_self (carry D) (render c p s).

(** The call returns with the style settled. *)
Definition settles (render : Element -> Parent -> HtmlParser -> Result)
    (c : Element) : Prop :=
  forall p s, returns_settled s (render c p s).

(** The exception [x] was raised by the call of [render] on one of [cs]. *)
Definition from_child (render : Element -> Parent -> HtmlParser -> Result)
    (cs : list Element) (x : Exn) : Prop :=
  exists c p0 s0, In c cs /\ exn_of (render c p0 s0) = Some x.

(** Case analysis on the condition of a conditional in the goal. *)
Ltac case_if :=
  match goal with
  | |- context [if ?b then _ else _] => destruct b
  end.

(** * notional.parser: the CSV parser

    Class [CsvParser] of [src/notional/parser.py].  [csv.reader] is an
    external collaborator: the parser is modelled from the rows the reader
    yields, each a list of strings.  A [dict] is a [gmap]. *)

From Stdlib Require Import DecimalString DecimalNat.

Module Csv.

(** The property classes of [notional.schema] that the parser instantiates
    ([schema.Title()], [schema.RichText()]); the classes themselves are not
    part of the sources at hand, a schema entry is the name of its class. *)
Inductive PropertyObject : Type := Title | RichText.

(** [types.Title.from_value(value)] and [types.RichText.from_value(value)]:
    the class with the value that was handed over. *)
Inductive PropertyValue : Type :=
  | Title_from_value (value : string)
  | RichText_from_value (value : string).

Record CsvParser : Type := mkCsvParser {
  title : option string;
  content : list (gmap string PropertyValue);
  _has_header : bool;
  _title_index : Z;
  schema : gmap string PropertyObject;
  _field_names : list string
}.

(** [CsvParser.__init__(self, header_row=True, title_column=0)] *)
Definition __init__ (header_row : bool) (title_column : Z) : CsvParser :=
  mkCsvParser None [] header_row title_column ∅ [].

Definition set_title (v : option string) (self : CsvParser) : CsvParser :=
  mkCsvParser v (content self) (_has_header self) (_title_index self)
    (schema self) (_field_names self).

Definition set_content (v : list (gmap string PropertyValue)) (self : CsvParser)
    : CsvParser :=
  mkCsvParser (title self) v (_has_header self) (_title_index self)
    (schema self) (_field_names self).

(** [self.schema[field] = obj; self._field_names.append(field)] *)
Definition add_field (field : string) (obj : PropertyObject) (self : CsvParser)
    : CsvParser :=
  mkCsvParser (title self) (content self) (_has_header self) (_title_index self)
    (<[field := obj]> (schema self)) (_field_names self ++ [field]).

(** [ValueError(msg)], and the [IndexError] of [fields[column]]. *)
Inductive Exn : Type :=
  | ValueError (msg : string)
  | IndexError.

Inductive Result : Type :=
  | Ok (self : CsvParser)
  | Raise (exn : Exn) (self : CsvParser).

(** [str(num)] for a column number. *)
Definition str (num : nat) : string := NilZero.string_of_uint (Nat.to_uint num).

(** [while field in self._field_names: field = f"{field}_{column}"].  Every
    round makes the name longer, so no name is tried twice and the loop
    ends within [len(self._field_names)] rounds; [rounds] bounds them. *)
Fixpoint rename (rounds : nat) (names : list string) (column : nat) (field : string)
    : string :=
  if bool_decide (field ∈ names) then
    match rounds with
    | O => field
    | S rounds' => rename rounds' names column (field +:+ "_" +:+ str column)
    end
  else field.

(** The loop [for field in fields] of [_build_schema]. *)
Fixpoint schema_loop (fields : list string) (column : nat) (self : CsvParser)
    : CsvParser :=
  match fields with
  | [] => self
  | field :: rest =>
      let field := Py.strip field in
      let field := rename (List.length (_field_names self)) (_field_names self) column field in
      let obj := if (Z.of_nat column =? _title_index self)%Z then Title else RichText in
      schema_loop rest (S column) (add_field field obj self)
  end.

(** [CsvParser._build_schema(self, *fields)] *)
Definition _build_schema (fields : list string) (self : CsvParser) : Result :=
  if (List.length fields <? 1)%nat
  then Raise (ValueError "Invalid CSV: empty header") self
  else Ok (schema_loop fields 0 self).

(** The loop [for col in self._field_names] of [_build_record]; [None] is
    the [IndexError] of [fields[column]]. *)
Fixpoint record_loop (names : list string) (fields : list string) (column : nat)
    (title_index : Z) (record : gmap string PropertyValue)
    : option (gmap string PropertyValue) :=
  match names with
  | [] => Some record
  | col :: rest =>
      match fields !! column with
      | None => None
      | Some value =>
          let v := if (Z.of_nat column =? title_index)%Z
                   then Title_from_value value else RichText_from_value value in
          record_loop rest fields (S column) title_index (<[col := v]> record)
      end
  end.

(** [CsvParser._build_record(self, *fields)] *)
Definition _build_record (fields : list string) (self : CsvParser) : Result :=
  if negb (List.length fields =? List.length (_field_names self))%nat
  then Raise (ValueError "Invalid CSV: incorrect number of fields in data") self
  else
    match record_loop (_field_names self) fields 0 (_title_index self) ∅ with
    | Some record => Ok (set_content (content self ++ [record]) self)
    | None => Raise IndexError self
    end.

(** The loop [for entry in csv] of [_process]. *)
Fixpoint entries_loop (entries : list (list string)) (self : CsvParser) : Result :=
  match entries with
  | [] => Ok self
  | entry :: rest =>
      match _build_record entry self with
      | Ok self => entries_loop rest self
      | Raise e self => Raise e self
      end
  end.

(** [CsvParser._process(self, csv)]; [rows] is what the reader yields. *)
Definition _process (rows : list (list string)) (self : CsvParser) : Result :=
  match rows with
  | [] =>
      (* next(csv) raises StopIteration *)
      Raise (ValueError "Invalid CSV: empty data") self
  | header :: entries =>
      let built :=
        if _has_header self then _build_schema header self
        else
          let cols := str <$> seq 0 (List.length header) in
          match _build_schema cols self with
          | Ok self => _build_record header self
          | Raise e self => Raise e self
          end in
      match built with
      | Ok self => entries_loop entries self
      | Raise e self => Raise e self
      end
  end.

(** [CsvParser.parse(self, data)]: [name] is [data.name] when [data] has that
    attribute, [rows] what [csv.reader(data)] yields. *)
Definition parse (name : option string) (rows : list (list string)) (self : CsvParser)
    : Result :=
  (* super().parse(data) *)
  let self :=
    match name with
    | Some n => set_title (Some (Py.basename n)) self
    | None => self
    end in
  _process rows self.

End Csv.

(** ** Vocabulary of the statements on the CSV parser *)

(** The class of column [j] when the title column is [title_index]. *)
Definition column_class (title_index : Z) (j : nat) : Csv.PropertyObject :=
  if (Z.of_nat j =? title_index)%Z then Csv.Title else Csv.RichText.

(** The value of column [j] in a record. *)
Definition column_value (title_index : Z) (j : nat) (value : string)
    : Csv.PropertyValue :=
  if (Z.of_nat j =? title_index)%Z
  then Csv.Title_from_value value else Csv.RichText_from_value value.

(** The field names are pairwise distinct, and the schema has exactly them
    as keys, each with the class of its column. *)
Definition schema_built (self : Csv.CsvParser) : Prop :=
  NoDup (Csv._field_names self)
  /\ (forall j name, Csv._field_names self !! j = Some name ->
        Csv.schema self !! name = Some (column_class (Csv._title_index self) j))
  /\ (forall name, is_Some (Csv.schema self !! name) -> name ∈ Csv._field_names self).

(** [record] is the row [fields] under the field names [names]. *)
Definition record_of (title_index : Z) (names fields : list string)
    (record : gmap string Csv.PropertyValue) : Prop :=
  (forall j name, names !! j = Some name ->
     exists value, fields !! j = Some value
                   /\ record !! name = Some (column_value title_index j value))
  /\ (forall name, is_Some (record !! name) -> name ∈ names).

(** No character of [s] is whitespace. *)
Fixpoint no_space (s : string) : bool :=
  match s with
  | EmptyString => true
  | String c s' => negb (Py.Py_UNICODE_ISSPACE c) && no_space s'
  end.

(** * More vocabulary for the HTML parser *)

(** The parser with nothing in it but its style and its link target. *)
Definition blank (self : HtmlParser) : HtmlParser :=
  mkHtmlParser None [] ∅ None (_current_href self) (_current_text_style self).

(** The outcome of a parse, on top of the earlier state [D]. *)
Definition carry_outcome (D : HtmlParser) (o : Outcome) : Outcome :=
  match o with
  | Returned self => Returned (carry D self)
  | Raised e self => Raised e (carry D self)
  end.

(** The handlers that make a text block of their own, with its class:
    [_render_p], [_render_dl], [_render_h1] to [_render_h3],
    [_render_blockquote], [_render_pre] and the handlers that delegate to
    them. *)
Definition block_tags : list (string * TextKind) :=
  [ ("p", Paragraph); ("dl", Paragraph); ("h1", Heading1); ("h2", Heading2);
    ("h3", Heading3); ("h4", Heading3); ("h5", Heading3); ("h6", Heading3);
    ("blockquote", Quote); ("pre", Code); ("tt", Code) ].

(** The parser a call of [parse] leaves behind. *)
Definition parser_of (o : Outcome) : HtmlParser :=
  match o with
  | Returned self => self
  | Raised _ self => self
  end.

(** No element of the tree has a tag of [tags]. *)
Fixpoint free_of (tags : list string) (e : Element) : bool :=
  match e with
  | Elem t _ _ _ cs => negb (existsb (String.eqb t) tags) && forallb (free_of tags) cs
  end.

(** The handlers that do nothing but [self._process_contents(elem, parent)]. *)
Definition plain_tags : list string :=
  [ "body"; "dd"; "div"; "dt"; "head"; "hgroup"; "html"; "li"; "object"; "span";
    "tbody"; "tfoot" ].

(** What a call that may append one block leaves: [parent] and the parser
    [self] with one block of class [kind] appended to [parent], the content
    being otherwise what it was. *)
Definition one_more (kind : TextKind) (parent : Parent) (self : HtmlParser)
    (p' : Parent) (self' : HtmlParser) : Prop :=
  exists rich_text nested self1,
    content self1 = content self
    /\ (p', self') = append parent (TextBlock kind rich_text nested) self1.

(** The same for a call that appends nothing. *)
Definition nothing_more (parent : Parent) (self : HtmlParser)
    (p' : Parent) (self' : HtmlParser) : Prop :=
  p' = parent /\ content self' = content self.

(** [p'] is [p] with more appended to it: the child blocks of a text block,
    the rows of a table and the cells of a row are those of [p], in their
    order, followed by new ones; the class of a text block is the same and
    the header flag of a table is still set if it was.  The runs of a text
    block are left open: they are trimmed in place. *)
Definition grows (p p' : Parent) : Prop :=
  match p with
  | PContent => p' = PContent
  | PBlock (TextBlock k _ ch) =>
      exists rich_text more, p' = PBlock (TextBlock k rich_text (ch ++ more))
  | PBlock (Table h rows) =>
      exists h' more, p' = PBlock (Table h' (rows ++ more)) /\ (h = true -> h' = true)
  | PBlock (TableRow cells) => exists more, p' = PBlock (TableRow (cells ++ more))
  | PBlock b => p' = PBlock b
  end.

Definition grows_to (p p' : Parent) (self' : HtmlParser) : Prop := grows p p'.

(** The call only appends to its parent. *)
Definition keeps_growing (render : Element -> Parent -> HtmlParser -> Result)
    (c : Element) : Prop :=
  forall p s, ends_with (grows_to p) (render c p s).

(** The cell [_append_text(text, row)] appends to a row: the text condensed,
    under the current style and link. *)
Definition piece (self : HtmlParser) (text : option string) : Cell Block :=
  CellText (TextObject_from_value (condense_text text)
              (_current_href self) (_current_text_style self)).

(** The first and the last run of a text are trimmed on the outside. *)
Definition trimmed (rich_text : list TextObject) : Prop :=
  (forall o, head rich_text = Some o -> starts_clean (plain_text o) = true)
  /\ (forall o, last rich_text = Some o -> Py.rstrip (plain_text o) = plain_text o).

(** The title, the metadata and the base URL are what they were. *)
Definition same_head (self self' : HtmlParser) : Prop :=
  title self' = title self /\ meta self' = meta self
  /\ _base_url self' = _base_url self.

Definition head_kept (self : HtmlParser) (p' : Parent) (self' : HtmlParser) : Prop :=
  same_head self self'.

(** The tags whose handlers write the title, the metadata or the base URL. *)
Definition head_tags : list string := ["title"; "meta"; "base"].

(** On a tree without these tags the call leaves the three alone. *)
Definition keeps_head (render : Element -> Parent -> HtmlParser -> Result)
    (c : Element) : Prop :=
  free_of head_tags c = true -> forall p s, ends_with (head_kept s) (render c p s).

(** * Vocabulary for rows and for code blocks *)

(** Each element of [cs] is rendered, in order, with [parent] as parent;
    the first exception ends the visit.  This is the visit of the direct
    <td> children as the specification words it, to be compared with the
    loop of [_render_tr]. *)
Fixpoint visit_each (render : Element -> Parent -> HtmlParser -> Result)
    (cs : list Element) (parent : Parent) (self : HtmlParser) : Result :=
  match cs with
  | [] => Ok parent self
  | c :: rest =>
      match render c parent self with
      | Ok parent self => visit_each render rest parent self
      | Raise e parent self => Raise e parent self
      end
  end.

(** The cell of a <td> without children: its direct text, condensed, when
    that is visible, and the empty run otherwise. *)
Definition simple_cell (self : HtmlParser) (c : Element) : Cell Block :=
  if visible (text c) then piece self (text c)
  else CellText (Some (run_of "" self)).






(** * Properties *)

Lemma _render_eq (elem : Element) : _render elem = render_body _render elem.
Proof. destruct elem; reflexivity. Qed.

Lemma render_handler elem h parent self :
  getattr_render (tag elem) = Some h ->
  _render elem parent self = call _render h elem parent self.
Proof. intros H. rewrite _render_eq. unfold render_body. now rewrite H. Qed.

Lemma render_no_handler elem parent self :
  getattr_render (tag elem) = None ->
  _render elem parent self = Ok parent self.
Proof. intros H. rewrite _render_eq. unfold render_body. now rewrite H. Qed.

(** The loop of [_render_tr] is the loop over [elem.findall("td")]. *)
Lemma findall_td_loop_filter render cs row self :
  findall_td_loop render cs row self
  = findall_td_loop render (filter (fun c => tag c = "td") cs) row self.
Proof.
  revert row self. induction cs as [|c cs IH]; intros row self; [reflexivity|].
  rewrite filter_cons. simpl. destruct (String.eqb_spec (tag c) "td") as [Heq|Hne].
  - rewrite decide_True by exact Heq. simpl. rewrite Heq. simpl.
    destruct (render c row self); [apply IH|reflexivity].
  - rewrite decide_False by exact Hne. apply IH.
Qed.

Lemma findall_td_loop_none render cs row self :
  Forall (fun c => tag c <> "td") cs ->
  findall_td_loop render cs row self = Ok row self.
Proof.
  induction 1 as [|c cs Hc _ IH]; [reflexivity|]. simpl.
  destruct (String.eqb_spec (tag c) "td"); [contradiction|exact IH].
Qed.


Lemma append_empty_r (s : string) : s +:+ "" = s.
Proof.
  induction s as [|c s IH]; [reflexivity|].
  change (String c (s +:+ "") = String c s). now rewrite IH.
Qed.

(** ** Unknown tags *)

(** C1, as the specification states it, fails: the default action of an
    element without handler is not [_process_contents].  The direct text of
    <foo>hello</foo> would become a paragraph; [_render] leaves the content
    empty. *)
Lemma unknown_tag_not_transparent :
  getattr_render (tag Sample.unknown_tag) = None
  /\ _render Sample.unknown_tag PContent (HtmlParser_init None)
     = Ok PContent (HtmlParser_init None)
  /\ _process_contents _render Sample.unknown_tag PContent (HtmlParser_init None)
     = Ok PContent
         (set_content [TextBlock Paragraph [Sample.run "hello" Sample.plain] []]
            (HtmlParser_init None))
  /\ ~ (forall elem parent self,
          getattr_render (tag elem) = None ->
          _render elem parent self = _process_contents _render elem parent self).
Proof.
  split; [reflexivity|]. split; [reflexivity|]. split; [reflexivity|].
  intros H.
  specialize (H Sample.unknown_tag PContent (HtmlParser_init None) eq_refl).
  vm_compute in H. discriminate H.
Qed.

(** C1 (amended): the call of [_render] on an element whose tag has no
    handler raises nothing and returns with the parent and the parser as
    they were: nothing is appended and no state changes.  The loop of the
    enclosing [_process_contents] still appends the tail of the element when
    that loop handles text.  The text inside the element is not rendered,
    but the helpers that look at a whole subtree still read it: the title
    that the handler of <title> gathers includes the text of the element,
    and a <td> or <th> that holds nothing but the element appends no cell at
    all when the element has text inside, and the empty cell when it has
    none. *)
Theorem unknown_tag_is_skipped (elem : Element) (parent : Parent) (self : HtmlParser) :
  getattr_render (tag elem) = None ->
  _render elem parent self = Ok parent self
  /\ (forall has_text rest,
        contents_loop _render has_text (elem :: rest) parent self
        = contents_loop _render has_text rest
            (if has_text then _append_text (tail elem) parent self else parent) self)
  /\ (forall a tx tl,
        _render (Elem "title" a tx tl [elem]) parent self
        = Ok parent
            (set_title
               (normalize_text
                  (Some (default "" tx +:+ itertext elem +:+ default "" (tail elem))))
               self))
  /\ (forall tg a tl cells,
        tg = "td" \/ tg = "th" ->
        visible (tail elem) = false ->
        _render (Elem tg a None tl [elem]) (PBlock (TableRow cells)) self
        = Ok (PBlock (TableRow
                (if elem_has_text true elem then cells
                 else cells ++ [CellText (Some (run_of "" self))])))
            self).
Proof.
  intros H. pose proof (render_no_handler elem) as Hr.
  split; [exact (Hr parent self H)|]. split; [|split].
  - intros has_text rest. simpl. now rewrite (Hr parent self H).
  - intros a tx tl. rewrite _render_eq.
    change (render_body _render (Elem "title" a tx tl [elem]) parent self)
      with (Ok parent (set_title (gather_text (Elem "title" a tx tl [elem])) self)).
    unfold gather_text. cbn [itertext]. now rewrite append_empty_r.
  - intros tg a tl cells Htg Htl.
    assert (Htd : _render (Elem tg a None tl [elem]) (PBlock (TableRow cells)) self
                  = _render_td _render (Elem tg a None tl [elem])
                      (PBlock (TableRow cells)) self).
    { rewrite _render_eq. destruct Htg as [-> | ->]; reflexivity. }
    rewrite Htd. unfold _render_td, _process_contents.
    cbn [elem_has_text isinstance_TableRow negb visible orb andb children].
    rewrite Htl. cbn [orb negb contents_loop].
    destruct (elem_has_text true elem); [|reflexivity].
    cbn [orb negb]. now rewrite (Hr _ self H).
Qed.

Lemma unknown_tag_is_skipped_witness :
  _render Sample.unknown_tag PContent (HtmlParser_init None)
  = Ok PContent (HtmlParser_init None)
  /\ _render (Sample.el "td" None None [Sample.unknown_tag]) (PBlock (TableRow []))
       (HtmlParser_init None)
     = Ok (PBlock (TableRow [])) (HtmlParser_init None).
Proof.
  split.
  - exact (proj1 (unknown_tag_is_skipped Sample.unknown_tag PContent
                    (HtmlParser_init None) eq_refl)).
  - exact (proj2 (proj2 (proj2 (unknown_tag_is_skipped Sample.unknown_tag
                                   (PBlock (TableRow [])) (HtmlParser_init None) eq_refl)))
             "td" ∅ None [] (or_introl eq_refl) eq_refl).
Defined.

(** ** Style tags *)

Lemma style_tag_cases (P : string -> Flag -> Prop) :
  P "b" Bold -> P "strong" Bold -> P "i" Italic -> P "em" Italic ->
  P "u" Underline -> P "ins" Underline ->
  P "del" Strikethrough -> P "strike" Strikethrough ->
  P "code" CodeStyle -> P "kbd" CodeStyle -> P "samp" CodeStyle -> P "var" CodeStyle ->
  forall tg f, In (tg, f) style_tags -> P tg f.
Proof.
  intros ? ? ? ? ? ? ? ? ? ? ? ? tg f Hin. unfold style_tags in Hin. simpl in Hin.
  repeat (destruct Hin as [Hin|Hin]; [injection Hin as <- <-; assumption|]).
  destruct Hin.
Qed.

Lemma flag_set_flag f v a : flag f (set_flag f v a) = v.
Proof. destruct f; reflexivity. Qed.

(** C2, as the specification states it, fails: the flag is not restored to
    its prior value.  A <b> rendered while bold is already set returns with
    bold cleared, so in <p><b>X<b>Y</b>Z</b></p> the run Z is not bold. *)
Lemma style_flag_not_restored :
  (let self := set_style Bold true (HtmlParser_init None) in
   exists self',
     _render (Sample.el "b" (Some "Y") None []) (PBlock (new Paragraph)) self
     = Ok (PBlock (TextBlock Paragraph [Sample.run "Y" (set_flag Bold true Sample.plain)] []))
          self'
     /\ flag Bold (_current_text_style self) = true
     /\ flag Bold (_current_text_style self') = false)
  /\ parse None Sample.nested_bold (HtmlParser_init None)
     = Returned
         (set_content
            [TextBlock Paragraph
               [Sample.run "X" (set_flag Bold true Sample.plain);
                Sample.run "Y" (set_flag Bold true Sample.plain);
                Sample.run "Z" Sample.plain] []]
            (HtmlParser_init None))
  /\ ~ (forall a tx tl cs parent self p' self',
          _render (Elem "b" a tx tl cs) parent self = Ok p' self' ->
          flag Bold (_current_text_style self') = flag Bold (_current_text_style self)).
Proof.
  split; [|split; [reflexivity|]].
  - eexists. split; [reflexivity|]. split; reflexivity.
  - intros H.
    specialize (H ∅ (Some "Y") None [] (PBlock (new Paragraph))
                  (set_style Bold true (HtmlParser_init None)) _ _ eq_refl).
    discriminate H.
Qed.

(** C2 (amended): every style handler other than that of <s> sets its flag,
    processes the contents into the same parent and, when that returns,
    clears the flag whatever its value was before; when it raises, the flag
    stays set.  In <p><b>X<b>Y</b>Z</b></p> the runs X and Y are bold and Z
    is not. *)
Theorem style_flag_cleared_on_exit (tg : string) (f : Flag) :
  In (tg, f) style_tags ->
  forall a tx tl cs parent self,
    let elem := Elem tg a tx tl cs in
    _render elem parent self
    = match _process_contents _render elem parent (set_style f true self) with
      | Ok p s => Ok p (set_style f false s)
      | Raise e p s => Raise e p s
      end
    /\ (forall p' self', _render elem parent self = Ok p' self' ->
          flag f (_current_text_style self') = false).
Proof.
  revert tg f.
  apply (style_tag_cases (fun tg f => forall a tx tl cs parent self,
    let elem := Elem tg a tx tl cs in
    _render elem parent self
    = match _process_contents _render elem parent (set_style f true self) with
      | Ok p s => Ok p (set_style f false s)
      | Raise e p s => Raise e p s
      end
    /\ (forall p' self', _render elem parent self = Ok p' self' ->
          flag f (_current_text_style self') = false)));
    intros a tx tl cs parent self elem;
    (assert (Heq : _render elem parent self
       = match _process_contents _render elem parent (set_style _ true self) with
         | Ok p s => Ok p (set_style _ false s)
         | Raise e p s => Raise e p s
         end) by (rewrite _render_eq; reflexivity));
    (split; [exact Heq|]);
    intros p' self'; rewrite Heq;
    destruct (_process_contents _render elem parent _); intros [= <- <-];
    reflexivity.
Qed.

Lemma style_flag_cleared_on_exit_witness :
  let elem := Sample.el "b" (Some "Y") None [] in
  let self := set_style Bold true (HtmlParser_init None) in
  In ("b", Bold) style_tags
  /\ _render elem (PBlock (new Paragraph)) self
     = match _process_contents _render elem (PBlock (new Paragraph))
               (set_style Bold true self) with
       | Ok p s => Ok p (set_style Bold false s)
       | Raise e p s => Raise e p s
       end.
Proof.
  split; [left; reflexivity|].
  exact (proj1 (style_flag_cleared_on_exit "b" Bold (or_introl eq_refl)
                  ∅ (Some "Y") None [] (PBlock (new Paragraph))
                  (set_style Bold true (HtmlParser_init None)))).
Defined.

(** ** The <s> handler *)

(** C4: the handler of <s> does not reach [_render_del]: the call passes the
    parser twice and raises a [TypeError] before any styling happens, at
    every <s> element, while <strike> does what <del> does. *)
Theorem s_handler_raises :
  (forall a tx tl cs parent self,
     _render (Elem "s" a tx tl cs) parent self
     = Raise (TooManyArguments "_render_del") parent self)
  /\ (forall a tx tl cs parent self,
        _render (Elem "strike" a tx tl cs) parent self
        = _render_del _render (Elem "strike" a tx tl cs) parent self)
  /\ parse None Sample.struck (HtmlParser_init None)
     = Raised (TooManyArguments "_render_del") (HtmlParser_init None).
Proof.
  split; [|split].
  - intros. rewrite _render_eq. reflexivity.
  - intros. rewrite _render_eq. reflexivity.
  - reflexivity.
Qed.

(** ** Table rows and cells *)

(** The loop of [_render_tr] visits the direct <td> children, each with the
    row as it stands, and no other child. *)
Lemma findall_td_loop_visit render cs row self :
  findall_td_loop render cs row self
  = visit_each render (filter (fun c => tag c = "td") cs) row self.
Proof.
  revert row self. induction cs as [|c cs IH]; intros row self; [reflexivity|].
  rewrite filter_cons. cbn [findall_td_loop].
  destruct (String.eqb_spec (tag c) "td") as [Heq|Hne].
  - rewrite decide_True by exact Heq. cbn [visit_each].
    destruct (render c row self) as [p s|e p s]; [apply IH|reflexivity].
  - rewrite decide_False by exact Hne. apply IH.
Qed.

(** A <td> without children, rendered into a row, appends one cell. *)
Lemma render_simple_td c cells self :
  tag c = "td" -> children c = [] ->
  _render c (PBlock (TableRow cells)) self
  = Ok (PBlock (TableRow (cells ++ [simple_cell self c]))) self.
Proof.
  destruct c as [t a tx tl cs]. cbn [tag children]. intros -> ->.
  rewrite _render_eq.
  change (render_body _render (Elem "td" a tx tl []) (PBlock (TableRow cells)) self)
    with (_render_td _render (Elem "td" a tx tl []) (PBlock (TableRow cells)) self).
  unfold _render_td, _process_contents, simple_cell. cbn [elem_has_text text].
  destruct tx as [t|]; [|reflexivity].
  destruct (visible (Some t)); reflexivity.
Qed.

Lemma visit_simple_tds tds self :
  Forall (fun c => tag c = "td" /\ children c = []) tds ->
  forall cells,
    visit_each _render tds (PBlock (TableRow cells)) self
    = Ok (PBlock (TableRow (cells ++ (simple_cell self <$> tds)))) self.
Proof.
  induction 1 as [|c tds [Ht Hc] _ IH]; intros cells; simpl.
  - now rewrite app_nil_r.
  - rewrite (render_simple_td c cells self Ht Hc), IH, <- app_assoc. reflexivity.
Qed.

(** C10: a <tr> visits its direct <td> children, and only them, to make the
    cells.  The handler renders each direct <td> child, in document order,
    with the new row as parent, and then appends the row to the table; no
    other child is rendered, so rendering the row is rendering it with every
    other child removed.  When the <td> children have no children of their
    own, the row has exactly one cell per <td>, in their order, with the text
    of the <td>; a row whose children are all <th> gives a [TableRow]
    without cells, which is still appended to the table. *)
Theorem tr_visits_td_only :
  (forall a tx tl cs h rows self,
     _render (Elem "tr" a tx tl cs) (PBlock (Table h rows)) self
     = _render (Elem "tr" a tx tl (filter (fun c => tag c = "td") cs))
         (PBlock (Table h rows)) self)
  /\ (forall a tx tl cs h rows self,
        Forall (fun c => tag c <> "td") cs ->
        _render (Elem "tr" a tx tl cs) (PBlock (Table h rows)) self
        = Ok (PBlock (Table h (rows ++ [TableRow []]))) self)
  /\ (forall a tx tl cs h rows self,
        _render (Elem "tr" a tx tl cs) (PBlock (Table h rows)) self
        = then_append (PBlock (Table h rows)) (TableRow [])
            (visit_each _render (filter (fun c => tag c = "td") cs)
               (PBlock (TableRow [])) self))
  /\ (forall a tx tl cs h rows self,
        Forall (fun c => tag c = "td" -> children c = []) cs ->
        _render (Elem "tr" a tx tl cs) (PBlock (Table h rows)) self
        = Ok (PBlock (Table h
                (rows ++ [TableRow (simple_cell self
                                      <$> filter (fun c => tag c = "td") cs)])))
            self).
Proof.
  assert (Htr : forall a tx tl cs h rows self,
            _render (Elem "tr" a tx tl cs) (PBlock (Table h rows)) self
            = then_append (PBlock (Table h rows)) (TableRow [])
                (visit_each _render (filter (fun c => tag c = "td") cs)
                   (PBlock (TableRow [])) self)).
  { intros. rewrite _render_eq. unfold render_body. simpl.
    unfold _render_tr. simpl. now rewrite findall_td_loop_visit. }
  split; [|split; [|split]].
  - intros. rewrite !_render_eq. unfold render_body. simpl.
    unfold _render_tr. simpl. now rewrite findall_td_loop_filter.
  - intros a tx tl cs h rows self Hcs. rewrite _render_eq. unfold render_body. simpl.
    unfold _render_tr. simpl. now rewrite findall_td_loop_none.
  - exact Htr.
  - intros a tx tl cs h rows self Hcs. rewrite Htr, visit_simple_tds; [reflexivity|].
    apply Forall_forall. intros c Hc. apply list_elem_of_filter in Hc as [Ht Hc].
    split; [exact Ht|]. rewrite Forall_forall in Hcs. now apply Hcs.
Qed.

Lemma tr_visits_td_only_witness :
  _render
    (Sample.el "tr" (Some "x") None
       [Sample.el "th" (Some "H") None []; Sample.el "td" (Some " A ") None [];
        Sample.el "p" (Some "q") None []; Sample.el "td" None None []])
    (PBlock (Table false [])) (HtmlParser_init None)
  = Ok (PBlock (Table false
          [TableRow [CellText (Some (Sample.run " A " Sample.plain));
                     CellText (Some (Sample.run "" Sample.plain))]]))
      (HtmlParser_init None).
Proof.
  refine (proj2 (proj2 (proj2 tr_visits_td_only)) ∅ (Some "x") None
            [Sample.el "th" (Some "H") None []; Sample.el "td" (Some " A ") None [];
             Sample.el "p" (Some "q") None []; Sample.el "td" None None []]
            false [] (HtmlParser_init None) _).
  repeat constructor; intros _; reflexivity.
Defined.

Lemma elem_has_text_false with_children tg a tx tl cs :
  elem_has_text with_children (Elem tg a tx tl cs) = false
  <-> visible tx = false
      /\ Forall (fun c => (with_children && elem_has_text true c = false)
                          /\ visible (tail c) = false) cs.
Proof.
  cbn [elem_has_text]. rewrite orb_false_iff.
  apply and_iff_compat_l.
  induction cs as [|c cs IH]; [split; [constructor|reflexivity]|].
  rewrite Forall_cons, !orb_false_iff, IH. cbv beta. tauto.
Qed.

(** C8: a <td> or <th> without visible text, rendered into a row, appends
    one cell holding the empty run (in the current style) and does nothing
    else.  Without visible text means that [elem_has_text] is false: neither
    the direct text nor, in any descendant, a text or a tail is visible.
    <table><tr><td>A</td><td></td></tr></table> gives one row with the two
    cells "A" and "", so the widths are 2. *)
Theorem empty_cell_is_kept :
  (forall tg a tx tl cs cells self,
     tg = "td" \/ tg = "th" ->
     elem_has_text true (Elem tg a tx tl cs) = false ->
     _render (Elem tg a tx tl cs) (PBlock (TableRow cells)) self
     = Ok (PBlock (TableRow (cells ++ [CellText (Some (run_of "" self))]))) self)
  /\ (forall tg a tx tl cs,
        elem_has_text true (Elem tg a tx tl cs) = false
        <-> visible tx = false
            /\ Forall (fun c => elem_has_text true c = false
                                /\ visible (tail c) = false) cs)
  /\ (let row := TableRow [CellText (Some (Sample.run "A" Sample.plain));
                           CellText (Some (Sample.run "" Sample.plain))] in
      parse None Sample.table_with_empty_cell (HtmlParser_init None)
      = Returned (set_content [Table false [row]] (HtmlParser_init None))
      /\ row_width row = 2 /\ Width (Table false [row]) = 2).
Proof.
  split; [|split].
  - intros tg a tx tl cs cells self Htg Hno.
    assert (Hr : _render (Elem tg a tx tl cs) (PBlock (TableRow cells)) self
                 = _render_td _render (Elem tg a tx tl cs) (PBlock (TableRow cells)) self).
    { rewrite _render_eq. destruct Htg as [-> | ->]; reflexivity. }
    rewrite Hr. unfold _render_td. rewrite Hno. reflexivity.
  - intros tg a tx tl cs. exact (elem_has_text_false true tg a tx tl cs).
  - repeat split; reflexivity.
Qed.

Lemma empty_cell_is_kept_witness :
  elem_has_text true (Sample.el "td" None None []) = false
  /\ _render (Sample.el "td" None None []) (PBlock (TableRow [])) (HtmlParser_init None)
     = Ok (PBlock (TableRow [CellText (Some (Sample.run "" Sample.plain))]))
          (HtmlParser_init None).
Proof.
  split; [reflexivity|].
  exact (proj1 empty_cell_is_kept "td" ∅ None None [] [] (HtmlParser_init None)
           (or_introl eq_refl) eq_refl).
Defined.

(** ** Literal text in code blocks *)


Lemma sub_spaces_single_spaced b s : single_spaced b (Py.sub_spaces b s) = true.
Proof.
  revert b. induction s as [|c s IH]; intros b; [reflexivity|].
  cbn [Py.sub_spaces]. destruct (Py.Py_UNICODE_ISSPACE c) eqn:Hc.
  - destruct b; [apply IH|]. cbn [single_spaced].
    change (Py.Py_UNICODE_ISSPACE " ") with true. cbv iota. now rewrite IH.
  - cbn [single_spaced]. rewrite Hc. apply IH.
Qed.



Lemma lstrip_starts_clean s : starts_clean (Py.lstrip s) = true.
Proof.
  induction s as [|c s IH]; [reflexivity|]. cbn [Py.lstrip].
  destruct (Py.Py_UNICODE_ISSPACE c) eqn:Hc; [exact IH|]. simpl. now rewrite Hc.
Qed.

Lemma rstrip_starts_clean s : starts_clean s = true -> starts_clean (Py.rstrip s) = true.
Proof.
  destruct s as [|c s]; [reflexivity|]. cbn [starts_clean Py.rstrip]. intros Hc.
  destruct (Py.rstrip s); [|exact Hc].
  destruct (Py.Py_UNICODE_ISSPACE c) eqn:E; [discriminate Hc|].
  cbn [starts_clean]. now rewrite E.
Qed.

Lemma lstrip_clean s : starts_clean s = true -> Py.lstrip s = s.
Proof.
  destruct s as [|c s]; [reflexivity|]. cbn [starts_clean Py.lstrip]. intros Hc.
  apply negb_true_iff in Hc. now rewrite Hc.
Qed.

Lemma rstrip_rstrip s : Py.rstrip (Py.rstrip s) = Py.rstrip s.
Proof.
  induction s as [|c s IH]; [reflexivity|]. cbn [Py.rstrip].
  destruct (Py.rstrip s) as [|c' r] eqn:Hr.
  - destruct (Py.Py_UNICODE_ISSPACE c) eqn:Hc; [reflexivity|].
    cbn [Py.rstrip]. now rewrite Hc.
  - cbn [Py.rstrip] in *. now rewrite IH.
Qed.


(** ** What reaches a code block *)












(** ** A parent stays the object it is *)

Lemma ends_with_impl (Q Q' : Parent -> HtmlParser -> Prop) r :
  (forall p s, Q p s -> Q' p s) -> ends_with Q r -> ends_with Q' r.
Proof. destruct r; simpl; auto. Qed.

Lemma kind_of_append_text t p s : kind_of (_append_text t p s) = kind_of p.
Proof.
  unfold _append_text.
  destruct p as [|[k rt ch| | | | |]]; simpl; try reflexivity.
  - destruct (TextObject_from_value _ _ _); reflexivity.
Qed.

Lemma kind_of_strip p : kind_of (strip_text_block p) = kind_of p.
Proof. destruct p as [|[[] rt ch| | | | |]]; reflexivity. Qed.

Lemma kind_of_concat_newline p : kind_of (concat_newline p) = kind_of p.
Proof.
  destruct p as [|[k rt ch| | | | |]]; simpl; try reflexivity.
  destruct (reverse rt); reflexivity.
Qed.

Lemma kind_of_header p : kind_of (set_has_column_header p) = kind_of p.
Proof. destruct p as [|[]]; reflexivity. Qed.

Lemma append_same_object p b s :
  same_object p s (append p b s).1 (append p b s).2.
Proof.
  destruct p as [|[]]; simpl; split; try reflexivity; intros H; try reflexivity.
  now destruct H.
Qed.

Lemma same_object_refl p s : same_object p s p s.
Proof. split; reflexivity. Qed.

Lemma same_object_trans p s p1 s1 p2 s2 :
  same_object p s p1 s1 -> same_object p1 s1 p2 s2 -> same_object p s p2 s2.
Proof.
  intros [Hk Hc] [Hk' Hc']. split; [congruence|].
  intros Hn. rewrite Hc' by congruence. now apply Hc.
Qed.

Lemma same_object_parent p p' s1 s2 :
  kind_of p' = kind_of p -> content s2 = content s1 -> same_object p s1 p' s2.
Proof. intros Hk Hc. split; [exact Hk|now intros _]. Qed.

Lemma kind_of_as_block orig p :
  kind_of p = kind_of (PBlock orig) -> kind_of (PBlock (as_block orig p)) = kind_of (PBlock orig).
Proof. intros H. destruct p; simpl in *; [destruct orig; discriminate|exact H]. Qed.

Lemma as_block_PBlock orig p :
  kind_of p <> KContent -> PBlock (as_block orig p) = p.
Proof. destruct p; simpl; [intros []; reflexivity|reflexivity]. Qed.

Section SameObject.

Variable render : Element -> Parent -> HtmlParser -> Result.

Lemma contents_loop_same_object has_text cs :
  Forall (keeps_object render) cs ->
  forall p s, ends_with (same_object p s) (contents_loop render has_text cs p s).
Proof.
  induction 1 as [|c cs Hc _ IH]; intros p s; simpl; [apply same_object_refl|].
  specialize (Hc p s). destruct (render c p s) as [p1 s1|e p1 s1]; simpl in Hc; [|exact Hc].
  eapply ends_with_impl; [|apply IH]. intros p2 s2 H2.
  eapply same_object_trans; [exact Hc|].
  eapply same_object_trans; [|exact H2].
  apply same_object_parent; [|reflexivity].
  destruct has_text; [apply kind_of_append_text|reflexivity].
Qed.

Lemma strip_at_end_same_object p s r :
  ends_with (same_object p s) r -> ends_with (same_object p s) (strip_at_end r).
Proof.
  destruct r as [p1 s1|e p1 s1]; simpl; [|auto]. intros [Hk Hc]. split; [|exact Hc].
  destruct (isinstance_TextBlock p1); [now rewrite kind_of_strip|exact Hk].
Qed.

Lemma then_append_same_object p s b r :
  ends_with (same_object (PBlock b) s) r ->
  ends_with (same_object p s) (then_append p b r).
Proof.
  destruct r as [p1 s1|e p1 s1]; simpl; intros [Hk Hc].
  - destruct (append p (as_block b p1) s1) as [p2 s2] eqn:Ha.
    pose proof (append_same_object p (as_block b p1) s1) as Hs. rewrite Ha in Hs.
    simpl in *. destruct Hs as [Hk2 Hc2]. split; [exact Hk2|].
    intros Hn. rewrite Hc2 by exact Hn. apply Hc. now destruct b.
  - split; [reflexivity|]. intros _. apply Hc. now destruct b.
Qed.

Lemma appended_to_same_object p s b r :
  ends_with (same_object (PBlock b) s) r ->
  ends_with (same_object p s) (appended_to p b r).
Proof.
  assert (Hb : kind_of (PBlock b) <> KContent) by now destruct b.
  destruct r as [p1 s1|e p1 s1]; simpl; intros [Hk Hc];
    destruct (append p (as_block b p1) s1) as [p2 s2] eqn:Ha;
    pose proof (append_same_object p (as_block b p1) s1) as Hs; rewrite Ha in Hs;
    simpl in *; destruct Hs as [Hk2 Hc2]; (split; [exact Hk2|]);
    intros Hn; rewrite Hc2 by exact Hn; now apply Hc.
Qed.

Lemma process_contents_same_object elem :
  Forall (keeps_object render) (children elem) ->
  forall p s, ends_with (same_object p s) (_process_contents render elem p s).
Proof.
  intros Hcs p s. unfold _process_contents.
  destruct (negb (elem_has_text false elem)).
  - apply strip_at_end_same_object, contents_loop_same_object, Hcs.
  - destruct (isinstance_TextBlock p || isinstance_TableRow p).
    + apply strip_at_end_same_object.
      eapply ends_with_impl; [|apply contents_loop_same_object, Hcs].
      intros p2 s2 H2. eapply same_object_trans; [|exact H2].
      apply same_object_parent; [apply kind_of_append_text|reflexivity].
    + apply appended_to_same_object, strip_at_end_same_object.
      eapply ends_with_impl; [|apply contents_loop_same_object, Hcs].
      intros p2 s2 H2. eapply same_object_trans; [|exact H2].
      apply same_object_parent; [apply kind_of_append_text|reflexivity].
Qed.

Lemma findall_td_loop_same_object cs :
  Forall (keeps_object render) cs ->
  forall p s, ends_with (same_object p s) (findall_td_loop render cs p s).
Proof.
  induction 1 as [|c cs Hc _ IH]; intros p s; simpl; [apply same_object_refl|].
  destruct (String.eqb (tag c) "td"); [|apply IH].
  specialize (Hc p s). destruct (render c p s) as [p1 s1|e p1 s1]; simpl in Hc; [|exact Hc].
  eapply ends_with_impl; [|apply IH]. intros p2 s2 H2.
  eapply same_object_trans; [exact Hc|exact H2].
Qed.

(** The item of [list_loop] is a block that [parent] already holds: with it
    written back, [parent] is what the source sees. *)
Lemma list_loop_same_object kind cs :
  Forall (keeps_object render) cs ->
  forall p item s,
    ends_with (same_object p s) (list_loop render kind cs p item s).
Proof.
  induction 1 as [|c cs Hc _ IH]; intros p item s; simpl.
  - destruct item as [it|]; [|apply same_object_refl].
    pose proof (append_same_object p it s) as Hs.
    destruct (append p it s) as [p2 s2]. exact Hs.
  - destruct (String.eqb (tag c) "li").
    + assert (Hflush : exists p0 s0,
                match item with Some it => append p it s | None => (p, s) end = (p0, s0)
                /\ same_object p s p0 s0).
      { destruct item as [it|].
        - pose proof (append_same_object p it s) as Hs.
          destruct (append p it s) as [p0 s0]. eauto.
        - eexists _, _. split; [reflexivity|apply same_object_refl]. }
      destruct Hflush as (p0 & s0 & -> & H0).
      pose proof (Hc (PBlock (new kind)) s0) as Hli.
      destruct (render c (PBlock (new kind)) s0) as [p1 s1|e p1 s1]; simpl in Hli.
      * eapply ends_with_impl; [|apply IH]. intros p2 s2 H2.
        eapply same_object_trans; [exact H0|].
        eapply same_object_trans; [|exact H2].
        apply same_object_parent; [reflexivity|]. now apply Hli.
      * eapply same_object_trans; [exact H0|].
        apply same_object_parent; [reflexivity|]. now apply Hli.
    + destruct item as [it|].
      * pose proof (Hc (PBlock it) s) as Hit.
        assert (Hb : kind_of (PBlock it) <> KContent) by now destruct it.
        destruct (render c (PBlock it) s) as [p1 s1|e p1 s1]; simpl in Hit.
        -- eapply ends_with_impl; [|apply IH]. intros p2 s2 H2.
           eapply same_object_trans; [|exact H2].
           apply same_object_parent; [reflexivity|]. now apply Hit.
        -- pose proof (append_same_object p (as_block it p1) s1) as Hs.
           destruct (append p (as_block it p1) s1) as [p2 s2]. simpl in *.
           eapply same_object_trans; [|exact Hs].
           apply same_object_parent; [reflexivity|]. now apply Hit.
      * specialize (Hc p s).
        destruct (render c p s) as [p1 s1|e p1 s1]; simpl in Hc; [|exact Hc].
        eapply ends_with_impl; [|apply IH]. intros p2 s2 H2.
        eapply same_object_trans; [exact Hc|exact H2].
Qed.

End SameObject.

Lemma same_object_self_l p s s0 p' s' :
  content s0 = content s -> same_object p s0 p' s' -> same_object p s p' s'.
Proof. intros Hc [Hk H]. split; [exact Hk|]. intros Hn. rewrite <- Hc. now apply H. Qed.

Lemma same_object_self_r p s p' s' s'' :
  content s'' = content s' -> same_object p s p' s' -> same_object p s p' s''.
Proof. intros Hc [Hk H]. split; [exact Hk|]. intros Hn. rewrite Hc. now apply H. Qed.

(** A handler that sets a field of the parser, processes the contents and
    sets the field again when that returns. *)
Lemma bracket_same_object (enter leave : HtmlParser -> HtmlParser) p s r :
  (forall x, content (enter x) = content x) ->
  (forall x, content (leave x) = content x) ->
  ends_with (same_object p (enter s)) r ->
  ends_with (same_object p s)
    match r with
    | Ok p' s' => Ok p' (leave s')
    | Raise e p' s' => Raise e p' s'
    end.
Proof.
  intros He Hl. destruct r as [p1 s1|e p1 s1]; simpl; intros H.
  - eapply same_object_self_r; [apply Hl|]. eapply same_object_self_l; [apply He|exact H].
  - eapply same_object_self_l; [apply He|exact H].
Qed.

Lemma append_ends_same_object p b s :
  ends_with (same_object p s) (let '(p', s') := append p b s in Ok p' s').
Proof.
  pose proof (append_same_object p b s) as H.
  destruct (append p b s) as [p' s']. exact H.
Qed.

Lemma call_same_object render h elem :
  Forall (keeps_object render) (children elem) ->
  forall p s, ends_with (same_object p s) (call render h elem p s).
Proof.
  intros Hcs p s.
  pose proof (process_contents_same_object render elem Hcs) as Hpc.
  pose proof (list_loop_same_object render) as Hll.
  pose proof (findall_td_loop_same_object render (children elem) Hcs) as Htd.
  destruct h; cbn [call];
    unfold _render_em, _render_strong, _render_ins, _render_kbd, _render_samp,
      _render_var, _render_strike, _render_h4, _render_h5, _render_h6,
      _render_menu, _render_th, _render_tt;
    first
      [ apply Hpc
      | unfold _render_a, _render_b, _render_i, _render_u, _render_del,
          _render_code;
        eapply bracket_same_object; [| |apply Hpc]; reflexivity
      | apply then_append_same_object, Hpc
      | apply Hll, Hcs
      | idtac ].
  - unfold _render_base. destruct (get elem "href"); simpl;
      [apply same_object_parent; reflexivity|apply same_object_refl].
  - unfold _render_br. destruct (isinstance_TextBlock p); simpl;
      [apply same_object_parent; [apply kind_of_concat_newline|reflexivity]
      |apply same_object_refl].
  - unfold _render_hr. apply append_ends_same_object.
  - unfold _render_iframe. destruct (get elem "src");
      [apply append_ends_same_object|apply same_object_refl].
  - unfold _render_img. destruct (get elem "src");
      [apply append_ends_same_object|apply same_object_refl].
  - unfold _render_meta. destruct (get elem "name"), (get elem "content"); simpl;
      try apply same_object_refl.
    repeat case_if; simpl;
      first [apply same_object_refl|apply same_object_parent; reflexivity].
  - apply same_object_refl.
  - unfold _render_table.
    pose proof (Hpc (PBlock (Table false [])) s) as H.
    destruct (_process_contents _ _ _ _) as [p1 s1|e p1 s1]; simpl in H.
    + destruct (0 <? Width (as_block (Table false []) p1))%nat.
      * eapply ends_with_impl; [|apply append_ends_same_object].
        intros p2 s2 H2. eapply same_object_self_l; [|exact H2].
        now apply H.
      * apply same_object_parent; [reflexivity|]. now apply H.
    + apply same_object_parent; [reflexivity|]. now apply H.
  - unfold _render_td. destruct (negb (isinstance_TableRow p)); [apply same_object_refl|].
    destruct (elem_has_text true elem); [apply Hpc|].
    apply same_object_parent; [apply kind_of_append_text|reflexivity].
  - unfold _render_td. destruct (negb (isinstance_TableRow p)); [apply same_object_refl|].
    destruct (elem_has_text true elem); [apply Hpc|].
    apply same_object_parent; [apply kind_of_append_text|reflexivity].
  - unfold _render_thead. destruct (negb (isinstance_Table p)); [apply same_object_refl|].
    eapply ends_with_impl; [|apply Hpc]. intros p2 s2 [Hk Hc].
    rewrite kind_of_header in *. now split.
  - apply same_object_parent; reflexivity.
  - unfold _render_tr. destruct (negb (isinstance_Table p)); [apply same_object_refl|].
    apply then_append_same_object, Htd.
Qed.

(** Whatever [_render] is handed as parent, it hands back the same object:
    the content list stays the content list, a block stays a block of its
    class, and a call that was handed a block has not appended to
    [self.content]. *)
Lemma render_same_object elem :
  forall p s, ends_with (same_object p s) (_render elem p s).
Proof.
  induction elem as [t a tx tl cs IH] using Element_ind'. intros p s.
  rewrite _render_eq. unfold render_body.
  destruct (getattr_render _) as [h|]; [|apply same_object_refl].
  now apply call_same_object.
Qed.

(** ** No table of width 0 is ever appended *)

Lemma no_empty_table_inside b : no_empty_table b = true -> inside_ok b = true.
Proof.
  destruct b as [k rt ch|h rows|cells| | |]; try (intros H; exact H).
  intros H. change (no_empty_table (Table h rows))
    with ((0 <? Width (Table h rows))%nat && forallb no_empty_table rows) in H.
  now apply andb_prop in H.
Qed.

Lemma inside_ok_not_table b :
  kind_of (PBlock b) <> KTable -> inside_ok b = true -> no_empty_table b = true.
Proof.
  destruct b as [k rt ch|h rows|cells| | |]; try (intros _ H; exact H).
  now intros [].
Qed.

Lemma tables_ok_append p b s :
  tables_ok p s -> no_empty_table b = true ->
  tables_ok (append p b s).1 (append p b s).2.
Proof.
  intros [Hc Hp] Hb.
  destruct p as [|[k rt ch|h rows|cells| | |]]; simpl in *; (split; [|try exact I]);
    simpl; rewrite ?forallb_app; simpl; rewrite ?Hc, ?Hp, ?Hb; auto.
Qed.

Lemma tables_ok_append_text t p s : tables_ok p s -> tables_ok (_append_text t p s) s.
Proof.
  intros [Hc Hp]. split; [exact Hc|]. unfold _append_text.
  destruct p as [|[k rt ch|h rows|cells| | |]]; simpl in *; auto.
  - destruct (TextObject_from_value _ _ _); simpl; exact Hp.
  - rewrite forallb_app. simpl. now rewrite Hp.
Qed.

Lemma tables_ok_strip p s : tables_ok p s -> tables_ok (strip_text_block p) s.
Proof.
  intros [Hc Hp]. split; [exact Hc|].
  destruct p as [|[[] rt ch| | | | |]]; simpl in *; auto.
Qed.

Lemma tables_ok_concat_newline p s : tables_ok p s -> tables_ok (concat_newline p) s.
Proof.
  intros [Hc Hp]. split; [exact Hc|].
  destruct p as [|[k rt ch| | | | |]]; simpl in *; auto.
  destruct (reverse rt); exact Hp.
Qed.

Lemma tables_ok_header p s : tables_ok p s -> tables_ok (set_has_column_header p) s.
Proof. intros [Hc Hp]. split; [exact Hc|]. destruct p as [|[]]; simpl in *; auto. Qed.

Lemma tables_ok_self p s s' : content s' = content s -> tables_ok p s -> tables_ok p s'.
Proof. intros He [Hc Hp]. split; [now rewrite He|exact Hp]. Qed.

Lemma tables_ok_parent p p' s s' : tables_ok p s -> tables_ok p' s' -> tables_ok p s'.
Proof. intros [_ Hp] [Hc _]. now split. Qed.

Lemma tables_ok_new p s b : tables_ok p s -> inside_ok b = true -> tables_ok (PBlock b) s.
Proof. intros [Hc _] Hb. now split. Qed.

Lemma tables_ok_block p s : tables_ok (PBlock p) s -> inside_ok p = true.
Proof. now intros [_ H]. Qed.

Section NoEmptyTable.

Variable render : Element -> Parent -> HtmlParser -> Result.

Lemma contents_loop_tables has_text cs :
  Forall (keeps_tables render) cs ->
  forall p s, tables_ok p s -> ends_with tables_ok (contents_loop render has_text cs p s).
Proof.
  induction 1 as [|c cs Hc _ IH]; intros p s Hps; simpl; [exact Hps|].
  specialize (Hc p s Hps). destruct (render c p s) as [p1 s1|e p1 s1]; simpl in Hc; [|exact Hc].
  apply IH. destruct has_text; [now apply tables_ok_append_text|exact Hc].
Qed.

Lemma strip_at_end_tables r : ends_with tables_ok r -> ends_with tables_ok (strip_at_end r).
Proof.
  destruct r as [p1 s1|e p1 s1]; simpl; [|auto]. intros H.
  destruct (isinstance_TextBlock p1); [now apply tables_ok_strip|exact H].
Qed.

(** The block that comes back from a call on a block of a class other than
    [Table] passes as a whole. *)
Lemma filled_block_ok b s r :
  kind_of (PBlock b) <> KTable ->
  ends_with (same_object (PBlock b) s) r ->
  ends_with tables_ok r ->
  ends_with (fun p1 _ => no_empty_table (as_block b p1) = true) r.
Proof.
  intros Hb Hso Hok.
  assert (forall p1 s1, same_object (PBlock b) s p1 s1 -> tables_ok p1 s1 ->
                        no_empty_table (as_block b p1) = true) as H.
  { intros p1 s1 [Hk _] [_ Hp]. destruct p1 as [|b1]; [now destruct b|].
    simpl. apply inside_ok_not_table; [congruence|exact Hp]. }
  destruct r; simpl in *; eauto.
Qed.

Lemma then_append_tables p s b r :
  tables_ok p s ->
  ends_with tables_ok r ->
  ends_with (fun p1 _ => no_empty_table (as_block b p1) = true) r ->
  ends_with tables_ok (then_append p b r).
Proof.
  intros Hps. destruct r as [p1 s1|e p1 s1]; simpl; intros Hr Hb.
  - pose proof (tables_ok_append p (as_block b p1) s1 (tables_ok_parent _ _ _ _ Hps Hr) Hb) as H.
    destruct (append p (as_block b p1) s1). exact H.
  - exact (tables_ok_parent _ _ _ _ Hps Hr).
Qed.

Lemma appended_to_tables p s b r :
  tables_ok p s ->
  ends_with tables_ok r ->
  ends_with (fun p1 _ => no_empty_table (as_block b p1) = true) r ->
  ends_with tables_ok (appended_to p b r).
Proof.
  intros Hps. destruct r as [p1 s1|e p1 s1]; simpl; intros Hr Hb;
    pose proof (tables_ok_append p (as_block b p1) s1 (tables_ok_parent _ _ _ _ Hps Hr) Hb) as H;
    destruct (append p (as_block b p1) s1); exact H.
Qed.

Lemma process_contents_tables elem :
  Forall (keeps_object render) (children elem) -> Forall (keeps_tables render) (children elem) ->
  forall p s, tables_ok p s -> ends_with tables_ok (_process_contents render elem p s).
Proof.
  intros Hk Hcs p s Hps. unfold _process_contents.
  destruct (negb (elem_has_text false elem)).
  - now apply strip_at_end_tables, contents_loop_tables.
  - destruct (isinstance_TextBlock p || isinstance_TableRow p).
    + apply strip_at_end_tables, contents_loop_tables; [exact Hcs|].
      now apply tables_ok_append_text.
    + assert (Hnew : tables_ok (_append_text (text elem) (PBlock (new Paragraph)) s) s).
      { apply tables_ok_append_text. eapply tables_ok_new; [exact Hps|reflexivity]. }
      pose proof (strip_at_end_tables _ (contents_loop_tables true _ Hcs _ _ Hnew)) as Hr.
      apply (appended_to_tables p s); [exact Hps|exact Hr|].
      apply (filled_block_ok _ s); [discriminate| |exact Hr].
      apply strip_at_end_same_object.
      eapply ends_with_impl; [|apply contents_loop_same_object, Hk].
      intros p2 s2 H2. eapply same_object_trans; [|exact H2].
      apply same_object_parent; [apply kind_of_append_text|reflexivity].
Qed.

Lemma findall_td_loop_tables cs :
  Forall (keeps_tables render) cs ->
  forall p s, tables_ok p s -> ends_with tables_ok (findall_td_loop render cs p s).
Proof.
  induction 1 as [|c cs Hc _ IH]; intros p s Hps; simpl; [exact Hps|].
  destruct (String.eqb (tag c) "td"); [|now apply IH].
  specialize (Hc p s Hps). destruct (render c p s) as [p1 s1|e p1 s1]; simpl in Hc; [|exact Hc].
  now apply IH.
Qed.

Lemma list_loop_tables kind cs :
  Forall (keeps_object render) cs -> Forall (keeps_tables render) cs ->
  forall p item s,
    tables_ok p s ->
    (forall it, item = Some it ->
       kind_of (PBlock it) = KText kind /\ inside_ok it = true) ->
    ends_with tables_ok (list_loop render kind cs p item s).
Proof.
  intros Hk Hcs. revert Hk.
  induction Hcs as [|c cs Hc _ IH]; intros Hk p item s Hps Hitem; simpl.
  - destruct item as [it|]; [|exact Hps].
    destruct (Hitem it eq_refl) as [Hki Hi].
    pose proof (tables_ok_append p it s Hps) as H.
    destruct (append p it s). apply H. apply inside_ok_not_table; [congruence|exact Hi].
  - apply Forall_cons_1 in Hk as [Hkc Hk]. specialize (IH Hk).
    destruct (String.eqb (tag c) "li").
    + assert (Hflush : exists p0 s0,
                match item with Some it => append p it s | None => (p, s) end = (p0, s0)
                /\ tables_ok p0 s0).
      { destruct item as [it|]; [|eauto].
        destruct (Hitem it eq_refl) as [Hki Hi].
        pose proof (tables_ok_append p it s Hps) as H.
        destruct (append p it s) as [p0 s0]. eexists _, _. split; [reflexivity|].
        apply H. apply inside_ok_not_table; [congruence|exact Hi]. }
      destruct Hflush as (p0 & s0 & -> & H0).
      pose proof (Hc (PBlock (new kind)) s0 (tables_ok_new p0 s0 (new kind) H0 eq_refl)) as Hli.
      pose proof (Hkc (PBlock (new kind)) s0) as Hso.
      destruct (render c (PBlock (new kind)) s0) as [p1 s1|e p1 s1]; simpl in Hli, Hso.
      * apply IH; [exact (tables_ok_parent _ _ _ _ H0 Hli)|].
        intros it [= <-]. destruct Hso as [Hkind _], Hli as [_ Hp].
        destruct p1 as [|b1]; [discriminate|]. simpl. split; [exact Hkind|exact Hp].
      * exact (tables_ok_parent _ _ _ _ H0 Hli).
    + destruct item as [it|].
      * destruct (Hitem it eq_refl) as [Hki Hi].
        pose proof (Hc (PBlock it) s (tables_ok_new _ _ _ Hps Hi)) as Hit.
        pose proof (Hkc (PBlock it) s) as Hso.
        assert (Hb : forall p1 s1, same_object (PBlock it) s p1 s1 -> tables_ok p1 s1 ->
                       kind_of (PBlock (as_block it p1)) = KText kind
                       /\ inside_ok (as_block it p1) = true).
        { intros p1 s1 [Hkind _] [_ Hp]. destruct p1 as [|b1]; [simpl; now split|].
          cbn [as_block]. split; [congruence|exact Hp]. }
        destruct (render c (PBlock it) s) as [p1 s1|e p1 s1]; simpl in Hit, Hso.
        -- apply IH; [exact (tables_ok_parent _ _ _ _ Hps Hit)|].
           intros it' [= <-]. now apply (Hb p1 s1).
        -- destruct (Hb p1 s1 Hso Hit) as [Hk1 Hi1].
           pose proof (tables_ok_append p (as_block it p1) s1
                         (tables_ok_parent _ _ _ _ Hps Hit)) as H.
           destruct (append p (as_block it p1) s1). apply H.
           apply inside_ok_not_table; [congruence|exact Hi1].
      * specialize (Hc p s Hps).
        destruct (render c p s) as [p1 s1|e p1 s1]; simpl in Hc; [|exact Hc].
        apply IH; [exact Hc|]. intros it [=].
Qed.

End NoEmptyTable.

Lemma bracket_tables (leave : HtmlParser -> HtmlParser) r :
  (forall x, content (leave x) = content x) ->
  ends_with tables_ok r ->
  ends_with tables_ok
    match r with
    | Ok p' s' => Ok p' (leave s')
    | Raise e p' s' => Raise e p' s'
    end.
Proof.
  intros Hl. destruct r as [p1 s1|e p1 s1]; simpl; [|auto].
  apply tables_ok_self, Hl.
Qed.

Lemma append_ends_tables p b s :
  tables_ok p s -> no_empty_table b = true ->
  ends_with tables_ok (let '(p', s') := append p b s in Ok p' s').
Proof.
  intros Hps Hb. pose proof (tables_ok_append p b s Hps Hb) as H.
  destruct (append p b s) as [p' s']. exact H.
Qed.

Lemma call_tables render h elem :
  Forall (keeps_object render) (children elem) ->
  Forall (keeps_tables render) (children elem) ->
  forall p s, tables_ok p s -> ends_with tables_ok (call render h elem p s).
Proof.
  intros Hk Hcs p s Hps.
  pose proof (process_contents_tables render elem Hk Hcs) as Hpc.
  pose proof (process_contents_same_object render elem Hk) as Hso.
  assert (Hblock : forall k,
            ends_with tables_ok
              (then_append p (new k) (_process_contents render elem (PBlock (new k)) s))).
  { intros k.
    assert (Hr : ends_with tables_ok (_process_contents render elem (PBlock (new k)) s)).
    { apply Hpc. eapply tables_ok_new; [exact Hps|reflexivity]. }
    apply (then_append_tables p s); [exact Hps|exact Hr|].
    apply (filled_block_ok _ s); [discriminate|apply Hso|exact Hr]. }
  destruct h; cbn [call];
    unfold _render_em, _render_strong, _render_ins, _render_kbd, _render_samp,
      _render_var, _render_strike, _render_h4, _render_h5, _render_h6,
      _render_menu, _render_th, _render_tt;
    first
      [ apply Hpc, Hps
      | unfold _render_a, _render_b, _render_i, _render_u, _render_del,
          _render_code;
        apply bracket_tables; [reflexivity|];
        apply Hpc; eapply tables_ok_self; [|exact Hps]; reflexivity
      | apply Hblock
      | apply list_loop_tables; [exact Hk|exact Hcs|exact Hps|intros it [=]]
      | idtac ].
  - unfold _render_base. destruct (get elem "href"); simpl; [|exact Hps].
    eapply tables_ok_self; [|exact Hps]; reflexivity.
  - unfold _render_br. destruct (isinstance_TextBlock p); simpl;
      [now apply tables_ok_concat_newline|exact Hps].
  - unfold _render_hr. now apply append_ends_tables.
  - unfold _render_iframe. destruct (get elem "src");
      [now apply append_ends_tables|exact Hps].
  - unfold _render_img. destruct (get elem "src");
      [now apply append_ends_tables|exact Hps].
  - unfold _render_meta. destruct (get elem "name"), (get elem "content"); simpl;
      try exact Hps.
    repeat case_if; simpl; [|exact Hps].
    eapply tables_ok_self; [|exact Hps]; reflexivity.
  - exact Hps.
  - unfold _render_table.
    assert (Hnew : tables_ok (PBlock (Table false [])) s)
      by (eapply tables_ok_new; [exact Hps|reflexivity]).
    pose proof (Hpc _ _ Hnew) as Hr.
    pose proof (Hso (PBlock (Table false [])) s) as Hkind.
    destruct (_process_contents _ _ _ _) as [p1 s1|e p1 s1]; simpl in Hr, Hkind.
    + destruct (0 <? Width (as_block (Table false []) p1))%nat eqn:Hw.
      * apply append_ends_tables; [exact (tables_ok_parent _ _ _ _ Hps Hr)|].
        destruct Hkind as [Hkind _], Hr as [_ Hr].
        destruct p1 as [|[k rt ch|h rows|cells| | |]]; try discriminate Hkind.
        cbn [as_block] in *.
        change (no_empty_table (Table h rows))
          with ((0 <? Width (Table h rows))%nat && forallb no_empty_table rows).
        rewrite Hw. exact Hr.
      * exact (tables_ok_parent _ _ _ _ Hps Hr).
    + exact (tables_ok_parent _ _ _ _ Hps Hr).
  - unfold _render_td. destruct (negb (isinstance_TableRow p)); [exact Hps|].
    destruct (elem_has_text true elem); [apply Hpc, Hps|].
    now apply tables_ok_append_text.
  - unfold _render_td. destruct (negb (isinstance_TableRow p)); [exact Hps|].
    destruct (elem_has_text true elem); [apply Hpc, Hps|].
    now apply tables_ok_append_text.
  - unfold _render_thead. destruct (negb (isinstance_Table p)); [exact Hps|].
    now apply Hpc, tables_ok_header.
  - eapply tables_ok_self; [|exact Hps]; reflexivity.
  - unfold _render_tr. destruct (negb (isinstance_Table p)); [exact Hps|].
    assert (Hr : ends_with tables_ok
                   (findall_td_loop render (children elem) (PBlock (TableRow [])) s)).
    { apply findall_td_loop_tables; [exact Hcs|].
      eapply tables_ok_new; [exact Hps|reflexivity]. }
    apply (then_append_tables p s); [exact Hps|exact Hr|].
    apply (filled_block_ok _ s); [discriminate| |exact Hr].
    now apply findall_td_loop_same_object.
Qed.

Lemma render_tables elem :
  forall p s, tables_ok p s -> ends_with tables_ok (_render elem p s).
Proof.
  induction elem as [t a tx tl cs IH] using Element_ind'. intros p s Hps.
  rewrite _render_eq. unfold render_body.
  destruct (getattr_render _) as [h|]; [|exact Hps].
  apply call_tables; [|exact IH|exact Hps].
  apply Forall_forall. intros c _. exact (render_same_object c).
Qed.

(** C6: whatever the document, and whether [parse] returns or raises, no
    table of width 0 is in the content, at the top or nested at any depth;
    in particular a table in the content list has a row with a cell.  A
    <table> whose processing gives width 0 leaves its parent as it found it:
    <table></table> and a table whose only row holds <th> cells give no
    block. *)
Theorem no_table_of_width_0 :
  (forall name doc base,
     let self' :=
       match parse name doc (HtmlParser_init base) with
       | Returned s => s
       | Raised _ s => s
       end in
     forallb no_empty_table (content self') = true
     /\ forall h rows, In (Table h rows) (content self') ->
          (0 < Width (Table h rows))%nat)
  /\ (forall a tx tl cs parent self t self',
        _process_contents _render (Elem "table" a tx tl cs) (PBlock (Table false [])) self
        = Ok (PBlock t) self' ->
        Width t = 0%nat ->
        _render (Elem "table" a tx tl cs) parent self = Ok parent self')
  /\ parse None (Sample.html [Sample.el "table" None None []]) (HtmlParser_init None)
     = Returned (HtmlParser_init None)
  /\ parse None (Sample.html [Sample.el "table" None None [Sample.header_row]])
       (HtmlParser_init None)
     = Returned (HtmlParser_init None).
Proof.
  split; [|split; [|split; reflexivity]].
  - intros name doc base.
    assert (H : forall s0, content s0 = [] ->
              ends_with tables_ok (_render doc PContent s0)).
    { intros s0 H0. apply render_tables. split; [now rewrite H0|exact I]. }
    assert (Hall : forallb no_empty_table
                     (content match parse name doc (HtmlParser_init base) with
                              | Returned s => s
                              | Raised _ s => s
                              end) = true).
    { unfold parse.
      match goal with
      | |- context [_render doc PContent ?s0] =>
          specialize (H s0); destruct (_render doc PContent s0); simpl in *;
          apply H; now destruct name
      end. }
    split; [exact Hall|].
    intros h rows Hin. rewrite forallb_forall in Hall.
    specialize (Hall _ Hin).
    change (no_empty_table (Table h rows))
      with ((0 <? Width (Table h rows))%nat && forallb no_empty_table rows) in Hall.
    apply andb_prop in Hall as [Hw _]. now apply Nat.ltb_lt in Hw.
  - intros a tx tl cs parent self t self' Hp Hw.
    rewrite _render_eq.
    change (render_body _render (Elem "table" a tx tl cs) parent self)
      with (_render_table _render (Elem "table" a tx tl cs) parent self).
    unfold _render_table. rewrite Hp. cbn [as_block]. now rewrite Hw.
Qed.

Lemma no_table_of_width_0_witness :
  let elem := Sample.el "table" None None [Sample.header_row] in
  _process_contents _render elem (PBlock (Table false [])) (HtmlParser_init None)
  = Ok (PBlock (Table false [TableRow []])) (HtmlParser_init None)
  /\ Width (Table false [TableRow []]) = 0%nat
  /\ _render elem PContent (HtmlParser_init None) = Ok PContent (HtmlParser_init None).
Proof.
  split; [reflexivity|]. split; [reflexivity|].
  exact (proj1 (proj2 no_table_of_width_0) ∅ None None [Sample.header_row] PContent
           (HtmlParser_init None) (Table false [TableRow []]) (HtmlParser_init None)
           eq_refl eq_refl).
Defined.

(** ** Lists *)

(** The children that follow an <li> and are not <li> themselves are
    rendered, one after the other, into the item of that <li>. *)
Lemma list_loop_followers kind followers rest parent :
  Forall (fun c => tag c <> "li") followers ->
  forall it self,
    list_loop _render kind (followers ++ rest) parent (Some it) self
    = match contents_loop _render false followers (PBlock it) self with
      | Ok p' self' => list_loop _render kind rest parent (Some (as_block it p')) self'
      | Raise e p' self' =>
          let '(p, s) := append parent (as_block it p') self' in Raise e p s
      end.
Proof.
  induction 1 as [|c cs Hc _ IH]; intros it self; [reflexivity|].
  cbn [app list_loop contents_loop].
  destruct (String.eqb_spec (tag c) "li") as [|_]; [contradiction|].
  pose proof (render_same_object c (PBlock it) self) as Hso.
  destruct (_render c (PBlock it) self) as [p1 s1|e p1 s1]; [|reflexivity].
  destruct Hso as [Hk _]. destruct p1 as [|b1]; [now destruct it|].
  cbn [as_block]. rewrite IH.
  pose proof (contents_loop_same_object _render false cs
                (proj2 (Forall_forall _ _) (fun c _ => render_same_object c))
                (PBlock b1) s1) as Hso.
  destruct (contents_loop _render false cs (PBlock b1) s1) as [p2 s2|e p2 s2];
    destruct Hso as [Hk2 _]; (destruct p2 as [|b2]; [now destruct b1|]); reflexivity.
Qed.

(** C7: in the loop over the children of <ul> or <ol>, an <li> makes one
    block of the requested class, its contents and the non-<li> children
    that follow it are rendered into that block, and the block is appended
    to the outer parent itself; a non-<li> child that comes before any <li>
    is rendered into the outer parent.  So
    <ul><li>A</li><li>B<ul><li>C</li></ul></li></ul> gives the two items A
    and B in the content list, and C is a child block of B. *)
Theorem list_items_join_the_outer_parent :
  (forall kind li followers rest parent self it self1 it' self2,
     tag li = "li" ->
     Forall (fun c => tag c <> "li") followers ->
     match rest with [] => True | c :: _ => tag c = "li" end ->
     _render li (PBlock (new kind)) self = Ok (PBlock it) self1 ->
     contents_loop _render false followers (PBlock it) self1 = Ok (PBlock it') self2 ->
     kind_of (PBlock it') = KText kind
     /\ content self2 = content self
     /\ list_loop _render kind (li :: followers ++ rest) parent None self
        = let '(p, s) := append parent it' self2 in
          list_loop _render kind rest p None s)
  /\ (forall kind c rest parent self,
        tag c <> "li" ->
        list_loop _render kind (c :: rest) parent None self
        = match _render c parent self with
          | Ok p s => list_loop _render kind rest p None s
          | Raise e p s => Raise e p s
          end)
  /\ (forall tg kind a tx tl cs parent self,
        In (tg, kind) [("ul", BulletedListItem); ("menu", BulletedListItem);
                       ("ol", NumberedListItem)] ->
        _render (Elem tg a tx tl cs) parent self
        = list_loop _render kind cs parent None self)
  /\ parse None Sample.nested_list (HtmlParser_init None)
     = Returned
         (set_content
            [TextBlock BulletedListItem [Sample.run "A" Sample.plain] [];
             TextBlock BulletedListItem [Sample.run "B" Sample.plain]
               [TextBlock BulletedListItem [Sample.run "C" Sample.plain] []]]
            (HtmlParser_init None))
  /\ parse None (Sample.html [Sample.el "ol" None None Sample.loose_list])
       (HtmlParser_init None)
     = Returned
         (set_content
            [Divider;
             TextBlock NumberedListItem [Sample.run "A" Sample.plain] [Divider];
             TextBlock NumberedListItem [Sample.run "B" Sample.plain] []]
            (HtmlParser_init None)).
Proof.
  split; [|split; [|split; [|split; reflexivity]]].
  - intros kind li followers rest parent self it self1 it' self2 Hli Hf Hrest Hr Hc.
    pose proof (render_same_object li (PBlock (new kind)) self) as Hso.
    rewrite Hr in Hso. destruct Hso as [Hk1 Hc1].
    pose proof (contents_loop_same_object _render false followers
                  (proj2 (Forall_forall _ _) (fun c _ => render_same_object c))
                  (PBlock it) self1) as Hso.
    rewrite Hc in Hso. destruct Hso as [Hk2 Hc2].
    split; [now rewrite Hk2, Hk1|]. split.
    { rewrite Hc2 by now destruct it. now apply Hc1. }
    cbn [list_loop]. rewrite Hli. cbn [String.eqb Ascii.eqb Bool.eqb].
    rewrite Hr. cbn [as_block]. rewrite (list_loop_followers kind followers rest parent Hf).
    rewrite Hc. cbn [as_block].
    destruct rest as [|c rest]; [cbn [list_loop]; now destruct (append parent it' self2)|].
    cbn [list_loop]. rewrite Hrest. reflexivity.
  - intros kind c rest parent self Hc. cbn [list_loop].
    destruct (String.eqb_spec (tag c) "li") as [|_]; [contradiction|reflexivity].
  - intros tg kind a tx tl cs parent self Hin. rewrite _render_eq. simpl in Hin.
    repeat (destruct Hin as [Hin|Hin]; [injection Hin as <- <-; reflexivity|]).
    destruct Hin.
Qed.

Lemma list_items_join_the_outer_parent_witness :
  let li := Sample.el "li" (Some "A") None [] in
  let hr := Sample.el "hr" None None [] in
  let item := TextBlock BulletedListItem [Sample.run "A" Sample.plain] in
  list_loop _render BulletedListItem [li; hr; li] PContent None (HtmlParser_init None)
  = list_loop _render BulletedListItem [li] PContent None
      (set_content [item [Divider]] (HtmlParser_init None)).
Proof.
  assert (Hf : Forall (fun c => tag c <> "li") [Sample.el "hr" None None []])
    by (repeat constructor; discriminate).
  exact (proj2 (proj2 (proj1 list_items_join_the_outer_parent BulletedListItem
    (Sample.el "li" (Some "A") None []) [Sample.el "hr" None None []]
    [Sample.el "li" (Some "A") None []] PContent (HtmlParser_init None)
    (TextBlock BulletedListItem [Sample.run "A" Sample.plain] []) (HtmlParser_init None)
    (TextBlock BulletedListItem [Sample.run "A" Sample.plain] [Divider])
    (HtmlParser_init None)
    eq_refl Hf eq_refl eq_refl eq_refl))).
Defined.

(** ** Structure errors *)

Lemma exn_of_strip_at_end r : exn_of (strip_at_end r) = exn_of r.
Proof. now destruct r. Qed.

Lemma exn_of_then_append p b r : exn_of (then_append p b r) = exn_of r.
Proof. destruct r; simpl; [now destruct (append _ _ _)|reflexivity]. Qed.

Lemma exn_of_appended_to p b r : exn_of (appended_to p b r) = exn_of r.
Proof. destruct r; simpl; now destruct (append _ _ _). Qed.

Lemma exn_of_bracket (leave : HtmlParser -> HtmlParser) r :
  exn_of match r with
         | Ok p' s' => Ok p' (leave s')
         | Raise e p' s' => Raise e p' s'
         end = exn_of r.
Proof. now destruct r. Qed.

Lemma exn_of_append p b s : exn_of (let '(p', s') := append p b s in Ok p' s') = None.
Proof. now destruct (append p b s). Qed.

Section Propagation.

Variable render : Element -> Parent -> HtmlParser -> Result.

Lemma from_child_cons c cs x : from_child render cs x -> from_child render (c :: cs) x.
Proof. intros (c' & p0 & s0 & Hin & H). exists c', p0, s0. split; [now right|exact H]. Qed.

Lemma from_child_here c cs p0 s0 x :
  exn_of (render c p0 s0) = Some x -> from_child render (c :: cs) x.
Proof. intros H. exists c, p0, s0. split; [now left|exact H]. Qed.

Lemma contents_loop_raise has_text cs x :
  forall p s, exn_of (contents_loop render has_text cs p s) = Some x -> from_child render cs x.
Proof.
  induction cs as [|c cs IH]; intros p s; simpl; [discriminate|].
  destruct (render c p s) as [p1 s1|e p1 s1] eqn:Hr.
  - intros H. apply from_child_cons. eapply IH, H.
  - intros [= <-]. apply (from_child_here c cs p s). now rewrite Hr.
Qed.

Lemma process_contents_raise elem x :
  forall p s, exn_of (_process_contents render elem p s) = Some x ->
              from_child render (children elem) x.
Proof.
  intros p s. unfold _process_contents. repeat case_if;
    rewrite ?exn_of_appended_to, exn_of_strip_at_end; apply contents_loop_raise.
Qed.

Lemma findall_td_loop_raise cs x :
  forall p s, exn_of (findall_td_loop render cs p s) = Some x -> from_child render cs x.
Proof.
  induction cs as [|c cs IH]; intros p s; simpl; [discriminate|].
  destruct (String.eqb (tag c) "td").
  - destruct (render c p s) as [p1 s1|e p1 s1] eqn:Hr.
    + intros H. apply from_child_cons. eapply IH, H.
    + intros [= <-]. apply (from_child_here c cs p s). now rewrite Hr.
  - intros H. apply from_child_cons. eapply IH, H.
Qed.

Lemma list_loop_raise kind cs x :
  forall p item s, exn_of (list_loop render kind cs p item s) = Some x -> from_child render cs x.
Proof.
  induction cs as [|c cs IH]; intros p item s; simpl.
  - destruct item; [now destruct (append _ _ _)|discriminate].
  - destruct (String.eqb (tag c) "li").
    + destruct (match item with Some it => append p it s | None => (p, s) end) as [p0 s0].
      destruct (render c (PBlock (new kind)) s0) as [p1 s1|e p1 s1] eqn:Hr.
      * intros H. apply from_child_cons. eapply IH, H.
      * intros [= <-]. apply (from_child_here c cs (PBlock (new kind)) s0). now rewrite Hr.
    + destruct item as [it|].
      * destruct (render c (PBlock it) s) as [p1 s1|e p1 s1] eqn:Hr.
        -- intros H. apply from_child_cons. eapply IH, H.
        -- destruct (append _ _ _). intros [= <-].
           apply (from_child_here c cs (PBlock it) s). now rewrite Hr.
      * destruct (render c p s) as [p1 s1|e p1 s1] eqn:Hr.
        -- intros H. apply from_child_cons. eapply IH, H.
        -- intros [= <-]. apply (from_child_here c cs p s). now rewrite Hr.
Qed.

(** A handler raises [InvalidParent] at its own guard or passes on what the
    rendering of a child raised. *)
Lemma call_raise h elem p s x :
  tag elem = handler_tag h ->
  h <> h_s ->
  exn_of (call render h elem p s) = Some x ->
  (misplaced elem p /\ x = structure_error elem p)
  \/ from_child render (children elem) x.
Proof.
  intros Hh Hne.
  pose proof (process_contents_raise elem x) as Hpc.
  destruct h; cbn [call];
    unfold _render_em, _render_strong, _render_ins, _render_kbd, _render_samp,
      _render_var, _render_strike, _render_h4, _render_h5, _render_h6,
      _render_menu, _render_th, _render_tt;
    try (intros H; right; revert H;
         first
           [ apply Hpc
           | unfold _render_a, _render_b, _render_i, _render_u, _render_del,
               _render_code, _render_blockquote, _render_dl, _render_h1,
               _render_h2, _render_h3, _render_p, _render_pre;
             rewrite ?exn_of_bracket, ?exn_of_then_append; apply Hpc
           | apply list_loop_raise ]).
  - unfold _render_base. now destruct (get elem "href").
  - unfold _render_br. now destruct (isinstance_TextBlock p).
  - unfold _render_hr. now rewrite exn_of_append.
  - unfold _render_iframe. destruct (get elem "src"); [now rewrite exn_of_append|discriminate].
  - unfold _render_img. destruct (get elem "src"); [now rewrite exn_of_append|discriminate].
  - unfold _render_meta. destruct (get elem "name"), (get elem "content"); simpl;
      try discriminate. now repeat case_if.
  - now destruct Hne.
  - unfold _render_table. intros H. right. revert H.
    destruct (_process_contents render elem (PBlock (Table false [])) s) as [p1 s1|e p1 s1] eqn:Hr.
    + case_if; [now rewrite exn_of_append|discriminate].
    + intros H. apply (Hpc (PBlock (Table false [])) s). now rewrite Hr.
  - unfold _render_td. destruct (isinstance_TableRow p) eqn:Hp; simpl.
    + case_if; [intros H; right; revert H; apply Hpc|discriminate].
    + intros [= <-]. left. unfold misplaced, structure_error. rewrite Hh. simpl. auto.
  - unfold _render_td. destruct (isinstance_TableRow p) eqn:Hp; simpl.
    + case_if; [intros H; right; revert H; apply Hpc|discriminate].
    + intros [= <-]. left. unfold misplaced, structure_error. rewrite Hh. simpl. auto.
  - unfold _render_thead. destruct (isinstance_Table p) eqn:Hp; simpl.
    + intros H; right; revert H; apply Hpc.
    + intros [= <-]. left. unfold misplaced, structure_error. rewrite Hh. simpl. auto.
  - discriminate.
  - unfold _render_tr. destruct (isinstance_Table p) eqn:Hp; simpl.
    + rewrite exn_of_then_append. intros H; right; revert H. apply findall_td_loop_raise.
    + intros [= <-]. left. unfold misplaced, structure_error. rewrite Hh. simpl. auto.
Qed.

(** The handler of <s> raises at its call of [_render_del]. *)
Lemma call_s_raise elem p s :
  call render h_s elem p s = Raise (TooManyArguments "_render_del") p s.
Proof. reflexivity. Qed.

End Propagation.

Lemma getattr_render_tag t h : getattr_render t = Some h -> t = handler_tag h.
Proof.
  unfold getattr_render, handlers. cbn [assoc].
  repeat match goal with
         | |- context [String.eqb t ?x] =>
             destruct (String.eqb_spec t x) as [->|_]; [now intros [= <-]|]
         end.
  discriminate.
Qed.

Lemma subelement_trans e0 c e :
  subelement e0 c -> subelement c e -> subelement e0 e.
Proof.
  intros H0 H. induction H as [e|e c' c Hin _ IH]; [exact H0|].
  eapply subelement_child; [exact Hin|]. now apply IH.
Qed.

Lemma render_raise_local elem p s x :
  exn_of (_render elem p s) = Some x ->
  (misplaced elem p /\ x = structure_error elem p)
  \/ (x = TooManyArguments "_render_del" /\ tag elem = "s")
  \/ from_child _render (children elem) x.
Proof.
  rewrite _render_eq. unfold render_body.
  destruct (getattr_render (tag elem)) as [h|] eqn:Hh; [|discriminate].
  apply getattr_render_tag in Hh.
  destruct (decide (h = h_s)) as [->|Hne].
  - intros [= <-]. right. left. now split.
  - intros H. destruct (call_raise _render h elem p s x Hh Hne H) as [Hm|Hc]; [now left|].
    right. now right.
Qed.

Lemma render_at_guard elem p s :
  misplaced elem p -> _render elem p s = Raise (structure_error elem p) p s.
Proof.
  intros Hm. rewrite _render_eq. unfold render_body, structure_error.
  destruct elem as [t a tx tl cs]. unfold misplaced in Hm. cbn [tag] in *.
  destruct Hm as [[[-> | ->] Hp] | [[-> | ->] Hp]];
    match goal with
    | |- context [getattr_render ?t] =>
        let v := eval vm_compute in (getattr_render t) in
        change (getattr_render t) with v
    end;
    cbn [call]; unfold _render_thead, _render_tr, _render_th, _render_td;
    now rewrite Hp.
Qed.

(** Every exception that leaves [_render] was raised in the call of
    [_render] on an element of the subtree, by a guard or by the handler of
    <s>. *)
Lemma render_raise_origin elem :
  forall p s x,
    exn_of (_render elem p s) = Some x ->
    (exists e0 p0, subelement e0 elem /\ misplaced e0 p0 /\ x = structure_error e0 p0)
    \/ (x = TooManyArguments "_render_del"
        /\ exists e0, subelement e0 elem /\ tag e0 = "s").
Proof.
  induction elem as [t a tx tl cs IH] using Element_ind'. intros p s x Hx.
  destruct (render_raise_local _ p s x Hx) as [[Hm He]|[[He Hs]|Hc]].
  - left. exists (Elem t a tx tl cs), p. split; [constructor|now split].
  - right. split; [exact He|]. exists (Elem t a tx tl cs). split; [constructor|exact Hs].
  - destruct Hc as (c & p0 & s0 & Hin & Hc). simpl in Hin.
    rewrite Forall_forall in IH.
    destruct (IH c (proj2 (list_elem_of_In _ _) Hin) p0 s0 x Hc)
      as [(e0 & q & Hsub & Hmis & He)|(He & e0 & Hsub & Hs)].
    + left. exists e0, q. split; [|now split].
      eapply subelement_child; [exact Hin|exact Hsub].
    + right. split; [exact He|]. exists e0. split; [|exact Hs].
      eapply subelement_child; [exact Hin|exact Hsub].
Qed.

(** C5: [_render_thead] and [_render_tr] raise when the parent is not a
    [Table], [_render_td] (also for <th>) when it is not a [TableRow]: at
    once, with the parent and the parser untouched, so nothing of the
    element's subtree has been rendered.  Conversely, a structure error that
    leaves [_render] comes from such a call: the element it was raised for
    belongs to the subtree, and the parent of that call is not what the
    guard wants.  In <div>text<tr></tr></div> the <tr> meets the paragraph
    that holds the text; the parse stops there, with that paragraph in the
    content and nothing from the <tr>. *)
Theorem structure_error_at_the_guards :
  (forall elem parent self,
     misplaced elem parent ->
     _render elem parent self = Raise (structure_error elem parent) parent self)
  /\ (forall elem parent self m e0 p0 p' self',
        _render elem parent self = Raise (InvalidParent m e0 p0) p' self' ->
        subelement e0 elem /\ misplaced e0 p0
        /\ InvalidParent m e0 p0 = structure_error e0 p0)
  /\ (let text := TextBlock Paragraph [Sample.run "text" Sample.plain] [] in
      parse None Sample.stray_row (HtmlParser_init None)
      = Raised (InvalidParent "tr" (Sample.el "tr" None None []) (PBlock text))
          (set_content [text] (HtmlParser_init None))).
Proof.
  split; [exact render_at_guard|]. split; [|reflexivity].
  intros elem parent self m e0 p0 p' self' Hr.
  destruct (render_raise_origin elem parent self (InvalidParent m e0 p0))
    as [(e1 & p1 & Hsub & Hmis & He)|[He _]]; [now rewrite Hr| |discriminate He].
  pose proof He as He'. unfold structure_error in He'.
  injection He' as _ <- <-. now split.
Qed.

Lemma structure_error_at_the_guards_witness :
  misplaced (Sample.el "tr" None None []) (PBlock (new Paragraph))
  /\ _render (Sample.el "tr" None None []) (PBlock (new Paragraph)) (HtmlParser_init None)
     = Raise (InvalidParent "tr" (Sample.el "tr" None None []) (PBlock (new Paragraph)))
         (PBlock (new Paragraph)) (HtmlParser_init None).
Proof.
  assert (H : misplaced (Sample.el "tr" None None []) (PBlock (new Paragraph)))
    by (left; split; [now right|reflexivity]).
  split; [exact H|].
  exact (proj1 structure_error_at_the_guards (Sample.el "tr" None None [])
           (PBlock (new Paragraph)) (HtmlParser_init None) H).
Defined.

(** ** What a parser carries from one parse to the next *)

Lemma append_text_carry D t p s : _append_text t p (carry D s) = _append_text t p s.
Proof. reflexivity. Qed.

Lemma append_carry D p b s :
  append p b (carry D s) = ((append p b s).1, carry D (append p b s).2).
Proof.
  destruct p as [|[]]; try reflexivity.
  simpl. unfold carry. simpl. now rewrite app_assoc.
Qed.

Lemma strip_at_end_on_self f r : strip_at_end (on_self f r) = on_self f (strip_at_end r).
Proof. now destruct r. Qed.

Lemma then_append_carry D p b r :
  then_append p b (on_self (carry D) r) = on_self (carry D) (then_append p b r).
Proof.
  destruct r as [p1 s1|e p1 s1]; simpl; [|reflexivity].
  rewrite append_carry. now destruct (append p (as_block b p1) s1).
Qed.

Lemma appended_to_carry D p b r :
  appended_to p b (on_self (carry D) r) = on_self (carry D) (appended_to p b r).
Proof.
  destruct r as [p1 s1|e p1 s1]; simpl;
    rewrite append_carry; now destruct (append p (as_block b p1) s1).
Qed.

Lemma append_ok_carry D p b s :
  (let '(p', s') := append p b (carry D s) in Ok p' s')
  = on_self (carry D) (let '(p', s') := append p b s in Ok p' s').
Proof. rewrite append_carry. now destruct (append p b s). Qed.

Section Carry.

Variable render : Element -> Parent -> HtmlParser -> Result.
Variable D : HtmlParser.

Lemma contents_loop_carry has_text cs :
  Forall (carries render D) cs ->
  forall p s,
    contents_loop render has_text cs p (carry D s)
    = on_self (carry D) (contents_loop render has_text cs p s).
Proof.
  induction 1 as [|c cs Hc _ IH]; intros p s; simpl; [reflexivity|].
  rewrite Hc. destruct (render c p s) as [p1 s1|e p1 s1]; simpl; [|reflexivity].
  rewrite append_text_carry. apply IH.
Qed.

Lemma process_contents_carry elem :
  Forall (carries render D) (children elem) ->
  forall p s,
    _process_contents render elem p (carry D s)
    = on_self (carry D) (_process_contents render elem p s).
Proof.
  intros Hcs p s. unfold _process_contents. rewrite !append_text_carry.
  repeat case_if;
    rewrite (contents_loop_carry _ _ Hcs), strip_at_end_on_self;
    [reflexivity|reflexivity|apply appended_to_carry].
Qed.

Lemma findall_td_loop_carry cs :
  Forall (carries render D) cs ->
  forall p s,
    findall_td_loop render cs p (carry D s)
    = on_self (carry D) (findall_td_loop render cs p s).
Proof.
  induction 1 as [|c cs Hc _ IH]; intros p s; simpl; [reflexivity|].
  destruct (String.eqb (tag c) "td"); [|apply IH].
  rewrite Hc. destruct (render c p s) as [p1 s1|e p1 s1]; simpl; [apply IH|reflexivity].
Qed.

Lemma list_loop_carry kind cs :
  Forall (carries render D) cs ->
  forall p item s,
    list_loop render kind cs p item (carry D s)
    = on_self (carry D) (list_loop render kind cs p item s).
Proof.
  induction 1 as [|c cs Hc _ IH]; intros p item s; simpl.
  - destruct item as [it|]; [|reflexivity]. apply append_ok_carry.
  - destruct (String.eqb (tag c) "li").
    + assert (Hflush :
        match item with Some it => append p it (carry D s) | None => (p, carry D s) end
        = (let ps := match item with Some it => append p it s | None => (p, s) end in
           (ps.1, carry D ps.2))).
      { destruct item; [apply append_carry|reflexivity]. }
      rewrite Hflush.
      destruct (match item with Some it => append p it s | None => (p, s) end) as [p0 s0].
      cbn [fst snd]. rewrite Hc.
      destruct (render c (PBlock (new kind)) s0) as [p1 s1|e p1 s1]; simpl;
        [apply IH|reflexivity].
    + destruct item as [it|]; rewrite Hc.
      * destruct (render c (PBlock it) s) as [p1 s1|e p1 s1]; simpl; [apply IH|].
        rewrite append_carry. now destruct (append p (as_block it p1) s1).
      * destruct (render c p s) as [p1 s1|e p1 s1]; simpl; [apply IH|reflexivity].
Qed.

Lemma bracket_carry (enter leave : HtmlParser -> HtmlParser) r :
  (forall x, leave (carry D x) = carry D (leave x)) ->
  match on_self (carry D) r with
  | Ok p' s' => Ok p' (leave s')
  | Raise e p' s' => Raise e p' s'
  end
  = on_self (carry D) match r with
                      | Ok p' s' => Ok p' (leave s')
                      | Raise e p' s' => Raise e p' s'
                      end.
Proof. intros Hl. destruct r; simpl; [now rewrite Hl|reflexivity]. Qed.

Lemma call_carry h elem :
  Forall (carries render D) (children elem) ->
  forall p s, call render h elem p (carry D s) = on_self (carry D) (call render h elem p s).
Proof.
  intros Hcs p s.
  pose proof (process_contents_carry elem Hcs) as Hpc.
  destruct h; cbn [call];
    unfold _render_em, _render_strong, _render_ins, _render_kbd, _render_samp,
      _render_var, _render_strike, _render_h4, _render_h5, _render_h6,
      _render_menu, _render_th, _render_tt;
    first
      [ apply Hpc
      | unfold _render_a, _render_b, _render_i, _render_u, _render_del, _render_code;
        match goal with
        | |- context [_process_contents render elem p (?enter (carry D s))] =>
            change (enter (carry D s)) with (carry D (enter s))
        end;
        rewrite Hpc; now apply bracket_carry
      | unfold _render_blockquote, _render_dl, _render_h1, _render_h2, _render_h3,
          _render_p, _render_pre;
        rewrite Hpc; apply then_append_carry
      | apply list_loop_carry, Hcs
      | idtac ].
  - unfold _render_base. now destruct (get elem "href").
  - unfold _render_br. now destruct (isinstance_TextBlock p).
  - unfold _render_hr. apply append_ok_carry.
  - unfold _render_iframe. destruct (get elem "src"); [apply append_ok_carry|reflexivity].
  - unfold _render_img. destruct (get elem "src"); [apply append_ok_carry|reflexivity].
  - unfold _render_meta. destruct (get elem "name"), (get elem "content"); simpl;
      try reflexivity.
    repeat case_if; simpl; try reflexivity.
    unfold carry. simpl. now rewrite insert_union_l.
  - reflexivity.
  - unfold _render_table. rewrite Hpc.
    destruct (_process_contents render elem (PBlock (Table false [])) s) as [p1 s1|e p1 s1];
      simpl; [|reflexivity].
    case_if; [apply append_ok_carry|reflexivity].
  - unfold _render_td. repeat case_if; try reflexivity. apply Hpc.
  - unfold _render_td. repeat case_if; try reflexivity. apply Hpc.
  - unfold _render_thead. case_if; [reflexivity|apply Hpc].
  - reflexivity.
  - unfold _render_tr. case_if; [reflexivity|].
    rewrite (findall_td_loop_carry _ Hcs). apply then_append_carry.
Qed.

End Carry.

(** Rendering on top of an earlier state is rendering from scratch with the
    earlier state underneath: nothing that [_render] does depends on the
    content, the title, the metadata or the base URL it finds. *)
Lemma render_carry D elem :
  forall p s, _render elem p (carry D s) = on_self (carry D) (_render elem p s).
Proof.
  induction elem as [t a tx tl cs IH] using Element_ind'. intros p s.
  rewrite _render_eq. unfold render_body.
  destruct (getattr_render _) as [h|]; [|reflexivity].
  now apply call_carry.
Qed.

(** ** The style state after a parse *)

Lemma flag_set_flag_other f g v a : f <> g -> flag g (set_flag f v a) = flag g a.
Proof. destruct f, g; intros H; try reflexivity; now destruct H. Qed.

Lemma settled_refl s : settled s s.
Proof. split; auto. Qed.

Lemma settled_trans s s1 s2 : settled s s1 -> settled s1 s2 -> settled s s2.
Proof.
  intros [Hf Hh] [Hf' Hh']. split; [auto|].
  destruct Hh' as [Hn|He]; [now left|]. rewrite He. exact Hh.
Qed.

Lemma settled_same s s' :
  _current_text_style s' = _current_text_style s ->
  _current_href s' = _current_href s -> settled s s'.
Proof. intros Hs Hh. split; [now rewrite Hs|now right]. Qed.

Lemma settled_append p b s : settled s (append p b s).2.
Proof. destruct p as [|[]]; apply settled_same; reflexivity. Qed.

Lemma returns_settled_trans s s1 r :
  settled s s1 -> returns_settled s1 r -> returns_settled s r.
Proof. destruct r; simpl; [apply settled_trans|auto]. Qed.

Lemma returns_settled_strip s r : returns_settled s r -> returns_settled s (strip_at_end r).
Proof. now destruct r. Qed.

Lemma returns_settled_then_append s p b r :
  returns_settled s r -> returns_settled s (then_append p b r).
Proof.
  destruct r as [p1 s1|e p1 s1]; simpl; [|auto]. intros H.
  pose proof (settled_append p (as_block b p1) s1) as Ha.
  destruct (append p (as_block b p1) s1). eapply settled_trans; [exact H|exact Ha].
Qed.

Lemma returns_settled_appended_to s p b r :
  returns_settled s r -> returns_settled s (appended_to p b r).
Proof.
  destruct r as [p1 s1|e p1 s1]; simpl; intros H;
    pose proof (settled_append p (as_block b p1) s1) as Ha;
    destruct (append p (as_block b p1) s1); [|exact I].
  eapply settled_trans; [exact H|exact Ha].
Qed.

Lemma returns_settled_append s p b :
  returns_settled s (let '(p', s') := append p b s in Ok p' s').
Proof. pose proof (settled_append p b s) as H. now destruct (append p b s). Qed.

(** Set the flag, process, clear the flag. *)
Lemma returns_settled_style f s r :
  returns_settled (set_style f true s) r ->
  returns_settled s match r with
                    | Ok p' s' => Ok p' (set_style f false s')
                    | Raise e p' s' => Raise e p' s'
                    end.
Proof.
  destruct r as [p1 s1|e p1 s1]; simpl; [|auto]. intros [Hf Hh]. split; [|exact Hh].
  intros g Hg. simpl in *.
  destruct (decide (f = g)) as [<-|Hne]; [now rewrite flag_set_flag in Hg|].
  rewrite flag_set_flag_other in Hg by exact Hne.
  specialize (Hf g Hg). now rewrite flag_set_flag_other in Hf.
Qed.

(** Set the link target, process, unset the link target. *)
Lemma returns_settled_href h s r :
  returns_settled (set_current_href h s) r ->
  returns_settled s match r with
                    | Ok p' s' => Ok p' (set_current_href None s')
                    | Raise e p' s' => Raise e p' s'
                    end.
Proof.
  destruct r as [p1 s1|e p1 s1]; simpl; [|auto]. intros [Hf _]. split; [exact Hf|now left].
Qed.

Section Settled.

Variable render : Element -> Parent -> HtmlParser -> Result.

Lemma contents_loop_settled has_text cs :
  Forall (settles render) cs ->
  forall p s, returns_settled s (contents_loop render has_text cs p s).
Proof.
  induction 1 as [|c cs Hc _ IH]; intros p s; simpl; [apply settled_refl|].
  specialize (Hc p s). destruct (render c p s) as [p1 s1|e p1 s1]; simpl in Hc; [|exact I].
  eapply returns_settled_trans; [exact Hc|apply IH].
Qed.

Lemma process_contents_settled elem :
  Forall (settles render) (children elem) ->
  forall p s, returns_settled s (_process_contents render elem p s).
Proof.
  intros Hcs p s. unfold _process_contents.
  repeat case_if; try apply returns_settled_appended_to;
    apply returns_settled_strip, contents_loop_settled, Hcs.
Qed.

Lemma findall_td_loop_settled cs :
  Forall (settles render) cs ->
  forall p s, returns_settled s (findall_td_loop render cs p s).
Proof.
  induction 1 as [|c cs Hc _ IH]; intros p s; simpl; [apply settled_refl|].
  destruct (String.eqb (tag c) "td"); [|apply IH].
  specialize (Hc p s). destruct (render c p s) as [p1 s1|e p1 s1]; simpl in Hc; [|exact I].
  eapply returns_settled_trans; [exact Hc|apply IH].
Qed.

Lemma list_loop_settled kind cs :
  Forall (settles render) cs ->
  forall p item s, returns_settled s (list_loop render kind cs p item s).
Proof.
  induction 1 as [|c cs Hc _ IH]; intros p item s; simpl.
  - destruct item as [it|]; [apply returns_settled_append|apply settled_refl].
  - destruct (String.eqb (tag c) "li").
    + assert (Hflush : settled s
                (match item with Some it => append p it s | None => (p, s) end).2).
      { destruct item; [apply settled_append|apply settled_refl]. }
      destruct (match item with Some it => append p it s | None => (p, s) end) as [p0 s0].
      simpl in Hflush. specialize (Hc (PBlock (new kind)) s0).
      destruct (render c (PBlock (new kind)) s0) as [p1 s1|e p1 s1]; simpl in Hc; [|exact I].
      eapply returns_settled_trans; [exact Hflush|].
      eapply returns_settled_trans; [exact Hc|apply IH].
    + destruct item as [it|].
      * specialize (Hc (PBlock it) s).
        destruct (render c (PBlock it) s) as [p1 s1|e p1 s1]; simpl in Hc.
        -- eapply returns_settled_trans; [exact Hc|apply IH].
        -- now destruct (append _ _ _).
      * specialize (Hc p s).
        destruct (render c p s) as [p1 s1|e p1 s1]; simpl in Hc; [|exact I].
        eapply returns_settled_trans; [exact Hc|apply IH].
Qed.

Lemma call_settled h elem :
  Forall (settles render) (children elem) ->
  forall p s, returns_settled s (call render h elem p s).
Proof.
  intros Hcs p s.
  pose proof (process_contents_settled elem Hcs) as Hpc.
  destruct h; cbn [call];
    unfold _render_em, _render_strong, _render_ins, _render_kbd, _render_samp,
      _render_var, _render_strike, _render_h4, _render_h5, _render_h6,
      _render_menu, _render_th, _render_tt;
    first
      [ apply Hpc
      | unfold _render_a; eapply returns_settled_href, Hpc
      | unfold _render_b, _render_i, _render_u, _render_del, _render_code;
        apply returns_settled_style, Hpc
      | apply returns_settled_then_append, Hpc
      | apply list_loop_settled, Hcs
      | idtac ].
  - unfold _render_base. destruct (get elem "href"); apply settled_same; reflexivity.
  - unfold _render_br. destruct (isinstance_TextBlock p); apply settled_refl.
  - apply returns_settled_append.
  - unfold _render_iframe. destruct (get elem "src");
      [apply returns_settled_append|apply settled_refl].
  - unfold _render_img. destruct (get elem "src");
      [apply returns_settled_append|apply settled_refl].
  - unfold _render_meta. destruct (get elem "name"), (get elem "content"); simpl;
      try apply settled_refl.
    repeat case_if; apply settled_same; reflexivity.
  - exact I.
  - unfold _render_table. specialize (Hpc (PBlock (Table false [])) s).
    destruct (_process_contents _ _ _ _) as [p1 s1|e p1 s1]; simpl in Hpc; [|exact I].
    case_if; [|exact Hpc].
    eapply returns_settled_trans; [exact Hpc|apply returns_settled_append].
  - unfold _render_td. repeat case_if; first [exact I|apply Hpc|apply settled_refl].
  - unfold _render_td. repeat case_if; first [exact I|apply Hpc|apply settled_refl].
  - unfold _render_thead. case_if; [exact I|apply Hpc].
  - apply settled_same; reflexivity.
  - unfold _render_tr. case_if; [exact I|].
    apply returns_settled_then_append, findall_td_loop_settled, Hcs.
Qed.

End Settled.

(** When [_render] returns, no style flag has come on and the link target is
    unset or what it was. *)
Lemma render_settled elem : forall p s, returns_settled s (_render elem p s).
Proof.
  induction elem as [t a tx tl cs IH] using Element_ind'. intros p s.
  rewrite _render_eq. unfold render_body.
  destruct (getattr_render _) as [h|]; [|apply settled_refl].
  now apply call_settled.
Qed.

(** ** Two parses on one parser *)

Lemma or_else_None a : or_else a None = a.
Proof. now destruct a. Qed.

Lemma or_else_twice a b : or_else a (or_else a b) = or_else a b.
Proof. now destruct a. Qed.

Lemma or_else_same a : or_else a a = a.
Proof. now destruct a. Qed.

Lemma settled_from_new s s' :
  _current_text_style s = Annotations_new -> _current_href s = None ->
  settled s s' ->
  _current_text_style s' = Annotations_new /\ _current_href s' = None.
Proof.
  intros Hs Hh [Hf Hr]. rewrite Hs in Hf. split.
  - destruct (_current_text_style s') as [b i st u c].
    pose proof (Hf Bold) as Hb. pose proof (Hf Italic) as Hi.
    pose proof (Hf Strikethrough) as Hst. pose proof (Hf Underline) as Hu.
    pose proof (Hf CodeStyle) as Hc. simpl in *.
    destruct b; [now specialize (Hb eq_refl)|].
    destruct i; [now specialize (Hi eq_refl)|].
    destruct st; [now specialize (Hst eq_refl)|].
    destruct u; [now specialize (Hu eq_refl)|].
    destruct c; [now specialize (Hc eq_refl)|].
    reflexivity.
  - destruct Hr as [Hr|Hr]; [exact Hr|now rewrite Hr].
Qed.

Lemma DocumentParser_parse_new name base :
  DocumentParser_parse name (HtmlParser_init base)
  = carry (HtmlParser_init base) (DocumentParser_parse name (HtmlParser_init None)).
Proof.
  unfold carry. destruct name; simpl; rewrite (left_id_L ∅ (∪)); reflexivity.
Qed.

Lemma DocumentParser_parse_again name s1 :
  _current_text_style s1 = Annotations_new -> _current_href s1 = None ->
  DocumentParser_parse name s1
  = carry s1 (DocumentParser_parse name (HtmlParser_init None)).
Proof.
  intros Hs Hh. destruct s1 as [t c m b h st]. simpl in Hs, Hh. subst.
  unfold carry. destruct name; simpl; rewrite (left_id_L ∅ (∪)), app_nil_r; reflexivity.
Qed.

Lemma carry_twice base F :
  carry (carry (HtmlParser_init base) F) F
  = set_content (content (carry (HtmlParser_init base) F)
                 ++ content (carry (HtmlParser_init base) F))
      (carry (HtmlParser_init base) F).
Proof.
  destruct F as [t c m b h st]. unfold carry. simpl.
  rewrite (right_id_L ∅ (∪)), (idemp_L (∪)), or_else_None, or_else_same, or_else_twice.
  reflexivity.
Qed.

(** C3, as the specification states it, fails: the style state, the output
    sequence and the metadata map belong to the parser object, not to the
    call.  The second [parse] of <p>A</p> on the same parser leaves two
    paragraphs in the content, the first parse one. *)
Lemma second_parse_differs :
  let first := set_content [TextBlock Paragraph [Sample.run "A" Sample.plain] []]
                 (HtmlParser_init None) in
  parse None Sample.one_paragraph (HtmlParser_init None) = Returned first
  /\ parse None Sample.one_paragraph first
     = Returned
         (set_content [TextBlock Paragraph [Sample.run "A" Sample.plain] [];
                       TextBlock Paragraph [Sample.run "A" Sample.plain] []]
            (HtmlParser_init None))
  /\ ~ (forall name doc self self1 self2,
          parse name doc self = Returned self1 ->
          parse name doc self1 = Returned self2 ->
          content self2 = content self1).
Proof.
  split; [reflexivity|]. split; [reflexivity|].
  intros H.
  specialize (H None Sample.one_paragraph (HtmlParser_init None) _ _ eq_refl eq_refl).
  discriminate H.
Qed.

(** C3 (amended): the state belongs to the parser object.  When [parse]
    returns on a new parser, every style flag is off and the link target is
    unset again, and a second [parse] of the same input on that parser
    returns as well and appends the very same blocks once more: the content
    is that of the first parse twice over, and the title, the metadata, the
    base URL and the style are as the first parse left them. *)
Theorem second_parse_appends_the_same_blocks name doc base self1 :
  parse name doc (HtmlParser_init base) = Returned self1 ->
  _current_text_style self1 = Annotations_new
  /\ _current_href self1 = None
  /\ parse name doc self1
     = Returned (set_content (content self1 ++ content self1) self1).
Proof.
  unfold parse. rewrite DocumentParser_parse_new, render_carry.
  pose proof (render_settled doc PContent
                (DocumentParser_parse name (HtmlParser_init None))) as Hset.
  destruct (_render doc PContent (DocumentParser_parse name (HtmlParser_init None)))
    as [p F|e p F] eqn:Hr; simpl; [|discriminate].
  intros [= <-].
  assert (Hs0 : _current_text_style (DocumentParser_parse name (HtmlParser_init None))
                = Annotations_new) by (destruct name; reflexivity).
  assert (Hh0 : _current_href (DocumentParser_parse name (HtmlParser_init None)) = None)
    by (destruct name; reflexivity).
  destruct (settled_from_new _ F Hs0 Hh0 Hset) as [Hs Hh].
  split; [exact Hs|]. split; [exact Hh|].
  rewrite (DocumentParser_parse_again name (carry (HtmlParser_init base) F) Hs Hh).
  rewrite render_carry, Hr. simpl. now rewrite carry_twice.
Qed.

Lemma second_parse_appends_the_same_blocks_witness :
  let first := set_content [TextBlock Paragraph [Sample.run "A" Sample.plain] []]
                 (HtmlParser_init None) in
  parse None Sample.one_paragraph (HtmlParser_init None) = Returned first
  /\ parse None Sample.one_paragraph first
     = Returned (set_content (content first ++ content first) first).
Proof.
  split; [reflexivity|].
  exact (proj2 (proj2 (second_parse_appends_the_same_blocks None Sample.one_paragraph
                         None _ eq_refl))).
Defined.

(** * The CSV parser *)

Lemma string_length_append (s1 s2 : string) :
  String.length (s1 +:+ s2) = (String.length s1 + String.length s2)%nat.
Proof. induction s1 as [|c s1 IH]; simpl; [reflexivity|now rewrite IH]. Qed.

(** The renaming loop, with the names it has tried so far: they are all
    taken, pairwise distinct, and shorter than the current one. *)
Lemma rename_fresh_gen names column :
  forall rounds field (seen : list string),
    NoDup seen ->
    (forall x, x ∈ seen -> x ∈ names /\ (String.length x < String.length field)%nat) ->
    (List.length names <= List.length seen + rounds)%nat ->
    Csv.rename rounds names column field ∉ names.
Proof.
  induction rounds as [|rounds IH]; intros field seen Hnd Hseen Hlen;
    cbn [Csv.rename]; case_bool_decide as Hin; try exact Hin.
  - exfalso.
    assert (Hnd' : NoDup (field :: seen)).
    { constructor; [|exact Hnd]. intros Hf. apply Hseen in Hf as [_ Hf]. lia. }
    assert (Hsub : field :: seen ⊆+ names).
    { apply NoDup_submseteq; [exact Hnd'|]. intros x Hx.
      apply elem_of_cons in Hx as [->|Hx]; [exact Hin|now apply Hseen]. }
    apply submseteq_length in Hsub. simpl in Hsub. lia.
  - apply (IH _ (field :: seen)).
    + constructor; [|exact Hnd]. intros Hf. apply Hseen in Hf as [_ Hf]. lia.
    + intros x Hx. rewrite !string_length_append. simpl.
      apply elem_of_cons in Hx as [->|Hx]; [split; [exact Hin|lia]|].
      apply Hseen in Hx as [Hx Hl]. split; [exact Hx|lia].
    + simpl. lia.
Qed.

Lemma csv_rename_free names column field :
  Csv.rename (List.length names) names column field ∉ names.
Proof.
  apply (rename_fresh_gen names column _ field []).
  - constructor.
  - intros x Hx. now apply elem_of_nil in Hx.
  - simpl. lia.
Qed.

(** X1: the renaming loop of [_build_schema] ends: within
    [len(self._field_names)] rounds it reaches a name that is not among the
    field names, and a name that is not taken is left as it is. *)
Theorem csv_rename_gives_a_free_name (names : list string) (column : nat) (field : string) :
  (Csv.rename (List.length names) names column field ∉ names)
  /\ (field ∉ names ->
      forall rounds, Csv.rename rounds names column field = field).
Proof.
  split.
  - apply csv_rename_free.
  - intros Hf [|rounds]; cbn [Csv.rename]; now rewrite bool_decide_eq_false_2.
Qed.

Lemma csv_rename_gives_a_free_name_witness :
  ("a" ∉ ["b"]) /\ Csv.rename 5 ["b"] 1 "a" = "a".
Proof.
  assert (H : "a" ∉ ["b"]) by (intros H; apply list_elem_of_singleton in H; discriminate).
  split; [exact H|].
  exact (proj2 (csv_rename_gives_a_free_name ["b"] 1 "a") H 5).
Defined.

(** ** The schema *)

Lemma add_field_built self column field :
  schema_built self ->
  List.length (Csv._field_names self) = column ->
  field ∉ Csv._field_names self ->
  schema_built
    (Csv.add_field field (column_class (Csv._title_index self) column) self).
Proof.
  intros (Hnd & Hcls & Hkeys) Hlen Hfresh. unfold schema_built. simpl.
  split; [|split].
  - apply NoDup_app. split; [exact Hnd|]. split; [|apply NoDup_singleton].
    intros x Hx Hx'. apply list_elem_of_singleton in Hx'. now subst.
  - intros j name Hj. destruct (decide (j < column)%nat) as [Hlt|Hge].
    + rewrite lookup_app_l in Hj by lia.
      rewrite lookup_insert_ne; [now apply Hcls|].
      intros ->. apply Hfresh. eapply list_elem_of_lookup_2, Hj.
    + rewrite lookup_app_r in Hj by lia. rewrite Hlen in Hj.
      destruct (j - column)%nat as [|k] eqn:Hk; [|now destruct k].
      injection Hj as <-. assert (j = column) as -> by lia.
      apply lookup_insert_eq.
  - intros name Hs. apply elem_of_app.
    destruct (decide (field = name)) as [->|Hne]; [right; apply list_elem_of_singleton; reflexivity|].
    left. apply Hkeys. now rewrite lookup_insert_ne in Hs.
Qed.

Lemma schema_loop_built fields :
  forall column self,
    schema_built self ->
    List.length (Csv._field_names self) = column ->
    let self' := Csv.schema_loop fields column self in
    schema_built self'
    /\ List.length (Csv._field_names self') = (column + List.length fields)%nat
    /\ Csv.title self' = Csv.title self /\ Csv.content self' = Csv.content self
    /\ Csv._has_header self' = Csv._has_header self
    /\ Csv._title_index self' = Csv._title_index self.
Proof.
  induction fields as [|field fields IH]; intros column self Hb Hlen; cbn zeta.
  - simpl. rewrite Nat.add_0_r. tauto.
  - cbn [Csv.schema_loop].
    set (name := Csv.rename _ _ column (Py.strip field)).
    change (if (Z.of_nat column =? Csv._title_index self)%Z
            then Csv.Title else Csv.RichText)
      with (column_class (Csv._title_index self) column).
    assert (Hfresh : name ∉ Csv._field_names self)
      by apply csv_rename_free.
    pose proof (add_field_built self column name Hb Hlen Hfresh) as Hb'.
    specialize (IH (S column) _ Hb').
    cbn zeta in IH. cbn [List.length].
    destruct IH as (H1 & H2 & H3 & H4 & H5 & H6).
    { simpl. rewrite length_app. simpl. lia. }
    split; [exact H1|]. split; [rewrite H2; lia|]. now rewrite H3, H4, H5, H6.
Qed.

(** X2: [_build_schema] refuses an empty header and leaves the parser as it
    was.  On a new parser and a header that is not empty it returns with one
    field name per column, the names pairwise distinct, and a schema that
    has exactly the field names as keys, each with the class of its column;
    nothing else of the parser changes. *)
Theorem csv_build_schema (header_row : bool) (title_column : Z) :
  (forall self,
     Csv._build_schema [] self
     = Csv.Raise (Csv.ValueError "Invalid CSV: empty header") self)
  /\ (forall fields,
        fields <> [] ->
        exists self',
          Csv._build_schema fields (Csv.__init__ header_row title_column) = Csv.Ok self'
          /\ schema_built self'
          /\ List.length (Csv._field_names self') = List.length fields
          /\ Csv.content self' = [] /\ Csv.title self' = None
          /\ Csv._has_header self' = header_row
          /\ Csv._title_index self' = title_column).
Proof.
  split; [reflexivity|].
  intros fields Hne. unfold Csv._build_schema.
  destruct fields as [|f fields]; [contradiction|]. cbn [List.length Nat.ltb Nat.leb].
  eexists. split; [reflexivity|].
  pose proof (schema_loop_built (f :: fields) 0 (Csv.__init__ header_row title_column))
    as H.
  cbn zeta in H. destruct H as (H1 & H2 & H3 & H4 & H5 & H6).
  - split; [constructor|]. split.
    + intros j name Hj. discriminate Hj.
    + intros name [x Hx]. simpl in Hx. now rewrite lookup_empty in Hx.
  - reflexivity.
  - split; [exact H1|]. split; [exact H2|]. split; [exact H4|].
    split; [exact H3|]. split; [exact H5|exact H6].
Qed.

Lemma csv_build_schema_witness :
  exists self',
    Csv._build_schema ["a"; "a"] (Csv.__init__ true 0) = Csv.Ok self'
    /\ Csv._field_names self' = ["a"; "a_1"].
Proof.
  destruct (proj2 (csv_build_schema true 0) ["a"; "a"] ltac:(discriminate))
    as (self' & Hr & _).
  exists self'. split; [exact Hr|].
  injection Hr as <-. reflexivity.
Defined.

(** In a built schema the field of column [j] has the class [Title] exactly
    when [j] is the title column. *)
Lemma schema_built_title (self : Csv.CsvParser) :
  schema_built self ->
  (forall j name,
     Csv._field_names self !! j = Some name ->
     (Csv.schema self !! name = Some Csv.Title <-> Z.of_nat j = Csv._title_index self))
  /\ ((Csv._title_index self < 0
       \/ Z.of_nat (List.length (Csv._field_names self)) <= Csv._title_index self)%Z ->
      forall name, Csv.schema self !! name <> Some Csv.Title).
Proof.
  intros (Hnd & Hcls & Hkeys).
  assert (Hiff : forall j name,
            Csv._field_names self !! j = Some name ->
            (Csv.schema self !! name = Some Csv.Title
             <-> Z.of_nat j = Csv._title_index self)).
  { intros j name Hj. rewrite (Hcls j name Hj). unfold column_class.
    destruct (Z.eqb_spec (Z.of_nat j) (Csv._title_index self)) as [He|Hne].
    - split; [intros _; exact He|reflexivity].
    - split; [discriminate|intros He; contradiction]. }
  split; [exact Hiff|].
  intros Hout name Hname.
  assert (Hin : name ∈ Csv._field_names self) by (apply Hkeys; now rewrite Hname).
  apply list_elem_of_lookup in Hin as [j Hj].
  pose proof (lookup_lt_Some _ _ _ Hj) as Hlt.
  apply (Hiff j name Hj) in Hname. lia.
Qed.

(** ** The records *)

Lemma record_loop_fills title_index fields :
  forall rest column record,
    NoDup rest ->
    (column + List.length rest <= List.length fields)%nat ->
    exists record',
      Csv.record_loop rest fields column title_index record = Some record'
      /\ (forall i name, rest !! i = Some name ->
            exists value,
              fields !! (column + i)%nat = Some value
              /\ record' !! name
                 = Some (column_value title_index (column + i) value))
      /\ (forall name, name ∉ rest -> record' !! name = record !! name).
Proof.
  induction rest as [|col rest IH]; intros column record Hnd Hlen.
  - exists record. split; [reflexivity|]. split; [intros i name Hi; discriminate Hi|auto].
  - cbn [Csv.record_loop]. simpl in Hlen.
    destruct (lookup_lt_is_Some_2 fields column ltac:(lia)) as [value Hv].
    rewrite Hv. apply NoDup_cons in Hnd as [Hcol Hnd].
    destruct (IH (S column) (<[col := column_value title_index column value]> record) Hnd
                ltac:(lia)) as (record' & Hr & Hin & Hout).
    exists record'. split; [exact Hr|]. split.
    + intros [|i] name Hi.
      * injection Hi as <-. exists value. rewrite Nat.add_0_r. split; [exact Hv|].
        rewrite (Hout col Hcol). apply lookup_insert_eq.
      * destruct (Hin i name Hi) as (v & Hf & Hrec).
        exists v. replace (column + S i)%nat with (S column + i)%nat by lia. now split.
    + intros name Hname. apply not_elem_of_cons in Hname as [Hne Hname].
      rewrite (Hout name Hname). now apply lookup_insert_ne.
Qed.

Lemma csv_build_record_gen (fields : list string) (self : Csv.CsvParser) :
  NoDup (Csv._field_names self) ->
  (List.length fields = List.length (Csv._field_names self) ->
   exists record,
     Csv._build_record fields self
     = Csv.Ok (Csv.set_content (Csv.content self ++ [record]) self)
     /\ record_of (Csv._title_index self) (Csv._field_names self) fields record)
  /\ (List.length fields <> List.length (Csv._field_names self) ->
      Csv._build_record fields self
      = Csv.Raise (Csv.ValueError "Invalid CSV: incorrect number of fields in data") self).
Proof.
  intros Hnd. unfold Csv._build_record. split; intros Hlen.
  - rewrite (proj2 (Nat.eqb_eq _ _) Hlen). cbn [negb].
    destruct (record_loop_fills (Csv._title_index self) fields (Csv._field_names self)
                0 ∅ Hnd ltac:(simpl; lia)) as (record & Hr & Hin & Hout).
    rewrite Hr. exists record. split; [reflexivity|]. split.
    + intros j name Hj. exact (Hin j name Hj).
    + intros name [v Hv]. destruct (decide (name ∈ Csv._field_names self)) as [|Hn];
        [assumption|]. rewrite (Hout name Hn), lookup_empty in Hv. discriminate Hv.
  - now rewrite (proj2 (Nat.eqb_neq _ _) Hlen).
Qed.

(** X4: [_build_record] on a parser with pairwise distinct field names.  A
    row with as many fields as there are field names is appended to the
    content as one record that has the field names as its keys and, under the
    name of each column, the field of that column in the class of the
    column; [fields[column]] never raises.  A row of any other length raises
    [ValueError] and leaves the parser as it was. *)
Theorem csv_build_record (fields : list string) (self : Csv.CsvParser) :
  NoDup (Csv._field_names self) ->
  (List.length fields = List.length (Csv._field_names self) ->
   exists record,
     Csv._build_record fields self
     = Csv.Ok (Csv.set_content (Csv.content self ++ [record]) self)
     /\ record_of (Csv._title_index self) (Csv._field_names self) fields record)
  /\ (List.length fields <> List.length (Csv._field_names self) ->
      Csv._build_record fields self
      = Csv.Raise (Csv.ValueError "Invalid CSV: incorrect number of fields in data") self).
Proof. exact (csv_build_record_gen fields self). Qed.

Lemma csv_build_record_witness :
  let self := Csv.schema_loop ["a"; "b"] 0 (Csv.__init__ true 0) in
  NoDup (Csv._field_names self)
  /\ Csv._build_record ["1"] self
     = Csv.Raise (Csv.ValueError "Invalid CSV: incorrect number of fields in data") self.
Proof.
  assert (Hnd : NoDup (Csv._field_names
                         (Csv.schema_loop ["a"; "b"] 0 (Csv.__init__ true 0)))).
  { apply NoDup_cons. split; [|apply NoDup_singleton].
    intros H. apply list_elem_of_singleton in H. discriminate H. }
  split; [exact Hnd|].
  exact (proj2 (csv_build_record ["1"] _ Hnd) ltac:(discriminate)).
Defined.

Lemma build_record_keeps fields self self' :
  Csv._build_record fields self = Csv.Ok self' ->
  Csv._field_names self' = Csv._field_names self
  /\ Csv.schema self' = Csv.schema self
  /\ Csv._title_index self' = Csv._title_index self
  /\ Csv._has_header self' = Csv._has_header self
  /\ Csv.title self' = Csv.title self.
Proof.
  unfold Csv._build_record. case_if; [discriminate|].
  destruct (Csv.record_loop _ _ _ _ _); [|discriminate]. now intros [= <-].
Qed.

(** The loop over the entries: records for the rows of the right length,
    up to the first row of another length. *)
Lemma entries_loop_good entries :
  forall self,
    NoDup (Csv._field_names self) ->
    Forall (fun e => List.length e = List.length (Csv._field_names self)) entries ->
    exists records,
      Csv.entries_loop entries self
      = Csv.Ok (Csv.set_content (Csv.content self ++ records) self)
      /\ Forall2 (record_of (Csv._title_index self) (Csv._field_names self))
           entries records.
Proof.
  induction entries as [|entry entries IH]; intros self Hnd Hall.
  - exists []. split; [|constructor]. simpl. rewrite app_nil_r. now destruct self.
  - apply Forall_cons in Hall as [Hlen Hall]. cbn [Csv.entries_loop].
    destruct (proj1 (csv_build_record_gen entry self Hnd) Hlen) as (record & Hr & Hrec).
    rewrite Hr.
    destruct (IH (Csv.set_content (Csv.content self ++ [record]) self) Hnd Hall)
      as (records & Hl & Hrecs).
    exists (record :: records). split; [|now constructor].
    rewrite Hl. simpl. now rewrite <- app_assoc.
Qed.

Lemma entries_loop_bad good bad rest :
  forall self,
    NoDup (Csv._field_names self) ->
    Forall (fun e => List.length e = List.length (Csv._field_names self)) good ->
    List.length bad <> List.length (Csv._field_names self) ->
    exists records,
      Csv.entries_loop (good ++ bad :: rest) self
      = Csv.Raise (Csv.ValueError "Invalid CSV: incorrect number of fields in data")
          (Csv.set_content (Csv.content self ++ records) self)
      /\ Forall2 (record_of (Csv._title_index self) (Csv._field_names self))
           good records.
Proof.
  induction good as [|entry good IH]; intros self Hnd Hall Hbad.
  - exists []. split; [|constructor]. cbn [app Csv.entries_loop].
    rewrite (proj2 (csv_build_record_gen bad self Hnd) Hbad).
    simpl. rewrite app_nil_r. now destruct self.
  - apply Forall_cons in Hall as [Hlen Hall]. cbn [app Csv.entries_loop].
    destruct (proj1 (csv_build_record_gen entry self Hnd) Hlen) as (record & Hr & Hrec).
    rewrite Hr.
    destruct (IH (Csv.set_content (Csv.content self ++ [record]) self) Hnd Hall Hbad)
      as (records & Hl & Hrecs).
    exists (record :: records). split; [|now constructor].
    rewrite Hl. simpl. now rewrite <- app_assoc.
Qed.

(** ** A whole parse *)

Lemma csv_named_new name header_row title_column :
  let self0 :=
    match name with
    | Some n => Csv.set_title (Some (Py.basename n)) (Csv.__init__ header_row title_column)
    | None => Csv.__init__ header_row title_column
    end in
  schema_built self0 /\ Csv._field_names self0 = []
  /\ Csv._title_index self0 = title_column
  /\ Csv._has_header self0 = header_row
  /\ Csv.title self0 = Py.basename <$> name /\ Csv.content self0 = [].
Proof.
  cbn zeta. destruct name; simpl; (split; [|tauto]);
    (split; [constructor|]); (split; [intros j x Hj; discriminate Hj|]);
    intros x [v Hv]; simpl in Hv; now rewrite lookup_empty in Hv.
Qed.

Lemma csv_after_header self0 header :
  schema_built self0 -> Csv._field_names self0 = [] -> Csv.content self0 = [] ->
  header <> [] ->
  exists self1 first,
    (if Csv._has_header self0
     then Csv._build_schema header self0
     else match Csv._build_schema (Csv.str <$> seq 0 (List.length header)) self0 with
          | Csv.Ok self => Csv._build_record header self
          | Csv.Raise e self => Csv.Raise e self
          end)
    = Csv.Ok self1
    /\ schema_built self1
    /\ List.length (Csv._field_names self1) = List.length header
    /\ Csv._title_index self1 = Csv._title_index self0
    /\ Csv.title self1 = Csv.title self0
    /\ Csv.content self1 = first
    /\ Forall2 (record_of (Csv._title_index self0) (Csv._field_names self1))
         (if Csv._has_header self0 then [] else [header]) first
    /\ (forall s,
          Csv._build_schema
            (if Csv._has_header self0 then header
             else Csv.str <$> seq 0 (List.length header)) self0 = Csv.Ok s ->
          Csv._field_names self1 = Csv._field_names s).
Proof.
  intros Hb0 Hn0 Hc0 Hne.
  assert (Hschema : forall fields, fields <> [] ->
            exists self1, Csv._build_schema fields self0 = Csv.Ok self1
              /\ schema_built self1
              /\ List.length (Csv._field_names self1) = List.length fields
              /\ Csv._title_index self1 = Csv._title_index self0
              /\ Csv.title self1 = Csv.title self0 /\ Csv.content self1 = []).
  { intros fields Hf. unfold Csv._build_schema.
    destruct fields as [|f fields]; [contradiction|]. cbn [List.length Nat.ltb Nat.leb].
    eexists. split; [reflexivity|].
    pose proof (schema_loop_built (f :: fields) 0 self0 Hb0) as H. cbn zeta in H.
    destruct H as (H1 & H2 & H3 & H4 & H5 & H6); [now rewrite Hn0|].
    split; [exact H1|]. split; [exact H2|]. rewrite H6, H3, H4. tauto. }
  destruct (Csv._has_header self0).
  - destruct (Hschema header Hne) as (self1 & Hr & Hb & Hlen & Hti & Htt & Hc).
    exists self1, []. rewrite Hr. split; [reflexivity|].
    repeat (split; [assumption|]). split; [constructor|].
    now intros s [= <-].
  - destruct (Hschema (Csv.str <$> seq 0 (List.length header)))
      as (self1 & Hr & Hb & Hlen & Hti & Htt & Hc).
    { destruct header; [contradiction|discriminate]. }
    rewrite length_fmap, length_seq in Hlen. rewrite Hr.
    destruct (proj1 (csv_build_record_gen header self1 (proj1 Hb)) (eq_sym Hlen))
      as (record & Hrec & Hof).
    rewrite Hrec, Hc. eexists _, _. split; [reflexivity|]. simpl.
    split; [exact Hb|]. split; [exact Hlen|]. split; [exact Hti|]. split; [exact Htt|].
    split; [reflexivity|]. split; [constructor; [|constructor]; now rewrite <- Hti|].
    intros s [= <-]. reflexivity.
Qed.

Lemma csv_parse_returns_gen name header_row title_column header entries :
  header <> [] ->
  Forall (fun e => List.length e = List.length header) entries ->
  exists self',
    Csv.parse name (header :: entries) (Csv.__init__ header_row title_column)
    = Csv.Ok self'
    /\ schema_built self'
    /\ List.length (Csv._field_names self') = List.length header
    /\ Forall2 (record_of title_column (Csv._field_names self'))
         (if header_row then entries else header :: entries) (Csv.content self')
    /\ Csv.title self' = Py.basename <$> name
    /\ (forall s,
          Csv._build_schema
            (if header_row then header else Csv.str <$> seq 0 (List.length header))
            (match name with
             | Some n => Csv.set_title (Some (Py.basename n))
                           (Csv.__init__ header_row title_column)
             | None => Csv.__init__ header_row title_column
             end) = Csv.Ok s ->
          Csv._field_names self' = Csv._field_names s).
Proof.
  intros Hne Hall. unfold Csv.parse, Csv._process.
  pose proof (csv_named_new name header_row title_column) as H0. cbn zeta in H0.
  destruct H0 as (Hb0 & Hn0 & Hti0 & Hh0 & Htt0 & Hc0).
  destruct (csv_after_header _ header Hb0 Hn0 Hc0 Hne)
    as (self1 & first & Hr & Hb & Hlen & Hti & Htt & Hc & Hfirst & Hnames).
  rewrite Hh0 in *. rewrite Hti0 in *. rewrite Htt0 in Htt.
  destruct header_row; rewrite Hr;
    (destruct (entries_loop_good entries self1 (proj1 Hb)) as (records & Hl & Hrecs);
     [now rewrite Hlen|]);
    rewrite Hl; eexists; (split; [reflexivity|]); simpl;
    (split; [exact Hb|]); (split; [exact Hlen|]);
    (split; [|split; [exact Htt|first [exact Hnames|now intros s [= <-]]]]);
    rewrite Hc, Hti in *.
  - inversion Hfirst; subst. exact Hrecs.
  - inversion Hfirst as [|? r ? rs Hrec Hnil]; subst. inversion Hnil; subst.
    simpl. constructor; [exact Hrec|exact Hrecs].
Qed.

(** X5: a parse that goes through.  On a new parser, rows whose first is not
    empty and whose others all have its length make [parse] return: the
    schema is built with one field per column, and the content holds one
    record per data row, in the order of the rows, each with the fields of
    its row under the field names.  The data rows are the rows after the
    header, and with [header_row=False] the first row as well.  The title is
    the base name of [data.name], if there is one. *)
Theorem csv_parse_returns name header_row title_column header entries :
  header <> [] ->
  Forall (fun e => List.length e = List.length header) entries ->
  exists self',
    Csv.parse name (header :: entries) (Csv.__init__ header_row title_column)
    = Csv.Ok self'
    /\ schema_built self'
    /\ List.length (Csv._field_names self') = List.length header
    /\ Forall2 (record_of title_column (Csv._field_names self'))
         (if header_row then entries else header :: entries) (Csv.content self')
    /\ Csv.title self' = Py.basename <$> name.
Proof.
  intros Hne Hall.
  destruct (csv_parse_returns_gen name header_row title_column header entries Hne Hall)
    as (self' & Hr & Hb & Hlen & Hrecs & Ht & _).
  exists self'. tauto.
Qed.

Lemma csv_parse_returns_witness :
  exists self',
    Csv.parse (Some "dir/people.csv") [["name"; "age"]; ["Ann"; "7"]] (Csv.__init__ true 0)
    = Csv.Ok self'
    /\ Csv.title self' = Some "people.csv".
Proof.
  destruct (csv_parse_returns (Some "dir/people.csv") true 0 ["name"; "age"]
              [["Ann"; "7"]] ltac:(discriminate)
              ltac:(repeat constructor))
    as (self' & Hr & _ & _ & _ & Ht).
  exists self'. split; [exact Hr|exact Ht].
Defined.

(** X6: a parse that fails.  No row at all raises "empty data" and an empty
    first row raises "empty header", with or without a header row; the
    parser has then only its title set.  A data row whose length differs
    from that of the first row raises "incorrect number of fields" when its
    turn comes: the schema is built by then and the records of the data rows
    before it stay in the content. *)
Theorem csv_parse_raises name header_row title_column :
  let self0 :=
    match name with
    | Some n => Csv.set_title (Some (Py.basename n)) (Csv.__init__ header_row title_column)
    | None => Csv.__init__ header_row title_column
    end in
  Csv.parse name [] (Csv.__init__ header_row title_column)
  = Csv.Raise (Csv.ValueError "Invalid CSV: empty data") self0
  /\ (forall entries,
        Csv.parse name ([] :: entries) (Csv.__init__ header_row title_column)
        = Csv.Raise (Csv.ValueError "Invalid CSV: empty header") self0)
  /\ (forall header good bad rest,
        header <> [] ->
        Forall (fun e => List.length e = List.length header) good ->
        List.length bad <> List.length header ->
        exists self',
          Csv.parse name (header :: good ++ bad :: rest)
            (Csv.__init__ header_row title_column)
          = Csv.Raise (Csv.ValueError "Invalid CSV: incorrect number of fields in data")
              self'
          /\ schema_built self'
          /\ Forall2 (record_of title_column (Csv._field_names self'))
               (if header_row then good else header :: good) (Csv.content self')).
Proof.
  cbn zeta. split; [reflexivity|]. split.
  - intros entries. unfold Csv.parse, Csv._process.
    destruct name, header_row; reflexivity.
  - intros header good bad rest Hne Hgood Hbad. unfold Csv.parse, Csv._process.
    pose proof (csv_named_new name header_row title_column) as H0. cbn zeta in H0.
    destruct H0 as (Hb0 & Hn0 & Hti0 & Hh0 & Htt0 & Hc0).
    destruct (csv_after_header _ header Hb0 Hn0 Hc0 Hne)
      as (self1 & first & Hr & Hb & Hlen & Hti & Htt & Hc & Hfirst & _).
    rewrite Hh0 in *. rewrite Hti0 in *.
    destruct header_row; rewrite Hr;
      (destruct (entries_loop_bad good bad rest self1 (proj1 Hb))
         as (records & Hl & Hrecs); [now rewrite Hlen|now rewrite Hlen|]);
      rewrite Hl; eexists; (split; [reflexivity|]); simpl;
      (split; [exact Hb|]); rewrite Hc, Hti in *.
    + inversion Hfirst; subst. exact Hrecs.
    + inversion Hfirst as [|? r ? rs Hrec Hnil]; subst. inversion Hnil; subst.
      simpl. constructor; [exact Hrec|exact Hrecs].
Qed.

Lemma csv_parse_raises_witness :
  exists self',
    Csv.parse None (["a"; "b"] :: [["1"; "2"]] ++ ["3"] :: []) (Csv.__init__ true 0)
    = Csv.Raise (Csv.ValueError "Invalid CSV: incorrect number of fields in data") self'
    /\ List.length (Csv.content self') = 1%nat.
Proof.
  destruct (proj2 (proj2 (csv_parse_raises None true 0)) ["a"; "b"] [["1"; "2"]] ["3"] []
              ltac:(discriminate) ltac:(repeat constructor) ltac:(discriminate))
    as (self' & Hr & _ & Hrecs).
  exists self'. split; [exact Hr|].
  apply Forall2_length in Hrecs. now rewrite <- Hrecs.
Defined.

(** ** The field names *)

Lemma rename_not_taken names column field :
  field ∉ names -> forall rounds, Csv.rename rounds names column field = field.
Proof. intros Hf [|rounds]; cbn [Csv.rename]; now rewrite bool_decide_eq_false_2. Qed.

Lemma schema_loop_names fields :
  forall column self,
    NoDup (Csv._field_names self ++ (Py.strip <$> fields)) ->
    Csv._field_names (Csv.schema_loop fields column self)
    = Csv._field_names self ++ (Py.strip <$> fields).
Proof.
  induction fields as [|field fields IH]; intros column self Hnd.
  - simpl. now rewrite app_nil_r.
  - cbn [Csv.schema_loop]. rewrite fmap_cons in Hnd.
    assert (Hfree : Py.strip field ∉ Csv._field_names self).
    { apply NoDup_app in Hnd as (_ & Hd & _). intros Hin.
      apply (Hd _ Hin). now left. }
    rewrite (rename_not_taken _ column _ Hfree).
    rewrite IH; simpl; rewrite <- app_assoc; [reflexivity|exact Hnd].
Qed.

Lemma no_space_strip s : no_space s = true -> Py.strip s = s.
Proof.
  intros Hs. unfold Py.strip.
  assert (Hl : Py.lstrip s = s).
  { destruct s as [|c s]; [reflexivity|]. simpl in *.
    now destruct (Py.Py_UNICODE_ISSPACE c). }
  rewrite Hl. clear Hl.
  induction s as [|c s IH]; [reflexivity|]. cbn [no_space] in Hs.
  apply andb_prop in Hs as [Hc Hs]. cbn [Py.rstrip]. rewrite (IH Hs).
  destruct s; [|reflexivity]. now destruct (Py.Py_UNICODE_ISSPACE c).
Qed.

Lemma str_no_space n : no_space (Csv.str n) = true.
Proof.
  unfold Csv.str.
  assert (H : forall d, no_space (NilEmpty.string_of_uint d) = true).
  { induction d; simpl; try reflexivity; exact IHd. }
  unfold NilZero.string_of_uint. destruct (Nat.to_uint n); try apply H. reflexivity.
Qed.

Lemma str_inj n m : Csv.str n = Csv.str m -> n = m.
Proof.
  unfold Csv.str. intros H. apply Unsigned.to_uint_inj.
  assert (Hnn : forall k, Nat.to_uint k <> Decimal.Nil).
  { intros k Hk. pose proof (Unsigned.to_of (Nat.to_uint k)) as Ht.
    rewrite Unsigned.of_to, Hk in Ht. discriminate Ht. }
  pose proof (NilZero.usu _ (Hnn n)) as Hn. pose proof (NilZero.usu _ (Hnn m)) as Hm.
  rewrite H in Hn. rewrite Hn in Hm. now injection Hm.
Qed.

(** X7: the field names of a new parser.  When the stripped header fields
    are pairwise distinct, they are the field names, unchanged and in their
    order; renaming only ever touches a name that is already taken.  With
    [header_row=False] the field names are the column numbers "0", "1", ...
    in decimal. *)
Theorem csv_field_names (title_column : Z) (header : list string) :
  header <> [] ->
  (forall header_row,
     NoDup (Py.strip <$> header) ->
     exists self',
       Csv._build_schema header (Csv.__init__ header_row title_column) = Csv.Ok self'
       /\ Csv._field_names self' = Py.strip <$> header)
  /\ (forall name entries,
        Forall (fun e => List.length e = List.length header) entries ->
        exists self',
          Csv.parse name (header :: entries) (Csv.__init__ false title_column)
          = Csv.Ok self'
          /\ Csv._field_names self' = Csv.str <$> seq 0 (List.length header)).
Proof.
  intros Hne.
  assert (Hschema : forall self fields, fields <> [] -> Csv._field_names self = [] ->
            NoDup (Py.strip <$> fields) ->
            exists self', Csv._build_schema fields self = Csv.Ok self'
              /\ Csv._field_names self' = Py.strip <$> fields).
  { intros self fields Hf Hn Hnd. unfold Csv._build_schema.
    destruct fields as [|f fields]; [contradiction|]. cbn [List.length Nat.ltb Nat.leb].
    eexists. split; [reflexivity|].
    rewrite schema_loop_names; rewrite Hn; [reflexivity|exact Hnd]. }
  split.
  - intros header_row Hnd. now apply Hschema.
  - intros name entries Hall.
    destruct (csv_parse_returns_gen name false title_column header entries Hne Hall)
      as (self' & Hr & Hb & Hlen & Hrecs & Ht & Hnames).
    exists self'. split; [exact Hr|].
    set (cols := Csv.str <$> seq 0 (List.length header)) in *.
    assert (Hstrip : Py.strip <$> cols = cols).
    { unfold cols. rewrite <- list_fmap_compose. apply list_fmap_ext.
      intros i x _. apply no_space_strip, str_no_space. }
    assert (Hnd : NoDup (Py.strip <$> cols)).
    { rewrite Hstrip. unfold cols. apply NoDup_fmap_2; [|apply NoDup_seq].
      intros n m. apply str_inj. }
    destruct (Hschema (match name with
                       | Some n => Csv.set_title (Some (Py.basename n))
                                     (Csv.__init__ false title_column)
                       | None => Csv.__init__ false title_column
                       end) cols) as (self1 & Hr1 & Hn1).
    { unfold cols. destruct header; [contradiction|discriminate]. }
    { now destruct name. }
    { exact Hnd. }
    rewrite (Hnames self1 Hr1), Hn1. exact Hstrip.
Qed.

Lemma csv_field_names_witness :
  exists self',
    Csv._build_schema [" a "; "b"] (Csv.__init__ true 0) = Csv.Ok self'
    /\ Csv._field_names self' = ["a"; "b"].
Proof.
  assert (Hnd : NoDup (Py.strip <$> [" a "; "b"])).
  { apply NoDup_cons. split; [|apply NoDup_singleton].
    intros H. apply list_elem_of_singleton in H. discriminate H. }
  exact (proj1 (csv_field_names 0 [" a "; "b"] ltac:(discriminate)) true Hnd).
Defined.

(** ** The title column *)

Lemma schema_loop_index fields :
  forall column self,
    Csv._title_index (Csv.schema_loop fields column self) = Csv._title_index self.
Proof.
  induction fields as [|field fields IH]; intros column self; [reflexivity|].
  cbn [Csv.schema_loop]. now rewrite IH.
Qed.

Lemma build_schema_index fields self self' :
  Csv._build_schema fields self = Csv.Ok self' ->
  Csv._title_index self' = Csv._title_index self.
Proof.
  unfold Csv._build_schema. case_if; [discriminate|].
  intros [= <-]. apply schema_loop_index.
Qed.

Lemma entries_loop_index entries :
  forall self self',
    Csv.entries_loop entries self = Csv.Ok self' ->
    Csv._title_index self' = Csv._title_index self.
Proof.
  induction entries as [|entry entries IH]; intros self self'; simpl.
  - now intros [= <-].
  - destruct (Csv._build_record entry self) as [s1|e s1] eqn:Hr; [|discriminate].
    intros Hl. rewrite (IH _ _ Hl). now apply build_record_keeps in Hr.
Qed.

Lemma parse_index name rows self self' :
  Csv.parse name rows self = Csv.Ok self' ->
  Csv._title_index self' = Csv._title_index self.
Proof.
  unfold Csv.parse, Csv._process. destruct rows as [|header entries]; [discriminate|].
  set (self0 := match name with
                | Some n => Csv.set_title (Some (Py.basename n)) self
                | None => self
                end).
  assert (H0 : Csv._title_index self0 = Csv._title_index self) by now destruct name.
  rewrite <- H0. clearbody self0. clear H0.
  destruct (Csv._has_header self0).
  - destruct (Csv._build_schema header self0) as [s1|e s1] eqn:Hs; [|discriminate].
    intros Hl. apply entries_loop_index in Hl. apply build_schema_index in Hs. congruence.
  - destruct (Csv._build_schema _ self0) as [s1|e s1] eqn:Hs; [|discriminate].
    destruct (Csv._build_record header s1) as [s2|e s2] eqn:Hr; [|discriminate].
    intros Hl. apply entries_loop_index in Hl. apply build_schema_index in Hs.
    apply build_record_keeps in Hr. destruct Hr as (_ & _ & Hr & _). congruence.
Qed.

(** X3: the title column of a parse.  After [parse] has returned on a new
    parser, the field of column [j] is a [Title] in the schema exactly when
    [j] is [title_column]; the renaming keeps the field names apart, so no
    later column overwrites that entry.  With a [title_column] that is
    negative or beyond the last column the parse returns all the same, and
    then no field of the schema is a [Title] and no value of any record is a
    title value. *)
Theorem csv_title_column name header_row title_column header entries :
  header <> [] ->
  Forall (fun e => List.length e = List.length header) entries ->
  exists self',
    Csv.parse name (header :: entries) (Csv.__init__ header_row title_column)
    = Csv.Ok self'
    /\ (forall j field,
          Csv._field_names self' !! j = Some field ->
          (Csv.schema self' !! field = Some Csv.Title <-> Z.of_nat j = title_column))
    /\ ((title_column < 0 \/ Z.of_nat (List.length header) <= title_column)%Z ->
        (forall field, Csv.schema self' !! field <> Some Csv.Title)
        /\ Forall (fun record =>
                     forall field value,
                       record !! field <> Some (Csv.Title_from_value value))
             (Csv.content self')).
Proof.
  intros Hne Hall.
  destruct (csv_parse_returns_gen name header_row title_column header entries Hne Hall)
    as (self' & Hr & Hb & Hlen & Hrec & _).
  pose proof (parse_index _ _ _ _ Hr) as Hidx. cbn [Csv.__init__ Csv._title_index] in Hidx.
  destruct (schema_built_title self' Hb) as [Hiff Hout]. rewrite Hidx, Hlen in *.
  exists self'. split; [exact Hr|]. split; [exact Hiff|].
  intros Hrange. split; [now apply Hout|].
  clear Hr. induction Hrec as [|fields record rows records [Hcols Hkeys] _ IH];
    constructor; [|exact IH].
  intros field value Hv.
  assert (Hin : field ∈ Csv._field_names self') by (apply Hkeys; now rewrite Hv).
  apply list_elem_of_lookup in Hin as [j Hj].
  pose proof (lookup_lt_Some _ _ _ Hj) as Hlt. rewrite Hlen in Hlt.
  destruct (Hcols j field Hj) as (v & _ & Hcell). rewrite Hv in Hcell.
  unfold column_value in Hcell.
  destruct (Z.eqb_spec (Z.of_nat j) title_column) as [He|_]; [lia|discriminate].
Qed.

Lemma csv_title_column_witness :
  exists self',
    Csv.parse None [["a"; "b"]; ["1"; "2"]] (Csv.__init__ true 5) = Csv.Ok self'
    /\ Csv.schema self' !! "a" <> Some Csv.Title.
Proof.
  destruct (csv_title_column None true 5 ["a"; "b"] [["1"; "2"]]
              ltac:(discriminate) ltac:(repeat constructor))
    as (self' & Hr & _ & Hout).
  exists self'. split; [exact Hr|].
  apply (proj1 (Hout ltac:(right; simpl; lia))).
Defined.

(** * More on the HTML parser *)

(** ** Text normalisation *)

Lemma single_spaced_fixed b s : single_spaced b s = true -> Py.sub_spaces b s = s.
Proof.
  revert b. induction s as [|c s IH]; intros b; [reflexivity|].
  cbn [single_spaced Py.sub_spaces]. destruct (Py.Py_UNICODE_ISSPACE c).
  - intros H. apply andb_prop in H as [H Hs]. apply andb_prop in H as [Hc Hb].
    apply Ascii.eqb_eq in Hc as ->. destruct b; [discriminate Hb|].
    now rewrite (IH true Hs).
  - intros Hs. now rewrite (IH false Hs).
Qed.

Lemma sub_spaces_not_empty s :
  Py.rstrip s <> EmptyString -> forall b, Py.sub_spaces b s <> EmptyString.
Proof.
  induction s as [|c s IH]; intros Hs b; [now destruct Hs|].
  cbn [Py.sub_spaces Py.rstrip] in *. destruct (Py.Py_UNICODE_ISSPACE c).
  - assert (Hr : Py.rstrip s <> EmptyString)
      by (intros Hr; rewrite Hr in Hs; now destruct Hs).
    destruct b; [now apply IH|discriminate].
  - discriminate.
Qed.

Lemma rstrip_cons_nonempty c s :
  s <> EmptyString -> Py.rstrip s = s -> Py.rstrip (String c s) = String c s.
Proof. intros Hne Hs. cbn [Py.rstrip]. rewrite Hs. destruct s; [now destruct Hne|reflexivity]. Qed.

Lemma sub_spaces_rstrip s :
  Py.rstrip s = s -> forall b, Py.rstrip (Py.sub_spaces b s) = Py.sub_spaces b s.
Proof.
  induction s as [|c s IH]; intros Hs b; [reflexivity|].
  cbn [Py.rstrip] in Hs. destruct (Py.rstrip s) as [|c' r] eqn:Hr.
  - destruct (Py.Py_UNICODE_ISSPACE c) eqn:Hc; [discriminate Hs|].
    injection Hs as <-. cbn [Py.sub_spaces]. rewrite Hc. cbn [Py.sub_spaces Py.rstrip].
    now rewrite Hc.
  - injection Hs as Hs. specialize (IH Hs). rewrite Hs in Hr.
    assert (Hne : forall b', Py.sub_spaces b' s <> EmptyString)
      by (apply sub_spaces_not_empty; rewrite Hr, <- Hs; discriminate).
    cbn [Py.sub_spaces]. destruct (Py.Py_UNICODE_ISSPACE c).
    + destruct b; [apply IH|].
      apply rstrip_cons_nonempty; [apply Hne|apply IH].
    + apply rstrip_cons_nonempty; [apply Hne|apply IH].
Qed.

Lemma sub_spaces_starts_clean s b :
  starts_clean s = true -> starts_clean (Py.sub_spaces b s) = true.
Proof.
  destruct s as [|c s]; [reflexivity|]. cbn [starts_clean Py.sub_spaces].
  destruct (Py.Py_UNICODE_ISSPACE c) eqn:Hc; [discriminate|].
  intros _. cbn [starts_clean]. now rewrite Hc.
Qed.

(** What [normalize_text] makes of a string. *)
Lemma normalized t :
  let x := Py.sub_spaces false (Py.strip t) in
  Py.strip x = x /\ Py.sub_spaces false x = x
  /\ starts_clean x = true /\ Py.rstrip x = x /\ single_spaced false x = true.
Proof.
  cbv zeta.
  assert (Hc : starts_clean (Py.sub_spaces false (Py.strip t)) = true).
  { apply sub_spaces_starts_clean. unfold Py.strip.
    apply rstrip_starts_clean, lstrip_starts_clean. }
  assert (Hr : Py.rstrip (Py.sub_spaces false (Py.strip t))
               = Py.sub_spaces false (Py.strip t)).
  { apply sub_spaces_rstrip. unfold Py.strip. apply rstrip_rstrip. }
  assert (Hs : single_spaced false (Py.sub_spaces false (Py.strip t)) = true)
    by apply sub_spaces_single_spaced.
  split; [|split; [|split; [|split]]]; try assumption.
  - unfold Py.strip at 1. now rewrite (lstrip_clean _ Hc).
  - now apply single_spaced_fixed.
Qed.

(** X8: doing [condense_text] or [normalize_text] twice is doing it once.
    [normalize_text] returns [None] for [None] only, and the string it
    returns otherwise has no whitespace at its ends and only single spaces
    for whitespace inside. *)
Theorem normalize_text_twice (text : option string) :
  condense_text (condense_text text) = condense_text text
  /\ normalize_text (normalize_text text) = normalize_text text
  /\ (text = None <-> normalize_text text = None)
  /\ (forall x, normalize_text text = Some x ->
        starts_clean x = true /\ Py.rstrip x = x /\ single_spaced false x = true).
Proof.
  destruct text as [t|]; [|repeat split; try reflexivity; discriminate].
  split; [|split; [|split]].
  - simpl. f_equal. apply single_spaced_fixed, sub_spaces_single_spaced.
  - simpl. destruct (normalized t) as (Hs & Hf & _). now rewrite Hs, Hf.
  - split; discriminate.
  - intros x [= <-]. destruct (normalized t) as (_ & _ & H). exact H.
Qed.

Lemma normalize_text_twice_witness :
  normalize_text (Some "  Hello   World  ") = Some "Hello World"
  /\ starts_clean "Hello World" = true.
Proof.
  split; [reflexivity|].
  exact (proj1 (proj2 (proj2 (proj2 (normalize_text_twice (Some "  Hello   World  "))))
                  "Hello World" eq_refl)).
Defined.

(** X9: the handler of <title> sets the title to the normalised text of the
    whole subtree (the texts and tails of all descendants, in document
    order) and does nothing else: whatever the parent, nothing is appended
    and the children are not rendered.  The title is then never [None], and
    it has no whitespace at its ends and single spaces inside. *)
Theorem title_is_the_normalised_text (a : gmap string string) (tx tl : option string)
    (cs : list Element) (parent : Parent) (self : HtmlParser) :
  let elem := Elem "title" a tx tl cs in
  exists x,
    _render elem parent self = Ok parent (set_title (Some x) self)
    /\ x = Py.sub_spaces false (Py.strip (itertext elem))
    /\ starts_clean x = true /\ Py.rstrip x = x /\ single_spaced false x = true.
Proof.
  cbv zeta. eexists. split; [rewrite _render_eq; reflexivity|].
  split; [reflexivity|].
  destruct (normalized (itertext (Elem "title" a tx tl cs))) as (_ & _ & H). exact H.
Qed.

(** ** What a parse does to a parser that holds something already *)

Lemma carry_blank self : carry self (blank self) = self.
Proof.
  destruct self as [t c m b h st]. unfold carry, blank. simpl.
  now rewrite (left_id_L ∅ (∪)), app_nil_r.
Qed.

Lemma DocumentParser_parse_blank name self :
  DocumentParser_parse name self = carry self (DocumentParser_parse name (blank self)).
Proof.
  destruct self as [t c m b h st]. unfold carry, blank.
  destruct name; simpl; now rewrite (left_id_L ∅ (∪)), app_nil_r.
Qed.

Lemma parse_carry name doc self :
  parse name doc self = carry_outcome self (parse name doc (blank self)).
Proof.
  unfold parse. rewrite (DocumentParser_parse_blank name self), render_carry.
  now destruct (_render doc PContent _).
Qed.

(** X10: a parse reads nothing of what the parser already holds but the
    style and the link target.  Run on any parser, it does what it does on
    an empty one, on top of what was there: the blocks that were in the
    content stay, in their order, and the new ones follow them; every
    metadata key that was set is still set; the title stays unless the parse
    sets one.  This holds on return and on an exception alike, and the base
    URL makes no difference to the outcome. *)
Theorem parse_adds_to_what_is_there (name : option string) (doc : Element)
    (self : HtmlParser) :
  let fresh := parse name doc (blank self) in
  parse name doc self = carry_outcome self fresh
  /\ content (parser_of (parse name doc self)) = content self ++ content (parser_of fresh)
  /\ meta (parser_of (parse name doc self)) = meta (parser_of fresh) ∪ meta self
  /\ (forall key, is_Some (meta self !! key) ->
        is_Some (meta (parser_of (parse name doc self)) !! key))
  /\ title (parser_of (parse name doc self)) = or_else (title (parser_of fresh)) (title self).
Proof.
  cbv zeta. rewrite (parse_carry name doc self).
  destruct (parse name doc (blank self)) as [s'|e s']; simpl;
    (split; [reflexivity|split; [reflexivity|split; [reflexivity|split; [|reflexivity]]]]);
    intros key [v Hv]; rewrite lookup_union;
    destruct (meta s' !! key); rewrite ?Hv; simpl; eauto.
Qed.

Lemma parse_adds_to_what_is_there_witness :
  let self := set_meta {["author" := "me"]} (set_content [Divider] (HtmlParser_init None)) in
  is_Some (meta (parser_of (parse None Sample.one_paragraph self)) !! "author").
Proof.
  cbv zeta.
  apply (proj1 (proj2 (proj2 (proj2
           (parse_adds_to_what_is_there None Sample.one_paragraph
              (set_meta {["author" := "me"]} (set_content [Divider] (HtmlParser_init None)))))))).
  exists "me". reflexivity.
Defined.

(** ** The handlers that make a block *)

Lemma render_keeps cs : Forall (keeps_object _render) cs.
Proof. apply Forall_forall. intros c _. exact (render_same_object c). Qed.

Lemma then_append_one parent k r self :
  ends_with (same_object (PBlock (new k)) self) r ->
  match then_append parent (new k) r with
  | Ok p' self' => one_more k parent self p' self'
  | Raise _ p' self' => nothing_more parent self p' self'
  end.
Proof.
  destruct r as [b s1|e b s1]; simpl; intros [Hk Hc].
  - destruct b as [|[k' rt ch| | | | |]]; simpl in Hk; try discriminate.
    injection Hk as ->. simpl.
    destruct (append parent (TextBlock k rt ch) s1) as [p' s'] eqn:Ha.
    exists rt, ch, s1. split; [now apply Hc|now rewrite Ha].
  - split; [reflexivity|now apply Hc].
Qed.

Lemma block_handler_eq tg k elem parent self :
  In (tg, k) block_tags -> tag elem = tg ->
  _render elem parent self
  = then_append parent (new k) (_process_contents _render elem (PBlock (new k)) self).
Proof.
  intros Hin Ht. destruct elem as [t a tx tl cs]. simpl in Ht. subst t.
  rewrite _render_eq. simpl in Hin.
  repeat (destruct Hin as [Hin|Hin]; [injection Hin as <- <-; reflexivity|]).
  destruct Hin.
Qed.

(** X12: the handlers of <p>, <dl>, <h1> to <h6>, <blockquote>, <pre> and
    <tt> append exactly one block when they return: a block of their class
    (<h4> to <h6> give a Heading3, <dl> a Paragraph, <tt> a Code), at the end
    of the parent, and nothing else of the parent or of the content changes,
    however deep the element is.  When its contents raise, the block is lost:
    the parent and the content are as before the call.  An element without
    direct text and without children still appends its block, empty. *)
Theorem block_handler_appends_one_block (tg : string) (k : TextKind) (elem : Element)
    (parent : Parent) (self : HtmlParser) :
  In (tg, k) block_tags -> tag elem = tg ->
  match _render elem parent self with
  | Ok p' self' => one_more k parent self p' self'
  | Raise _ p' self' => nothing_more parent self p' self'
  end
  /\ (visible (text elem) = false -> children elem = [] ->
      _render elem parent self = let '(p, s) := append parent (new k) self in Ok p s).
Proof.
  intros Hin Ht. rewrite (block_handler_eq tg k elem parent self Hin Ht). split.
  - apply then_append_one, process_contents_same_object, render_keeps.
  - intros Hv Hcs. unfold _process_contents.
    destruct elem as [t a tx tl cs]. simpl in Hv, Hcs. subst cs.
    cbn [elem_has_text]. rewrite Hv. simpl. now destruct k.
Qed.

Lemma block_handler_appends_one_block_witness :
  In ("h5", Heading3) block_tags
  /\ _render (Sample.el "h5" None None []) PContent (HtmlParser_init None)
     = Ok PContent (set_content [new Heading3] (HtmlParser_init None)).
Proof.
  assert (Hin : In ("h5", Heading3) block_tags) by (cbv; auto 20).
  split; [exact Hin|].
  exact (proj2 (block_handler_appends_one_block "h5" Heading3
                  (Sample.el "h5" None None []) PContent (HtmlParser_init None)
                  Hin eq_refl) eq_refl eq_refl).
Defined.

Lemma plain_handler_eq elem parent self :
  In (tag elem) plain_tags ->
  _render elem parent self = _process_contents _render elem parent self.
Proof.
  intros Hin. destruct elem as [t a tx tl cs]. rewrite _render_eq. simpl in Hin.
  repeat (destruct Hin as [Hin|Hin]; [subst t; reflexivity|]).
  destruct Hin.
Qed.

(** X13: text outside a text block gets a paragraph of its own.  When an
    element such as <body>, <div> or <span> has visible direct text (its own
    text or the tail of a child) and the parent is neither a text block nor
    a row, the call appends exactly one Paragraph to the parent, and all that
    the element renders goes into that paragraph: nothing else of the parent
    or of the content changes.  This holds also when a child raises: the
    paragraph is in the parent by then. *)
Theorem loose_text_gets_one_paragraph (elem : Element) (parent : Parent)
    (self : HtmlParser) :
  In (tag elem) plain_tags ->
  elem_has_text false elem = true ->
  isinstance_TextBlock parent = false -> isinstance_TableRow parent = false ->
  ends_with (one_more Paragraph parent self) (_render elem parent self).
Proof.
  intros Hin Ht Hp Hr. rewrite (plain_handler_eq elem parent self Hin).
  unfold _process_contents. rewrite Ht, Hp, Hr. simpl.
  set (start := _append_text (text elem) (PBlock (new Paragraph)) self).
  assert (Hstart : kind_of start = KText Paragraph) by apply kind_of_append_text.
  pose proof (contents_loop_same_object _render true (children elem)
                (render_keeps _) start self) as Hloop.
  apply strip_at_end_same_object in Hloop.
  destruct (strip_at_end _) as [b s1|e b s1]; simpl in *;
    destruct Hloop as [Hk Hc]; rewrite Hstart in Hk, Hc;
    (destruct b as [|[k' rt ch| | | | |]]; simpl in Hk; try discriminate);
    injection Hk as ->; simpl;
    destruct (append parent (TextBlock Paragraph rt ch) s1) as [p' s'] eqn:Ha;
    simpl; exists rt, ch, s1; (split; [now apply Hc|now rewrite Ha]).
Qed.

Lemma loose_text_gets_one_paragraph_witness :
  ends_with (one_more Paragraph PContent (HtmlParser_init None))
    (_render (Sample.el "div" (Some "text") None [Sample.el "tr" None None []])
       PContent (HtmlParser_init None)).
Proof.
  apply (loose_text_gets_one_paragraph
           (Sample.el "div" (Some "text") None [Sample.el "tr" None None []])
           PContent (HtmlParser_init None)); [cbv; auto 20|reflexivity..].
Defined.

(** X14: the handler of <tr>, called on a table, appends exactly one row to
    it when it returns, and it changes nothing else: the rows before it, the
    header flag and the content stay.  A <tr> without any <td> appends an
    empty row.  When a cell raises, the row is lost and the table is as
    before. *)
Theorem tr_appends_one_row (elem : Element) (header : bool) (rows : list Block)
    (self : HtmlParser) :
  tag elem = "tr" ->
  match _render elem (PBlock (Table header rows)) self with
  | Ok p' self' =>
      exists cells, p' = PBlock (Table header (rows ++ [TableRow cells]))
                    /\ content self' = content self
  | Raise _ p' self' => nothing_more (PBlock (Table header rows)) self p' self'
  end
  /\ (filter (fun c => tag c = "td") (children elem) = [] ->
      _render elem (PBlock (Table header rows)) self
      = Ok (PBlock (Table header (rows ++ [TableRow []]))) self).
Proof.
  intros Ht. destruct elem as [t a tx tl cs]. simpl in Ht. subst t.
  rewrite _render_eq. unfold render_body. simpl. unfold _render_tr. simpl. split.
  - pose proof (findall_td_loop_same_object _render cs (render_keeps cs)
                  (PBlock (TableRow [])) self) as Hloop.
    destruct (findall_td_loop _ _ _ _) as [b s1|e b s1]; simpl in *;
      destruct Hloop as [Hk Hc].
    + destruct b as [|[| |cells| | |]]; simpl in Hk; try discriminate.
      exists cells. split; [reflexivity|now apply Hc].
    + split; [reflexivity|now apply Hc].
  - intros Hnone. rewrite findall_td_loop_filter, Hnone. reflexivity.
Qed.

Lemma tr_appends_one_row_witness :
  _render (Sample.el "tr" None None [Sample.el "p" (Some "x") None []])
    (PBlock (Table true [])) (HtmlParser_init None)
  = Ok (PBlock (Table true [TableRow []])) (HtmlParser_init None).
Proof.
  exact (proj2 (tr_appends_one_row
                  (Sample.el "tr" None None [Sample.el "p" (Some "x") None []])
                  true [] (HtmlParser_init None) eq_refl) eq_refl).
Defined.

(** X15: the handler of <table> appends at most one block, and if it
    appends one it is a table of width above 0, put at the end of the
    parent once its contents have returned.  Nothing else of the parent or
    of the content changes, and when the contents raise the table is lost. *)
Theorem table_appends_at_most_one (elem : Element) (parent : Parent)
    (self : HtmlParser) :
  tag elem = "table" ->
  match _render elem parent self with
  | Ok p' self' =>
      nothing_more parent self p' self'
      \/ exists header rows self1,
           (0 < Width (Table header rows))%nat
           /\ content self1 = content self
           /\ (p', self') = append parent (Table header rows) self1
  | Raise _ p' self' => nothing_more parent self p' self'
  end.
Proof.
  intros Ht. destruct elem as [t a tx tl cs]. simpl in Ht. subst t.
  rewrite _render_eq. unfold render_body. simpl. unfold _render_table.
  pose proof (process_contents_same_object _render (Elem "table" a tx tl cs)
                (render_keeps cs) (PBlock (Table false [])) self) as Hpc.
  destruct (_process_contents _ _ _ _) as [b s1|e b s1]; simpl in *;
    destruct Hpc as [Hk Hc].
  - destruct b as [|[|hd rows| | | |]]; simpl in Hk; try discriminate.
    cbn [as_block]. destruct (0 <? Width (Table hd rows))%nat eqn:Hw.
    + destruct (append parent (Table hd rows) s1) as [p' s'] eqn:Ha.
      right. exists hd, rows, s1.
      split; [now apply Nat.ltb_lt|split; [now apply Hc|now rewrite Ha]].
    + left. split; [reflexivity|now apply Hc].
  - split; [reflexivity|now apply Hc].
Qed.

Lemma table_appends_at_most_one_witness :
  match _render (Sample.el "table" None None []) PContent (HtmlParser_init None) with
  | Ok p' self' =>
      nothing_more PContent (HtmlParser_init None) p' self'
      \/ exists header rows self1,
           (0 < Width (Table header rows))%nat
           /\ content self1 = content (HtmlParser_init None)
           /\ (p', self') = append PContent (Table header rows) self1
  | Raise _ p' self' => nothing_more PContent (HtmlParser_init None) p' self'
  end.
Proof.
  exact (table_appends_at_most_one (Sample.el "table" None None []) PContent
           (HtmlParser_init None) eq_refl).
Defined.

(** X16: a call of [_render] that is handed a block never touches
    [self.content], and it hands the same kind of object back: a text block
    stays a text block of its class, a table a table, a row a row; a call on
    the content list leaves the parent the content list.  So the content
    list grows only through calls whose parent it is.  This holds for every
    element, on return and on an exception. *)
Theorem rendering_into_a_block_keeps_the_content (elem : Element) (parent : Parent)
    (self : HtmlParser) :
  ends_with
    (fun p' self' =>
       kind_of p' = kind_of parent
       /\ (parent = PContent <-> p' = PContent)
       /\ (parent <> PContent -> content self' = content self))
    (_render elem parent self).
Proof.
  eapply ends_with_impl; [|apply render_same_object].
  intros p' s' [Hk Hc]. split; [exact Hk|]. split.
  - split; intros ->; [destruct p' as [|[]]|destruct parent as [|[]]];
      simpl in Hk; try discriminate; try reflexivity;
      destruct kind; discriminate.
  - intros Hn. apply Hc. destruct parent as [|[]]; simpl; try discriminate.
    now destruct Hn.
Qed.

Lemma rendering_into_a_block_keeps_the_content_witness :
  ends_with (fun p' self' => kind_of p' = KText Quote /\ content self' = [])
    (_render (Sample.el "p" (Some "A") None []) (PBlock (new Quote)) (HtmlParser_init None)).
Proof.
  eapply ends_with_impl;
    [|exact (rendering_into_a_block_keeps_the_content (Sample.el "p" (Some "A") None [])
               (PBlock (new Quote)) (HtmlParser_init None))].
  intros p' self' (Hk & _ & Hc). split; [exact Hk|]. apply Hc. discriminate.
Defined.

(** ** A parent only grows *)

Lemma grows_refl p : grows p p.
Proof.
  destruct p as [|[k rt ch|h rows|cells| | |]]; simpl; try reflexivity.
  - exists rt, []. now rewrite app_nil_r.
  - exists h, []. now rewrite app_nil_r.
  - exists []. now rewrite app_nil_r.
Qed.

Lemma grows_trans p p1 p2 : grows p p1 -> grows p1 p2 -> grows p p2.
Proof.
  destruct p as [|[k rt ch|h rows|cells| | |]]; simpl.
  - now intros ->.
  - intros (rt1 & m1 & ->) (rt2 & m2 & ->). exists rt2, (m1 ++ m2). now rewrite app_assoc.
  - intros (h1 & m1 & -> & H1) (h2 & m2 & -> & H2).
    exists h2, (m1 ++ m2). rewrite app_assoc. auto.
  - intros (m1 & ->) (m2 & ->). exists (m1 ++ m2). now rewrite app_assoc.
  - now intros ->.
  - now intros ->.
  - now intros ->.
Qed.

Lemma grows_append p b s : grows p (append p b s).1.
Proof.
  destruct p as [|[k rt ch|h rows|cells| | |]]; simpl; try reflexivity; eauto.
Qed.

Lemma grows_append_text t p s : grows p (_append_text t p s).
Proof.
  unfold _append_text.
  destruct p as [|[k rt ch|h rows|cells| | |]]; simpl; try reflexivity.
  - destruct (TextObject_from_value _ _ _); simpl; eexists _, []; now rewrite app_nil_r.
  - exists h, []. now rewrite app_nil_r.
  - eauto.
Qed.

Lemma grows_strip p : grows p (strip_text_block p).
Proof.
  destruct p as [|[k rt ch|h rows|cells| | |]]; try apply grows_refl.
  destruct k; try apply grows_refl; simpl; eexists _, []; now rewrite app_nil_r.
Qed.

Lemma grows_concat_newline p : grows p (concat_newline p).
Proof.
  destruct p as [|[k rt ch|h rows|cells| | |]]; try apply grows_refl.
  simpl. destruct (reverse rt); eexists _, []; now rewrite app_nil_r.
Qed.

Lemma grows_header p : grows p (set_has_column_header p).
Proof.
  destruct p as [|[k rt ch|h rows|cells| | |]]; try apply grows_refl.
  simpl. exists true, []. now rewrite app_nil_r.
Qed.

Lemma append_ends_grows p b s :
  ends_with (grows_to p) (let '(p', s') := append p b s in Ok p' s').
Proof.
  pose proof (grows_append p b s) as H. destruct (append p b s) as [p' s']. exact H.
Qed.

Lemma then_append_grows p b r : ends_with (grows_to p) (then_append p b r).
Proof.
  destruct r as [p1 s1|e p1 s1]; simpl; [|apply grows_refl].
  apply append_ends_grows.
Qed.

Lemma appended_to_grows p b r : ends_with (grows_to p) (appended_to p b r).
Proof.
  destruct r as [p1 s1|e p1 s1]; simpl;
    pose proof (grows_append p (as_block b p1) s1) as H;
    destruct (append p (as_block b p1) s1) as [p' s']; exact H.
Qed.

Lemma strip_at_end_grows p r :
  ends_with (grows_to p) r -> ends_with (grows_to p) (strip_at_end r).
Proof.
  destruct r as [p1 s1|e p1 s1]; simpl; [|auto]. unfold grows_to. intros H.
  destruct (isinstance_TextBlock p1); [|exact H].
  eapply grows_trans; [exact H|apply grows_strip].
Qed.

Lemma bracket_grows (leave : HtmlParser -> HtmlParser) p r :
  ends_with (grows_to p) r ->
  ends_with (grows_to p)
    match r with
    | Ok p' s' => Ok p' (leave s')
    | Raise e p' s' => Raise e p' s'
    end.
Proof. now destruct r. Qed.

Section Grows.

Variable render : Element -> Parent -> HtmlParser -> Result.

Lemma contents_loop_grows has_text cs :
  Forall (keeps_growing render) cs ->
  forall p s, ends_with (grows_to p) (contents_loop render has_text cs p s).
Proof.
  induction 1 as [|c cs Hc _ IH]; intros p s; simpl; [apply grows_refl|].
  specialize (Hc p s). destruct (render c p s) as [p1 s1|e p1 s1]; simpl in Hc; [|exact Hc].
  eapply ends_with_impl; [|apply IH]. unfold grows_to in *. intros p2 s2 H2.
  eapply grows_trans; [exact Hc|]. eapply grows_trans; [|exact H2].
  destruct has_text; [apply grows_append_text|apply grows_refl].
Qed.

Lemma process_contents_grows elem :
  Forall (keeps_growing render) (children elem) ->
  forall p s, ends_with (grows_to p) (_process_contents render elem p s).
Proof.
  intros Hcs p s. unfold _process_contents.
  destruct (negb (elem_has_text false elem)).
  - apply strip_at_end_grows, contents_loop_grows, Hcs.
  - destruct (isinstance_TextBlock p || isinstance_TableRow p).
    + apply strip_at_end_grows.
      eapply ends_with_impl; [|apply contents_loop_grows, Hcs].
      unfold grows_to. intros p2 s2 H2.
      eapply grows_trans; [apply grows_append_text|exact H2].
    + apply appended_to_grows.
Qed.

Lemma findall_td_loop_grows cs :
  Forall (keeps_growing render) cs ->
  forall p s, ends_with (grows_to p) (findall_td_loop render cs p s).
Proof.
  induction 1 as [|c cs Hc _ IH]; intros p s; simpl; [apply grows_refl|].
  destruct (String.eqb (tag c) "td"); [|apply IH].
  specialize (Hc p s). destruct (render c p s) as [p1 s1|e p1 s1]; simpl in Hc; [|exact Hc].
  eapply ends_with_impl; [|apply IH]. unfold grows_to in *. intros p2 s2 H2.
  eapply grows_trans; [exact Hc|exact H2].
Qed.

Lemma list_loop_grows kind cs :
  Forall (keeps_growing render) cs ->
  forall p item s, ends_with (grows_to p) (list_loop render kind cs p item s).
Proof.
  induction 1 as [|c cs Hc _ IH]; intros p item s; simpl.
  - destruct item as [it|]; [apply append_ends_grows|apply grows_refl].
  - destruct (String.eqb (tag c) "li").
    + assert (Hflush : exists p0 s0,
                match item with Some it => append p it s | None => (p, s) end = (p0, s0)
                /\ grows p p0).
      { destruct item as [it|].
        - pose proof (grows_append p it s) as Hs.
          destruct (append p it s) as [p0 s0]. eauto.
        - eexists _, _. split; [reflexivity|apply grows_refl]. }
      destruct Hflush as (p0 & s0 & -> & H0).
      destruct (render c (PBlock (new kind)) s0) as [p1 s1|e p1 s1]; [|exact H0].
      eapply ends_with_impl; [|apply IH]. unfold grows_to. intros p2 s2 H2.
      eapply grows_trans; [exact H0|exact H2].
    + destruct item as [it|].
      * destruct (render c (PBlock it) s) as [p1 s1|e p1 s1]; [apply IH|].
        pose proof (grows_append p (as_block it p1) s1) as Hs.
        destruct (append p (as_block it p1) s1) as [p2 s2]. exact Hs.
      * specialize (Hc p s).
        destruct (render c p s) as [p1 s1|e p1 s1]; simpl in Hc; [|exact Hc].
        eapply ends_with_impl; [|apply IH]. unfold grows_to in *. intros p2 s2 H2.
        eapply grows_trans; [exact Hc|exact H2].
Qed.

Lemma call_grows h elem :
  Forall (keeps_growing render) (children elem) ->
  forall p s, ends_with (grows_to p) (call render h elem p s).
Proof.
  intros Hcs p s.
  pose proof (process_contents_grows elem Hcs) as Hpc.
  pose proof (list_loop_grows) as Hll.
  pose proof (findall_td_loop_grows (children elem) Hcs) as Htd.
  destruct h; cbn [call];
    unfold _render_em, _render_strong, _render_ins, _render_kbd, _render_samp,
      _render_var, _render_strike, _render_h4, _render_h5, _render_h6,
      _render_menu, _render_th, _render_tt;
    first
      [ apply Hpc
      | unfold _render_a, _render_b, _render_i, _render_u, _render_del,
          _render_code;
        apply bracket_grows, Hpc
      | apply then_append_grows
      | apply Hll, Hcs
      | idtac ].
  - unfold _render_base. destruct (get elem "href"); apply grows_refl.
  - unfold _render_br. destruct (isinstance_TextBlock p); simpl;
      [apply grows_concat_newline|apply grows_refl].
  - unfold _render_hr. apply append_ends_grows.
  - unfold _render_iframe. destruct (get elem "src");
      [apply append_ends_grows|apply grows_refl].
  - unfold _render_img. destruct (get elem "src");
      [apply append_ends_grows|apply grows_refl].
  - unfold _render_meta. destruct (get elem "name"), (get elem "content"); simpl;
      try apply grows_refl.
    repeat case_if; apply grows_refl.
  - apply grows_refl.
  - unfold _render_table.
    destruct (_process_contents _ _ _ _) as [p1 s1|e p1 s1]; [|apply grows_refl].
    destruct (0 <? Width (as_block (Table false []) p1))%nat;
      [apply append_ends_grows|apply grows_refl].
  - unfold _render_td. destruct (negb (isinstance_TableRow p)); [apply grows_refl|].
    destruct (elem_has_text true elem); [apply Hpc|apply grows_append_text].
  - unfold _render_td. destruct (negb (isinstance_TableRow p)); [apply grows_refl|].
    destruct (elem_has_text true elem); [apply Hpc|apply grows_append_text].
  - unfold _render_thead. destruct (negb (isinstance_Table p)); [apply grows_refl|].
    eapply ends_with_impl; [|apply Hpc]. unfold grows_to. intros p2 s2 H2.
    eapply grows_trans; [apply grows_header|exact H2].
  - apply grows_refl.
  - unfold _render_tr. destruct (negb (isinstance_Table p)); [apply grows_refl|].
    apply then_append_grows.
Qed.

End Grows.

Lemma render_grows elem : forall p s, ends_with (grows_to p) (_render elem p s).
Proof.
  induction elem as [t a tx tl cs IH] using Element_ind'. intros p s.
  rewrite _render_eq. unfold render_body.
  destruct (getattr_render _) as [h|]; [|apply grows_refl].
  now apply call_grows.
Qed.

(** X17: a call of [_render] only ever appends to its parent.  Whatever the
    element, on return and on an exception alike, the child blocks of a text
    block, the rows of a table and the cells of a row that were there before
    the call are there after it, unchanged and in their order, with the new
    ones after them; a text block keeps its class, and the header flag of a
    table, once set, stays set. *)
Theorem render_only_appends (elem : Element) (parent : Parent) (self : HtmlParser) :
  ends_with (fun p' _ => grows parent p') (_render elem parent self).
Proof. exact (render_grows elem parent self). Qed.

(** X18: the handler of <thead>, called on a table, sets the header flag of
    that table, and the flag is set when the call ends, be it by a return or
    by an exception of one of the children; the rows the table had are kept
    and what the children of <thead> append follows them.  The flag is set
    wherever the <thead> stands among the children of the table. *)
Theorem thead_sets_the_header_flag (elem : Element) (header : bool) (rows : list Block)
    (self : HtmlParser) :
  tag elem = "thead" ->
  ends_with (fun p' _ => exists more, p' = PBlock (Table true (rows ++ more)))
    (_render elem (PBlock (Table header rows)) self).
Proof.
  intros Ht. destruct elem as [t a tx tl cs]. simpl in Ht. subst t.
  rewrite _render_eq. unfold render_body. simpl. unfold _render_thead. simpl.
  eapply ends_with_impl;
    [|apply (process_contents_grows _render (Elem "thead" a tx tl cs))].
  - simpl. intros p' _ (h' & more & -> & Hh). exists more. now rewrite Hh.
  - apply Forall_forall. intros c _. exact (render_grows c).
Qed.

Lemma thead_sets_the_header_flag_witness :
  ends_with (fun p' _ => exists more, p' = PBlock (Table true ([] ++ more)))
    (_render (Sample.el "thead" None None [Sample.header_row])
       (PBlock (Table false [])) (HtmlParser_init None)).
Proof.
  exact (thead_sets_the_header_flag (Sample.el "thead" None None [Sample.header_row])
           false [] (HtmlParser_init None) eq_refl).
Defined.

(** ** Text in rows and in text blocks *)

Lemma render_br_outside_text c p s :
  tag c = "br" -> isinstance_TextBlock p = false -> _render c p s = Ok p s.
Proof.
  intros Ht Hp. destruct c as [t a tx tl cs]. simpl in Ht. subst t.
  rewrite _render_eq. unfold render_body. simpl. unfold _render_br. now rewrite Hp.
Qed.

Lemma contents_loop_br cs :
  Forall (fun c => tag c = "br") cs ->
  forall cells self,
    contents_loop _render true cs (PBlock (TableRow cells)) self
    = Ok (PBlock (TableRow (cells ++ map (fun c => piece self (tail c)) cs))) self.
Proof.
  induction 1 as [|c cs Hc _ IH]; intros cells self; simpl.
  - now rewrite app_nil_r.
  - rewrite (render_br_outside_text c (PBlock (TableRow cells)) self Hc eq_refl).
    change (_append_text (tail c) (PBlock (TableRow cells)) self)
      with (PBlock (TableRow (cells ++ [piece self (tail c)]))).
    rewrite IH, <- app_assoc. reflexivity.
Qed.

(** X19: in a row, every piece of text becomes a cell of its own.  A <td>
    or <th> with visible direct text whose children are line breaks appends
    one cell for its text and one more for the tail of every <br>, an empty
    one where the tail is missing: 1 + n cells for n line breaks.  The text
    of a cell is condensed but, unlike the text of a text block, not
    trimmed. *)
Theorem td_text_makes_a_cell_per_piece (tg : string) (a : gmap string string)
    (t : string) (tl : option string) (cs : list Element)
    (cells : list (Cell Block)) (self : HtmlParser) :
  tg = "td" \/ tg = "th" ->
  visible (Some t) = true ->
  Forall (fun c => tag c = "br") cs ->
  _render (Elem tg a (Some t) tl cs) (PBlock (TableRow cells)) self
  = Ok (PBlock (TableRow
          (cells ++ CellText (Some (run_of (Py.sub_spaces false t) self))
                    :: map (fun c => piece self (tail c)) cs))) self
  /\ row_width (TableRow (CellText (Some (run_of (Py.sub_spaces false t) self))
                          :: map (fun c => piece self (tail c)) cs))
     = S (List.length cs).
Proof.
  intros Htg Hv Hcs. split; [|simpl; now rewrite length_map].
  assert (Hr : _render (Elem tg a (Some t) tl cs) (PBlock (TableRow cells)) self
               = _render_td _render (Elem tg a (Some t) tl cs) (PBlock (TableRow cells)) self).
  { rewrite _render_eq. destruct Htg as [-> | ->]; reflexivity. }
  rewrite Hr. unfold _render_td, _process_contents.
  cbn [elem_has_text]. rewrite Hv. simpl.
  change (_append_text (Some t) (PBlock (TableRow cells)) self)
    with (PBlock (TableRow (cells ++ [CellText (Some (run_of (Py.sub_spaces false t) self))]))).
  rewrite (contents_loop_br cs Hcs), <- app_assoc. reflexivity.
Qed.

Lemma td_text_makes_a_cell_per_piece_witness :
  _render (Sample.el "td" (Some " A ") None [Sample.el "br" None None []])
    (PBlock (TableRow [])) (HtmlParser_init None)
  = Ok (PBlock (TableRow [CellText (Some (Sample.run " A " Sample.plain)); CellText None]))
      (HtmlParser_init None).
Proof.
  refine (proj1 (td_text_makes_a_cell_per_piece "td" ∅ " A " None
                   [Sample.el "br" None None []] [] (HtmlParser_init None) _ _ _));
    [left; reflexivity|reflexivity|repeat constructor].
Defined.

Lemma rstrip_last_snoc l z : rstrip_last (l ++ [z]) = l ++ [rstrip z].
Proof.
  unfold rstrip_last. rewrite reverse_snoc, reverse_cons, reverse_involutive. reflexivity.
Qed.

Lemma strip_runs_trimmed rt : trimmed (rstrip_last (lstrip_first rt)).
Proof.
  destruct rt as [|o1 l]; [split; intros o; discriminate|].
  cbn [lstrip_first].
  destruct l as [|z l'] using rev_ind.
  - change (rstrip_last [lstrip o1]) with [rstrip (lstrip o1)].
    split; intros o [= <-]; simpl.
    + apply rstrip_starts_clean, lstrip_starts_clean.
    + apply rstrip_rstrip.
  - rewrite app_comm_cons, rstrip_last_snoc. split; intros o.
    + simpl. intros [= <-]. apply lstrip_starts_clean.
    + rewrite <- app_comm_cons, app_comm_cons, last_snoc. intros [= <-].
      apply rstrip_rstrip.
Qed.

(** X20: a text block is trimmed every time an element inside it is done.
    When [_process_contents] returns and its parent is a text block other
    than a Code block, the first run of the block has no whitespace at its
    start and the last run has none at its end, whatever the element was; so
    the whitespace that ends the text of an inline element is removed before
    the text that follows the element is appended.  The block keeps its
    class and its child blocks are only appended to. *)
Theorem text_block_is_trimmed_at_every_close (elem : Element) (k : TextKind)
    (rt : list TextObject) (ch : list Block) (self : HtmlParser)
    (p' : Parent) (self' : HtmlParser) :
  k <> Code ->
  _process_contents _render elem (PBlock (TextBlock k rt ch)) self = Ok p' self' ->
  exists rt' more, p' = PBlock (TextBlock k rt' (ch ++ more)) /\ trimmed rt'.
Proof.
  intros Hk Hr.
  assert (Hloop : forall has_text start,
            grows (PBlock (TextBlock k rt ch)) start ->
            strip_at_end (contents_loop _render has_text (children elem) start self)
            = Ok p' self' ->
            exists rt' more, p' = PBlock (TextBlock k rt' (ch ++ more)) /\ trimmed rt').
  { intros has_text start Hstart Hs.
    pose proof (contents_loop_grows _render has_text (children elem)
                  (proj2 (Forall_forall _ _) (fun c _ => render_grows c)) start self) as Hg.
    revert Hg Hs.
    destruct (contents_loop _render has_text (children elem) start self)
      as [p1 s1|e p1 s1]; intros Hg Hs; [|discriminate Hs].
    simpl in Hg, Hs. unfold grows_to in Hg.
    pose proof (grows_trans _ _ _ Hstart Hg) as (rt1 & more & ->).
    simpl in Hs. injection Hs as <- <-.
    destruct k; try (now destruct Hk);
      (eexists _, more; split; [reflexivity|apply strip_runs_trimmed]). }
  unfold _process_contents in Hr.
  destruct (negb (elem_has_text false elem)).
  - apply (Hloop false _ (grows_refl _) Hr).
  - simpl in Hr. apply (Hloop true _ (grows_append_text _ _ _) Hr).
Qed.

Lemma text_block_is_trimmed_at_every_close_witness :
  exists rt' more,
    PBlock (TextBlock Paragraph
              [Sample.run "a" Sample.plain; Sample.run "b" Sample.plain] [])
    = PBlock (TextBlock Paragraph rt' ([] ++ more)) /\ trimmed rt'.
Proof.
  apply (text_block_is_trimmed_at_every_close
           (Sample.el "span" (Some "b ") None []) Paragraph
           [Sample.run "a" Sample.plain] [] (HtmlParser_init None) _ (HtmlParser_init None));
    [discriminate|reflexivity].
Defined.

(** ** Links *)

(** X21: the link target is unset, not restored, when an anchor is done.
    After the handler of <a> has returned the current link target is [None],
    whatever it was before the call and whatever the anchor holds, so text
    that follows an anchor inside another anchor is not linked.  The direct
    text of an anchor in a text block becomes one run that carries the
    [href] attribute of the anchor, [None] when the attribute is missing,
    under the style that is current. *)
Theorem anchor_unsets_the_link_target (a : gmap string string) (tx tl : option string)
    (cs : list Element) (parent : Parent) (self : HtmlParser) :
  (forall p' self',
     _render (Elem "a" a tx tl cs) parent self = Ok p' self' -> _current_href self' = None)
  /\ (forall t k rt ch,
        tx = Some t -> visible tx = true -> cs = [] -> parent = PBlock (TextBlock k rt ch) ->
        _render (Elem "a" a tx tl cs) parent self
        = Ok (strip_text_block
                (PBlock (TextBlock k
                   (rt ++ [mkTextObject
                             match k with Code => t | _ => Py.sub_spaces false t end
                             (a !! "href") (_current_text_style self)])
                   ch)))
            (set_current_href None self)).
Proof.
  rewrite _render_eq. unfold render_body. simpl. unfold _render_a. split.
  - intros p' self' Hr. destruct (_process_contents _ _ _ _); [|discriminate].
    now injection Hr as <- <-.
  - intros t k rt ch -> Hv -> ->. unfold _process_contents.
    cbn [elem_has_text]. rewrite Hv. simpl. destruct k; reflexivity.
Qed.

Lemma anchor_unsets_the_link_target_witness :
  _render (Elem "a" {["href" := "u"]} (Some "x") None [])
    (PBlock (TextBlock Paragraph [] []))
    (set_current_href (Some "outer") (HtmlParser_init None))
  = Ok (PBlock (TextBlock Paragraph [mkTextObject "x" (Some "u") Annotations_new] []))
      (HtmlParser_init None).
Proof.
  exact (proj2 (anchor_unsets_the_link_target {["href" := "u"]} (Some "x") None []
                  (PBlock (TextBlock Paragraph [] []))
                  (set_current_href (Some "outer") (HtmlParser_init None)))
           "x" Paragraph [] [] eq_refl eq_refl eq_refl eq_refl).
Defined.

(** ** Elements without text *)

Lemma all_space_app s1 s2 :
  Py.all_space (s1 +:+ s2) = Py.all_space s1 && Py.all_space s2.
Proof.
  induction s1 as [|c s1 IH]; [reflexivity|]. simpl. now rewrite IH, andb_assoc.
Qed.

Lemma invisible_all_space o : visible o = false -> Py.all_space (default "" o) = true.
Proof.
  destruct o as [[|c s]|]; simpl; try reflexivity; try discriminate.
  intros H. now apply negb_false_iff in H.
Qed.

Lemma lstrip_all_space s : Py.all_space s = true -> Py.lstrip s = "".
Proof.
  induction s as [|c s IH]; [reflexivity|]. simpl.
  intros H. apply andb_prop in H as [-> H]. now apply IH.
Qed.

Lemma itertext_all_space e : elem_has_text true e = false -> Py.all_space (itertext e) = true.
Proof.
  induction e as [t a tx tl cs IH] using Element_ind'. intros H.
  apply elem_has_text_false in H as [Hv Hcs]. cbn [itertext].
  rewrite all_space_app, (invisible_all_space _ Hv). simpl.
  induction cs as [|c cs IHcs]; [reflexivity|].
  apply Forall_cons in IH as [IHc IH]. apply Forall_cons in Hcs as [[Hc Htl] Hcs].
  rewrite !all_space_app, (IHc Hc), (invisible_all_space _ Htl). simpl.
  now apply IHcs.
Qed.

Lemma has_text_with_children e :
  elem_has_text false e = true -> elem_has_text true e = true.
Proof.
  destruct e as [t a tx tl cs]. cbn [elem_has_text].
  destruct (visible tx); [reflexivity|]. simpl.
  induction cs as [|c cs IH]; [discriminate|].
  simpl. destruct (visible (tail c)); [now rewrite orb_true_r|].
  rewrite !orb_false_r. intros H. rewrite (IH H). now rewrite orb_true_r.
Qed.

(** X22: [elem_has_text] agrees with the text [gather_text] collects.  An
    element that has no text by [elem_has_text] with its children has only
    whitespace in its [itertext], at any depth, and its gathered text is the
    empty string; and an element that has direct text has text with its
    children too.  So a cell that is replaced by an empty cell had nothing
    but whitespace in it. *)
Theorem no_text_means_blank (elem : Element) :
  (elem_has_text true elem = false ->
   Py.all_space (itertext elem) = true /\ gather_text elem = Some "")
  /\ (elem_has_text false elem = true -> elem_has_text true elem = true).
Proof.
  split; [|apply has_text_with_children].
  intros H. pose proof (itertext_all_space elem H) as Hs. split; [exact Hs|].
  unfold gather_text, normalize_text, condense_text, Py.strip.
  now rewrite (lstrip_all_space _ Hs).
Qed.

Lemma no_text_means_blank_witness :
  let elem := Sample.el "td" (Some "  ") None [Sample.el "b" None (Some " ") []] in
  Py.all_space (itertext elem) = true /\ gather_text elem = Some "".
Proof.
  exact (proj1 (no_text_means_blank
                  (Sample.el "td" (Some "  ") None [Sample.el "b" None (Some " ") []]))
           eq_refl).
Defined.

(** ** Metadata *)

(** X23: the handler of <meta> records the pair only when both the [name]
    and the [content] attribute are there and not empty.  Then the metadata
    has the content under the name, replacing what was there, and every
    other key is as it was; otherwise the metadata is unchanged.  In both
    cases the call returns, the parent, the content and the rest of the
    parser are untouched, and the children of the element are not
    rendered. *)
Theorem meta_needs_a_name_and_a_value (a : gmap string string) (tx tl : option string)
    (cs : list Element) (parent : Parent) (self : HtmlParser) :
  exists m,
    _render (Elem "meta" a tx tl cs) parent self = Ok parent (set_meta m self)
    /\ (forall n v, a !! "name" = Some n -> a !! "content" = Some v ->
          n <> "" -> v <> "" ->
          m !! n = Some v /\ forall key, key <> n -> m !! key = meta self !! key)
    /\ (Py.truthy (a !! "name") && Py.truthy (a !! "content") = false -> m = meta self).
Proof.
  rewrite _render_eq. unfold render_body. simpl. unfold _render_meta, get. simpl.
  destruct (a !! "name") as [n|] eqn:Hn, (a !! "content") as [v|] eqn:Hv;
    try (exists (meta self);
         split; [now destruct self
                |split; [intros ? ? ? ?; discriminate|reflexivity]]).
  destruct (Py.truthy (Some n) && Py.truthy (Some v)) eqn:Ht.
  - exists (<[n := v]> (meta self)). split; [reflexivity|]. split; [|discriminate].
    intros n' v' [= <-] [= <-] _ _. split; [apply lookup_insert_eq|].
    intros key Hkey. now apply lookup_insert_ne.
  - exists (meta self). split; [now destruct self|]. split; [|reflexivity].
    intros n' v' [= <-] [= <-] Hn' Hv'. destruct n; [now destruct Hn'|].
    destruct v; [now destruct Hv'|]. discriminate Ht.
Qed.

Lemma meta_needs_a_name_and_a_value_witness :
  exists m,
    _render (Elem "meta" {["name" := "author"; "content" := "me"]} None None []) PContent
      (HtmlParser_init None)
    = Ok PContent (set_meta m (HtmlParser_init None))
    /\ m !! "author" = Some "me".
Proof.
  destruct (meta_needs_a_name_and_a_value {["name" := "author"; "content" := "me"]}
              None None [] PContent (HtmlParser_init None)) as (m & Hr & Hset & _).
  exists m. split; [exact Hr|].
  apply (Hset "author" "me"); [reflexivity|reflexivity|discriminate|discriminate].
Defined.

(** ** Who writes the title, the metadata and the base URL *)

Lemma same_head_refl s : same_head s s.
Proof. repeat split. Qed.

Lemma same_head_trans s s1 s2 : same_head s s1 -> same_head s1 s2 -> same_head s s2.
Proof. unfold same_head. intros (? & ? & ?) (? & ? & ?). repeat split; congruence. Qed.

Lemma same_head_append p b s : same_head s (append p b s).2.
Proof. destruct p as [|[]]; repeat split. Qed.

Lemma append_ends_head p b s :
  ends_with (head_kept s) (let '(p', s') := append p b s in Ok p' s').
Proof.
  pose proof (same_head_append p b s) as H. destruct (append p b s) as [p' s']. exact H.
Qed.

Lemma strip_at_end_head s r :
  ends_with (head_kept s) r -> ends_with (head_kept s) (strip_at_end r).
Proof. now destruct r. Qed.

Lemma then_append_head p b s r :
  ends_with (head_kept s) r -> ends_with (head_kept s) (then_append p b r).
Proof.
  destruct r as [p1 s1|e p1 s1]; simpl; [|auto]. intros H.
  pose proof (same_head_append p (as_block b p1) s1) as Ha.
  destruct (append p (as_block b p1) s1) as [p' s']. simpl in *.
  eapply same_head_trans; [exact H|exact Ha].
Qed.

Lemma appended_to_head p b s r :
  ends_with (head_kept s) r -> ends_with (head_kept s) (appended_to p b r).
Proof.
  destruct r as [p1 s1|e p1 s1]; simpl; intros H;
    pose proof (same_head_append p (as_block b p1) s1) as Ha;
    destruct (append p (as_block b p1) s1) as [p' s']; simpl in *;
    (eapply same_head_trans; [exact H|exact Ha]).
Qed.

Lemma bracket_head (enter leave : HtmlParser -> HtmlParser) s r :
  same_head s (enter s) -> (forall x, same_head x (leave x)) ->
  ends_with (head_kept (enter s)) r ->
  ends_with (head_kept s)
    match r with
    | Ok p' s' => Ok p' (leave s')
    | Raise e p' s' => Raise e p' s'
    end.
Proof.
  intros He Hl. destruct r as [p1 s1|e p1 s1]; simpl; intros H.
  - eapply same_head_trans; [exact He|]. eapply same_head_trans; [exact H|apply Hl].
  - eapply same_head_trans; [exact He|exact H].
Qed.

Section Head.

Variable render : Element -> Parent -> HtmlParser -> Result.

Lemma contents_loop_head has_text cs :
  Forall (keeps_head render) cs -> forallb (free_of head_tags) cs = true ->
  forall p s, ends_with (head_kept s) (contents_loop render has_text cs p s).
Proof.
  induction 1 as [|c cs Hc _ IH]; intros Hfree p s; [apply same_head_refl|].
  cbn [forallb] in Hfree. apply andb_prop in Hfree as [Hfc Hfree]. cbn [contents_loop].
  specialize (Hc Hfc p s). destruct (render c p s) as [p1 s1|e p1 s1]; simpl in Hc;
    [|exact Hc].
  eapply ends_with_impl; [|apply (IH Hfree)]. unfold head_kept. intros p2 s2 H2.
  eapply same_head_trans; [exact Hc|exact H2].
Qed.

Lemma process_contents_head elem :
  Forall (keeps_head render) (children elem) ->
  forallb (free_of head_tags) (children elem) = true ->
  forall p s, ends_with (head_kept s) (_process_contents render elem p s).
Proof.
  intros Hcs Hfree p s. unfold _process_contents.
  destruct (negb (elem_has_text false elem)).
  - apply strip_at_end_head, contents_loop_head; assumption.
  - destruct (isinstance_TextBlock p || isinstance_TableRow p).
    + apply strip_at_end_head, contents_loop_head; assumption.
    + apply appended_to_head, strip_at_end_head, contents_loop_head; assumption.
Qed.

Lemma findall_td_loop_head cs :
  Forall (keeps_head render) cs -> forallb (free_of head_tags) cs = true ->
  forall p s, ends_with (head_kept s) (findall_td_loop render cs p s).
Proof.
  induction 1 as [|c cs Hc _ IH]; intros Hfree p s; [apply same_head_refl|].
  cbn [forallb] in Hfree. apply andb_prop in Hfree as [Hfc Hfree]. cbn [findall_td_loop].
  destruct (String.eqb (tag c) "td"); [|apply (IH Hfree)].
  specialize (Hc Hfc p s). destruct (render c p s) as [p1 s1|e p1 s1]; simpl in Hc;
    [|exact Hc].
  eapply ends_with_impl; [|apply (IH Hfree)]. unfold head_kept. intros p2 s2 H2.
  eapply same_head_trans; [exact Hc|exact H2].
Qed.

Lemma list_loop_head kind cs :
  Forall (keeps_head render) cs -> forallb (free_of head_tags) cs = true ->
  forall p item s, ends_with (head_kept s) (list_loop render kind cs p item s).
Proof.
  induction 1 as [|c cs Hc _ IH]; intros Hfree p item s.
  - simpl. destruct item as [it|]; [apply append_ends_head|apply same_head_refl].
  - cbn [forallb] in Hfree. apply andb_prop in Hfree as [Hfc Hfree]. cbn [list_loop].
    specialize (Hc Hfc). specialize (IH Hfree).
    destruct (String.eqb (tag c) "li").
    + assert (Hflush : exists p0 s0,
                match item with Some it => append p it s | None => (p, s) end = (p0, s0)
                /\ same_head s s0).
      { destruct item as [it|].
        - pose proof (same_head_append p it s) as Hs.
          destruct (append p it s) as [p0 s0]. eauto.
        - eexists _, _. split; [reflexivity|apply same_head_refl]. }
      destruct Hflush as (p0 & s0 & -> & H0).
      pose proof (Hc (PBlock (new kind)) s0) as Hli.
      destruct (render c (PBlock (new kind)) s0) as [p1 s1|e p1 s1]; simpl in Hli.
      * eapply ends_with_impl; [|apply IH]. unfold head_kept. intros p2 s2 H2.
        eapply same_head_trans; [exact H0|]. eapply same_head_trans; [exact Hli|exact H2].
      * eapply same_head_trans; [exact H0|exact Hli].
    + destruct item as [it|].
      * pose proof (Hc (PBlock it) s) as Hit.
        destruct (render c (PBlock it) s) as [p1 s1|e p1 s1]; simpl in Hit.
        -- eapply ends_with_impl; [|apply IH]. unfold head_kept. intros p2 s2 H2.
           eapply same_head_trans; [exact Hit|exact H2].
        -- pose proof (same_head_append p (as_block it p1) s1) as Hs.
           destruct (append p (as_block it p1) s1) as [p2 s2]. simpl in *.
           eapply same_head_trans; [exact Hit|exact Hs].
      * specialize (Hc p s).
        destruct (render c p s) as [p1 s1|e p1 s1]; simpl in Hc; [|exact Hc].
        eapply ends_with_impl; [|apply IH]. unfold head_kept. intros p2 s2 H2.
        eapply same_head_trans; [exact Hc|exact H2].
Qed.

Lemma call_head h elem :
  Forall (keeps_head render) (children elem) ->
  forallb (free_of head_tags) (children elem) = true ->
  h <> h_title -> h <> h_meta -> h <> h_base ->
  forall p s, ends_with (head_kept s) (call render h elem p s).
Proof.
  intros Hcs Hfree Htitle Hmeta Hbase p s.
  pose proof (process_contents_head elem Hcs Hfree) as Hpc.
  pose proof (fun kind => list_loop_head kind (children elem) Hcs Hfree) as Hll.
  pose proof (findall_td_loop_head (children elem) Hcs Hfree) as Htd.
  destruct h; try (now destruct Htitle); try (now destruct Hmeta);
    try (now destruct Hbase); cbn [call];
    unfold _render_em, _render_strong, _render_ins, _render_kbd, _render_samp,
      _render_var, _render_strike, _render_h4, _render_h5, _render_h6,
      _render_menu, _render_th, _render_tt;
    first
      [ apply Hpc
      | unfold _render_a, _render_b, _render_i, _render_u, _render_del,
          _render_code;
        eapply bracket_head; [| |apply Hpc]; [|intros x]; repeat split
      | apply then_append_head, Hpc
      | apply Hll
      | idtac ].
  - unfold _render_br. destruct (isinstance_TextBlock p); apply same_head_refl.
  - unfold _render_hr. apply append_ends_head.
  - unfold _render_iframe. destruct (get elem "src");
      [apply append_ends_head|apply same_head_refl].
  - unfold _render_img. destruct (get elem "src");
      [apply append_ends_head|apply same_head_refl].
  - apply same_head_refl.
  - unfold _render_table.
    pose proof (Hpc (PBlock (Table false [])) s) as H.
    destruct (_process_contents _ _ _ _) as [p1 s1|e p1 s1]; simpl in H; [|exact H].
    destruct (0 <? Width (as_block (Table false []) p1))%nat; [|exact H].
    eapply ends_with_impl; [|apply append_ends_head]. unfold head_kept. intros p2 s2 H2.
    eapply same_head_trans; [exact H|exact H2].
  - unfold _render_td. destruct (negb (isinstance_TableRow p)); [apply same_head_refl|].
    destruct (elem_has_text true elem); [apply Hpc|apply same_head_refl].
  - unfold _render_td. destruct (negb (isinstance_TableRow p)); [apply same_head_refl|].
    destruct (elem_has_text true elem); [apply Hpc|apply same_head_refl].
  - unfold _render_thead. destruct (negb (isinstance_Table p)); [apply same_head_refl|].
    apply Hpc.
  - unfold _render_tr. destruct (negb (isinstance_Table p)); [apply same_head_refl|].
    apply then_append_head, Htd.
Qed.

End Head.

Lemma render_head elem : keeps_head _render elem.
Proof.
  induction elem as [t a tx tl cs IH] using Element_ind'. intros Hfree p s.
  cbn [free_of] in Hfree. apply andb_prop in Hfree as [Ht Hcs].
  rewrite _render_eq. unfold render_body.
  destruct (getattr_render _) as [h|] eqn:Hh; [|apply same_head_refl].
  apply getattr_render_tag in Hh. simpl in Hh. subst t.
  apply call_head; [exact IH|exact Hcs|..]; intros ->; discriminate Ht.
Qed.

(** X24: only the handlers of <title>, <meta> and <base> write the title,
    the metadata and the base URL.  On a document without these three tags a
    parse leaves the metadata and the base URL as they were, on return and
    on an exception, and the title is the base name of [data.name] when the
    data has a name and the title the parser had otherwise. *)
Theorem head_data_comes_from_head_tags (name : option string) (doc : Element)
    (self : HtmlParser) :
  free_of head_tags doc = true ->
  let self' := parser_of (parse name doc self) in
  title self' = match name with
                | Some n => Some (Py.basename n)
                | None => title self
                end
  /\ meta self' = meta self /\ _base_url self' = _base_url self.
Proof.
  intros Hfree. cbv zeta. unfold parse.
  pose proof (render_head doc Hfree PContent (DocumentParser_parse name self)) as H.
  destruct (_render doc PContent _) as [p s'|e p s']; simpl in *;
    destruct H as (Ht & Hm & Hb); rewrite Ht, Hm, Hb; now destruct name.
Qed.

Lemma head_data_comes_from_head_tags_witness :
  title (parser_of (parse (Some "docs/page.html") Sample.stray_row (HtmlParser_init None)))
  = Some "page.html".
Proof.
  exact (proj1 (head_data_comes_from_head_tags (Some "docs/page.html") Sample.stray_row
                  (HtmlParser_init None) eq_refl)).
Defined.
